(** * SpeakMyBook: the chapter-to-audio pipeline of [app.pyw]

    A shallow embedding of the conversion core of [src/python/app.pyw]
    ([convert_srt_to_lrc], [process_text_to_mp3], [update_mp3_tag] and the
    two orchestrating threads of [EpubToMp3App]) together with the
    properties the specification states about it.  The reader of the book
    ([EpubReader], [parse_epub_data]), the estimate of the duration and the
    handlers of the window that load a book and edit its chapter list are
    embedded as well, with properties read off the code.

    Python [str] values are sequences of Unicode code points, so a string
    is a list of code points here and [len] is the length of that list.
    Python integers are unbounded and are modelled by [Z]; [//] and [%]
    with a positive divisor are [Z.div] and [Z.modulo]. *)

From Stdlib Require Import String Ascii.
From Stdlib Require Import ZArith NArith List Bool Lia.
From Stdlib Require Import Permutation Sorted Wf_Z.
From Stdlib Require Import SpecFloat.
Import ListNotations.

Open Scope Z_scope.

(** ** Python strings *)

Module PyStr.

(** A code point. *)
Abbreviation char := N (only parsing).

Abbreviation str := (list N) (only parsing).

(** An ASCII literal of the source, as a code-point string. *)
Definition lit (s : string) : str :=
  List.map N_of_ascii (list_ascii_of_string s).

Definition char_eqb (a b : char) : bool := N.eqb a b.

Fixpoint str_eqb (a b : str) : bool :=
  match a, b with
  | [], [] => true
  | x :: a', y :: b' => char_eqb x y && str_eqb a' b'
  | _, _ => false
  end.

(** [len(s)] *)
Definition len (s : str) : Z := Z.of_nat (List.length s).

(** Truth value of a string: [if s:] holds for the non-empty ones. *)
Definition truthy (s : str) : bool :=
  match s with [] => false | _ :: _ => true end.

Definition LF : char := 10%N.

(** [sep.join(parts)] *)
Fixpoint join (sep : str) (parts : list str) : str :=
  match parts with
  | [] => []
  | [p] => p
  | p :: rest => p ++ sep ++ join sep rest
  end.

(** [s.startswith(p)] *)
Fixpoint startswith (p s : str) : bool :=
  match p, s with
  | [], _ => true
  | _ :: _, [] => false
  | a :: p', b :: s' => char_eqb a b && startswith p' s'
  end.

(** [s.split(sep)] for a non-empty separator: the separator is searched
    from the left and occurrences do not overlap.  [skip] counts the
    characters of a separator occurrence still to be passed over and [cur]
    holds the current piece, reversed. *)
Fixpoint split_go (sep : str) (s : str) (skip : nat) (cur : str) : list str :=
  match s with
  | [] => [List.rev cur]
  | c :: s' =>
      match skip with
      | S k => split_go sep s' k cur
      | O =>
          if startswith sep s
          then List.rev cur :: split_go sep s' (Nat.pred (List.length sep)) []
          else split_go sep s' O (c :: cur)
      end
  end.

Definition split (sep : str) (s : str) : list str := split_go sep s O [].

Section Whitespace.

(** The interpreter's whitespace table ([str.isspace] on one character),
    which [str.strip()] consults. *)
Variable isspace : char -> bool.

(** [s.lstrip()] *)
Fixpoint lstrip (s : str) : str :=
  match s with
  | [] => []
  | c :: s' => if isspace c then lstrip s' else s
  end.

(** [s.rstrip()] *)
Definition rstrip (s : str) : str := List.rev (lstrip (List.rev s)).

(** [s.strip()] *)
Definition strip (s : str) : str := rstrip (lstrip s).

(** [not text or not text.strip()] *)
Definition is_blank (s : str) : bool :=
  negb (truthy s) || negb (truthy (strip s)).

End Whitespace.

(** The character of a decimal digit [0..9]. *)
Definition digit_char (d : Z) : char := (48 + Z.to_N d)%N.

(** Decimal digits of a non-negative integer, most significant first.
    The number of digits is at most the number of bits, which bounds the
    recursion. *)
Fixpoint decimal_digits_fuel (fuel : nat) (n : Z) (acc : str) : str :=
  match fuel with
  | O => acc
  | S fuel' =>
      let acc' := digit_char (n mod 10) :: acc in
      if n <? 10 then acc' else decimal_digits_fuel fuel' (n / 10) acc'
  end.

Definition decimal_digits (n : Z) : str :=
  decimal_digits_fuel (S (Z.to_nat (Z.log2 n))) n [].

(** [str(n)] / [f"{n}"] for an integer. *)
Definition str_of_int (n : Z) : str :=
  if n <? 0 then lit "-" ++ decimal_digits (- n) else decimal_digits n.

(** [f"{n:0wd}"]: sign first, then zeros up to the width [w], then the
    digits; nothing is cut when the number is wider than [w]. *)
Definition format_0d (w : nat) (n : Z) : str :=
  let ds := decimal_digits (Z.abs n) in
  if n <? 0
  then lit "-" ++ List.repeat (digit_char 0) (w - 1 - List.length ds) ++ ds
  else List.repeat (digit_char 0) (w - List.length ds) ++ ds.

Definition is_ascii_digit (c : char) : bool := ((48 <=? c) && (c <=? 57))%N.

(** The ASCII part of the whitespace table: tab to carriage return, the
    four separators and the space. *)
Definition ascii_isspace (c : char) : bool :=
  ((9 <=? c) && (c <=? 13) || (28 <=? c) && (c <=? 32))%N.

(** The value of a string of ASCII decimal digits. *)
Definition ascii_digit_value (c : char) : option Z :=
  if (48 <=? c)%N && (c <=? 57)%N then Some (Z.of_N c - 48) else None.

Fixpoint int_of_digits_acc (dv : char -> option Z) (s : str) (acc : Z) : option Z :=
  match s with
  | [] => Some acc
  | c :: s' =>
      match dv c with
      | Some d => int_of_digits_acc dv s' (10 * acc + d)
      | None => None
      end
  end.

(** [int(s)] on a non-empty string of decimal digits, for the digit
    table [dv]. *)
Definition int_of_digits (dv : char -> option Z) (s : str) : option Z :=
  match s with
  | [] => None
  | _ => int_of_digits_acc dv s 0
  end.

End PyStr.

Import PyStr.

(** ** Subtitle formatter: [convert_srt_to_lrc] *)

Module Subtitle.

(** An entry [(time_ms, text)] of [all_items] and of [merged_items]. *)
Abbreviation item := (Z * list N)%type (only parsing).

Definition COLON : char := 58%N.
Definition COMMA : char := 44%N.

Section Parse.

(** Interpreter tables: whitespace for [strip()], and the decimal value
    of a character, which decides both what [\d] matches and what
    [int()] returns. *)
Variable isspace : char -> bool.
Variable decimal : char -> option Z.

(** [int] of a group [(\d{2})]. *)
Definition two_digits (a b : char) : option Z :=
  match decimal a, decimal b with
  | Some x, Some y => Some (10 * x + y)
  | _, _ => None
  end.

(** [int] of the group [(\d{3})]. *)
Definition three_digits (a b c : char) : option Z :=
  match decimal a, decimal b, decimal c with
  | Some x, Some y, Some z => Some (10 * (10 * x + y) + z)
  | _, _, _ => None
  end.

(** The pattern [(\d{2}):(\d{2}):(\d{2}),(\d{3})] anchored at the start
    of [s], with the four groups already converted by [int]. *)
Definition match_here (s : str) : option (Z * Z * Z * Z) :=
  match s with
  | h1 :: h2 :: c1 :: m1 :: m2 :: c2 :: s1 :: s2 :: c3 :: l1 :: l2 :: l3 :: _ =>
      if char_eqb c1 COLON && char_eqb c2 COLON && char_eqb c3 COMMA then
        match two_digits h1 h2, two_digits m1 m2, two_digits s1 s2,
              three_digits l1 l2 l3 with
        | Some h, Some m, Some sec, Some ms => Some (h, m, sec, ms)
        | _, _, _, _ => None
        end
      else None
  | _ => None
  end.

(** [re.search(pattern, s)]: the leftmost position where the pattern
    matches. *)
Fixpoint re_search (s : str) : option (Z * Z * Z * Z) :=
  match match_here s with
  | Some g => Some g
  | None =>
      match s with
      | [] => None
      | _ :: s' => re_search s'
      end
  end.

(** [lines[k]] once the length has been checked. *)
Definition line (k : nat) (lines : list str) : str := List.nth k lines [].

(** The body of the [for block in srt_blocks] loop: the entry appended
    to [all_items], if any. *)
Definition parse_block (block : str) : option item :=
  let lines := split [LF] block in
  if (3 <=? List.length lines)%nat && truthy (strip isspace (line 1 lines)) then
    let time_line := line 1 lines in
    let text_line := line 2 lines in
    match re_search time_line with
    | Some (hours, minutes, seconds, milliseconds) =>
        Some ((hours * 3600 + minutes * 60 + seconds) * 1000 + milliseconds,
              text_line)
    | None => None
    end
  else None.

(** [srt_content.strip().split('\n\n')] *)
Definition srt_blocks (srt_content : str) : list str :=
  split [LF; LF] (strip isspace srt_content).

(** [all_items] after the first loop. *)
Fixpoint items_of_blocks (blocks : list str) : list item :=
  match blocks with
  | [] => []
  | b :: rest =>
      match parse_block b with
      | Some it => it :: items_of_blocks rest
      | None => items_of_blocks rest
      end
  end.

End Parse.

(** [all_items.sort(key=lambda x: x[0])]: Python's sort is stable, so the
    result is the unique stable arrangement by ascending key.  It is
    computed here by insertion from the right. *)
Fixpoint insert_by_time (x : item) (l : list item) : list item :=
  match l with
  | [] => [x]
  | y :: l' => if fst x <=? fst y then x :: l else y :: insert_by_time x l'
  end.

Fixpoint sort_by_time (l : list item) : list item :=
  match l with
  | [] => []
  | x :: l' => insert_by_time x (sort_by_time l')
  end.

(** The merging loop [for i, (time_ms, text) in enumerate(all_items)].
    [n] is [len(all_items)], [i] the index of the head of [items];
    [current_time] is [None] until first assigned.  [current_text] is
    non-empty only after [current_time] was assigned, so the [None] case
    of the append is never reached (no text is ever dropped, see
    [merge_loop_text]). *)
Fixpoint merge_loop (chars_per_line : Z) (n : Z) (i : Z) (items : list item)
    (current_text : str) (current_time : option Z) (merged_items : list item)
    : list item :=
  match items with
  | [] => merged_items
  | (time_ms, text) :: rest =>
      let current_time :=
        if negb (truthy current_text) then Some time_ms else current_time in
      let current_text := current_text ++ text in
      if (len current_text >=? chars_per_line) || (i =? n - 1) then
        let merged_items :=
          if truthy current_text then
            match current_time with
            | Some t => merged_items ++ [(t, current_text)]
            | None => merged_items
            end
          else merged_items in
        merge_loop chars_per_line n (i + 1) rest [] current_time merged_items
      else
        merge_loop chars_per_line n (i + 1) rest current_text current_time
          merged_items
  end.

(** [merged_items] for the fragments [all_items] (sorted first, as the
    function does). *)
Definition merge_items (all_items : list item) (chars_per_line : Z) : list item :=
  let sorted := sort_by_time all_items in
  merge_loop chars_per_line (Z.of_nat (List.length sorted)) 0 sorted [] None [].

(** One rendered line, the f-string
    [[{minutes:02d}:{seconds:02d}.{milliseconds:02d}]{text}]. *)
Definition lrc_line (it : item) : str :=
  let (time_ms, text) := it in
  let minutes := (time_ms / 1000) / 60 in
  let seconds := (time_ms / 1000) mod 60 in
  let milliseconds := (time_ms mod 1000) / 10 in
  lit "[" ++ format_0d 2 minutes ++ lit ":" ++ format_0d 2 seconds ++ lit "."
    ++ format_0d 2 milliseconds ++ lit "]" ++ text.

(** The function from [all_items] on: the early return of the empty
    string, the merge and the rendering. *)
Definition lrc_of_items (all_items : list item) (chars_per_line : Z) : str :=
  match all_items with
  | [] => []
  | _ => join [LF] (List.map lrc_line (merge_items all_items chars_per_line))
  end.

Definition lrc_of_blocks (isspace : char -> bool) (decimal : char -> option Z)
    (blocks : list str) (chars_per_line : Z) : str :=
  lrc_of_items (items_of_blocks isspace decimal blocks) chars_per_line.

Definition convert_srt_to_lrc (isspace : char -> bool) (decimal : char -> option Z)
    (srt_content : str) (chars_per_line : Z) : str :=
  lrc_of_blocks isspace decimal (srt_blocks isspace srt_content) chars_per_line.



(** Whether two line feeds follow each other somewhere in [s]. *)
Fixpoint has_blank_line (s : str) : bool :=
  match s with
  | a :: (b :: _) as s' => char_eqb a LF && char_eqb b LF || has_blank_line s'
  | _ => false
  end.

(** A block as a subtitle writer emits it: not empty, no whitespace at
    either end and no blank line inside. *)
Definition trimmed (isspace : char -> bool) (b : str) : bool :=
  match b with
  | [] => false
  | c :: _ =>
      negb (isspace c) && negb (isspace (List.last b c))
      && negb (char_eqb (List.last b c) LF) && negb (has_blank_line b)
  end.

End Subtitle.

Import Subtitle.


(** ** Binary64 arithmetic of the progress computation *)

Module PyFloat.

(** Python's [float] is IEEE 754 binary64: 53 bits of precision, exponents
    up to 1024.  The operations are the executable ones of the standard
    library's specification of floating-point numbers, rounding to nearest
    even. *)
Definition prec : Z := 53.
Definition emax : Z := 1024.

Definition float := spec_float.

(** [float(n)] for an integer, correctly rounded. *)
Definition of_int (n : Z) : float := binary_normalize prec emax n 0 false.

(** [a / b] for two integers small enough to be floats exactly (below
    2^53), where Python's true division is the division of the two
    floats.  A zero divisor raises [ZeroDivisionError]. *)
Definition truediv (a b : Z) : option float :=
  if b =? 0 then None else Some (SFdiv prec emax (of_int a) (of_int b)).

(** [x * n] for a float and an integer. *)
Definition mul_int (x : float) (n : Z) : float :=
  SFmul prec emax x (of_int n).

(** [int(x)] for a finite float: truncation toward zero. *)
Definition to_int (x : float) : option Z :=
  match x with
  | S754_zero _ => Some 0
  | S754_finite s m e =>
      let a := if 0 <=? e then Z.pos m * 2 ^ e else Z.pos m / 2 ^ (- e) in
      Some (if s then - a else a)
  | _ => None
  end.

(** A float that is zero or finite, with its mantissa below [2^D] and its
    exponent at most [hi]. *)
Definition fbounded (D hi : Z) (x : spec_float) : Prop :=
  match x with
  | S754_zero _ => True
  | S754_finite _ m e => Zpos m < 2 ^ D /\ e <= hi
  | _ => False
  end.

End PyFloat.

Import PyFloat.

(** ** The world the pipeline acts on *)

Module Effects.

Abbreviation bytes := (list N) (only parsing).

(** [str(e)] of a raised exception. *)
Abbreviation exn := (list N) (only parsing).

(** [os.path.join(directory, name)]; [os.path.dirname] and
    [os.path.basename] are the two projections. *)
Record path := mkpath { dirname : str; basename : str }.

Definition path_eqb (p q : path) : bool :=
  str_eqb (dirname p) (dirname q) && str_eqb (basename p) (basename q).

(** The ID3 frames [update_mp3_tag] sets. *)
Record frames := mkframes {
  APIC : option (str * bytes);   (* mime, data *)
  TIT2 : str;
  TPE1 : str;
  TALB : str;
  USLT : option (str * str)      (* lang, text *)
}.

(** A file: its content (a text file holds the code points of its text,
    the UTF-8 encoding is not modelled) and the tag saved into it. *)
Record file := mkfile { content : list N; id3 : option frames }.

(** Lines printed to [sys.stderr]. *)
Inductive stderr_line :=
| WarnEmptyText
| AttemptError (attempt max_retries : Z) (e : exn)
| WaitRetry (seconds : Z)
| RetriesExhausted (max_retries : Z) (e : exn)
| TagError (e : exn)
| Traceback (e : exn).

(** The texts put on the message queue with kind ["log"]. *)
Inductive log_line :=
| LogStartChapter (title : str)
| LogGenerating
| LogGeneratedTagging
| LogDone (name : str)
| LogElapsed
| LogTagFailed
| LogGenFailed
| LogConvertError (e : exn)
| LogBatchStart (total : Z)
| LogSkipEmpty (title : str)
| LogProcess (title : str)
| LogChapterDone (title : str)
| LogChapterTagFailed (title : str)
| LogChapterFailed (title : str)
| LogAllDone
| LogBatchElapsed
| LogBatchError (e : exn)
| LogCoverReadFailed (e : exn).

(** The texts put on the message queue with kind ["status"]. *)
Inductive status_line :=
| StatusConverting (title : str)
| StatusDone
| StatusPartialTagFailed
| StatusFailed
| StatusError (e : exn)
| StatusBatch (done total : Z)
| StatusBatchDone (total : Z)
| StatusBatchError (e : exn).

(** [self.message_queue.put((kind, data))] *)
Inductive queue_msg :=
| QLog (l : log_line)
| QStatus (s : status_line)
| QProgress (pct : Z).

(** Callbacks handed to the interface thread with [self.root.after(0, ...)]. *)
Inductive ui_action :=
| ConvertButton (enabled : bool)
| GenerateButton (enabled : bool)
| AskOpenDir
| ShowError (e : exn).

Inductive event :=
| Communicate (text voice : str)     (* edge_tts.Communicate(text, voice) *)
| Makedirs (directory : str)
| Stderr (l : stderr_line)
| Sleep (seconds : Z)                (* await asyncio.sleep(seconds) *)
| Put (m : queue_msg)
| After (a : ui_action).

Record world := mkworld {
  files : path -> option file;
  processing : bool;                 (* self.processing *)
  events : list event                (* oldest first *)
}.

(** A computation: it may change the world and either returns or raises. *)
Definition M (A : Type) : Type := world -> world * (exn + A).

Definition ret {A} (a : A) : M A := fun w => (w, inr a).

Definition raise {A} (e : exn) : M A := fun w => (w, inl e).

Definition bind {A B} (m : M A) (f : A -> M B) : M B :=
  fun w =>
    let (w', r) := m w in
    match r with
    | inl e => (w', inl e)
    | inr a => f a w'
    end.

(** [try: m  except Exception as e: h e] *)
Definition try_catch {A} (m : M A) (h : exn -> M A) : M A :=
  fun w =>
    let (w', r) := m w in
    match r with
    | inl e => h e w'
    | inr a => (w', inr a)
    end.

(** [try: m  finally: f] *)
Definition try_finally {A} (m : M A) (f : M unit) : M A :=
  fun w =>
    let (w', r) := m w in
    let (w'', r') := f w' in
    (w'', match r' with inl e => inl e | inr _ => r end).

Definition emit (ev : event) : M unit :=
  fun w => (mkworld (files w) (processing w) (events w ++ [ev]), inr tt).

Definition set_processing (b : bool) : M unit :=
  fun w => (mkworld (files w) b (events w), inr tt).

Definition write_file (p : path) (f : file) : M unit :=
  fun w =>
    (mkworld (fun q => if path_eqb q p then Some f else files w q)
             (processing w) (events w), inr tt).

Definition read_file (p : path) : M (option file) :=
  fun w => (w, inr (files w p)).

Definition put (m : queue_msg) : M unit := emit (Put m).
Definition print_stderr (l : stderr_line) : M unit := emit (Stderr l).

Module Notations.
Notation "x <- m ;; k" := (bind m (fun x => k))
  (at level 61, m at next level, right associativity).
Notation "m ;; k" := (bind m (fun _ => k))
  (at level 61, right associativity).
End Notations.

End Effects.

Import Effects.
Import Effects.Notations.

(** ** Retrying synthesis job: [process_text_to_mp3] *)

Module Job.

Definition DEFAULT_CHARS_PER_LINE : Z := 15.
Definition MAX_RETRIES : Z := 3.
Definition RETRY_DELAY_SECONDS : Z := 5.

(** What the speech provider and the file system do during one attempt:
    the first call that raises, or the audio bytes and the SRT text that
    [submaker.get_srt()] returns once the stream has ended. *)
Inductive outcome :=
| CommunicateRaises (e : exn)
| MakedirsRaises (e : exn)
| OpenAudioRaises (e : exn)
| StreamRaises (partial : bytes) (e : exn)
| LrcWriteRaises (audio : bytes) (srt : str) (e : exn)
| Streamed (audio : bytes) (srt : str).

Section Job.

Variable isspace : char -> bool.
Variable decimal : char -> option Z.

Definition new_communicate (o : outcome) (text voice : str) : M unit :=
  match o with
  | CommunicateRaises e => raise e
  | _ => emit (Communicate text voice)
  end.

Definition makedirs (o : outcome) (d : str) : M unit :=
  match o with
  | MakedirsRaises e => raise e
  | _ => emit (Makedirs d)
  end.

(** [open(output_audio, "wb")] followed by the [async for] over the
    stream: the file is created, the audio chunks are written as they
    arrive and the word boundaries are fed to the sub-maker. *)
Definition stream_audio (o : outcome) (output_audio : path) : M str :=
  match o with
  | OpenAudioRaises e => raise e
  | StreamRaises partial e =>
      write_file output_audio (mkfile partial None) ;; raise e
  | LrcWriteRaises audio srt _ | Streamed audio srt =>
      write_file output_audio (mkfile audio None) ;; ret srt
  | CommunicateRaises e | MakedirsRaises e => raise e
  end.

Definition write_lrc (o : outcome) (output_lrc : path) (lrc_content : str)
    : M unit :=
  match o with
  | LrcWriteRaises _ _ e => raise e
  | _ => write_file output_lrc (mkfile lrc_content None)
  end.

(** The body of the [try] block of one attempt. *)
Definition attempt_body (text : str) (output_audio output_lrc : path)
    (voice : str) (chars_per_line : Z) (o : outcome) : M bool :=
  if is_blank isspace text then
    print_stderr WarnEmptyText ;; ret false
  else
    new_communicate o text voice ;;
    makedirs o (dirname output_audio) ;;
    srt_content <- stream_audio o output_audio ;;
    let lrc_content :=
      convert_srt_to_lrc isspace decimal srt_content chars_per_line in
    write_lrc o output_lrc lrc_content ;;
    ret true.

(** The [except Exception as e] block. *)
Definition on_error (attempt max_retries : Z) (e : exn) : M unit :=
  if attempt <? max_retries - 1 then
    print_stderr (AttemptError (attempt + 1) max_retries e) ;;
    print_stderr (WaitRetry RETRY_DELAY_SECONDS) ;;
    emit (Sleep RETRY_DELAY_SECONDS)
  else
    print_stderr (RetriesExhausted max_retries e) ;;
    print_stderr (Traceback e).

(** [for attempt in range(max_retries)], with [todo] iterations left;
    [env attempt] is what the outside does during that attempt.  A
    [return] inside the [try] leaves the loop, an exception runs the
    handler and goes on to the next iteration. *)
Fixpoint retry_loop (text : str) (output_audio output_lrc : path)
    (voice : str) (chars_per_line max_retries : Z) (env : Z -> outcome)
    (todo : nat) (attempt : Z) : M bool :=
  match todo with
  | O => ret false
  | S todo' =>
      r <- try_catch
             (b <- attempt_body text output_audio output_lrc voice
                     chars_per_line (env attempt) ;;
              ret (Some b))
             (fun e => on_error attempt max_retries e ;; ret None) ;;
      match r with
      | Some b => ret b
      | None =>
          retry_loop text output_audio output_lrc voice chars_per_line
            max_retries env todo' (attempt + 1)
      end
  end.

Definition process_text_to_mp3 (text : str) (output_audio output_lrc : path)
    (voice : str) (chars_per_line max_retries : Z) (env : Z -> outcome)
    : M bool :=
  retry_loop text output_audio output_lrc voice chars_per_line max_retries
    env (Z.to_nat max_retries) 0.

End Job.

End Job.

Import Job.

(** ** Metadata tagger: [update_mp3_tag] *)

Module Tagger.

Definition LYRIC_LANG : str := lit "zho".

(** What the tag library does: loading the audio ([MP3(mp3_path)]) or
    saving it may raise. *)
Inductive tag_outcome :=
| LoadRaises (e : exn)
| SaveRaises (e : exn)
| Saves.

Fixpoint bytes_startswith (p s : bytes) : bool :=
  match p, s with
  | [], _ => true
  | _ :: _, [] => false
  | a :: p', b :: s' => N.eqb a b && bytes_startswith p' s'
  end.

(** The image type, from the first bytes of the cover. *)
Definition mime_type (cover_data : bytes) : str :=
  if bytes_startswith [137; 80; 78; 71]%N cover_data then lit "image/png"
  else if bytes_startswith [71; 73; 70; 56]%N cover_data then lit "image/gif"
  else lit "image/jpeg".

Definition no_such_file : exn := lit "No such file or directory".

Definition load_mp3 (o : tag_outcome) (mp3_path : path) : M file :=
  f <- read_file mp3_path ;;
  match f, o with
  | None, _ => raise no_such_file
  | Some _, LoadRaises e => raise e
  | Some f, _ => ret f
  end.

Definition save_mp3 (o : tag_outcome) (mp3_path : path) (audio : file)
    (tags : frames) : M unit :=
  match o with
  | SaveRaises e => raise e
  | _ => write_file mp3_path (mkfile (content audio) (Some tags))
  end.

Definition update_mp3_tag (mp3_path lrc_path : path) (cover_data : option bytes)
    (title artist album lyric_lang : str) (o : tag_outcome) : M bool :=
  try_catch
    (audio <- load_mp3 o mp3_path ;;
     let apic :=
       match cover_data with
       | Some (b :: data) => Some (mime_type (b :: data), b :: data)
       | _ => None
       end in
     lrc <- read_file lrc_path ;;
     let uslt :=
       match lrc with
       | Some f => Some (lyric_lang, content f)
       | None => None
       end in
     save_mp3 o mp3_path audio (mkframes apic title artist album uslt) ;;
     ret true)
    (fun e =>
       print_stderr (TagError e) ;;
       print_stderr (Traceback e) ;;
       ret false).

End Tagger.

Import Tagger.

(** ** Conversion orchestrator: the two worker threads *)

Module Orchestrator.

(** A chapter dictionary; a key may be absent. *)
Record chapter := mkchapter {
  chapter_title : option str;
  chapter_content : option str
}.

(** The nine characters the [re.sub] of the title removes: backslash,
    slash, star, question mark, colon, double quote, less-than,
    greater-than and bar. *)
Definition illegal_chars : list char :=
  [92; 47; 42; 63; 58; 34; 60; 62; 124]%N.

Definition is_illegal (c : char) : bool :=
  List.existsb (char_eqb c) illegal_chars.

Definition strip_illegal (title : str) : str :=
  List.filter (fun c => negb (is_illegal c)) title.

(** The two characters of the placeholder prefix, U+7AE0 U+8282. *)
Definition ZHANGJIE : str := [31456; 33410]%N.

(** [safe_title] of the single-chapter mode, for the 0-based [index]. *)
Definition single_safe_title (title : str) (index : Z) : str :=
  let safe_title := strip_illegal title in
  if negb (truthy safe_title) then ZHANGJIE ++ str_of_int (index + 1)
  else safe_title.

(** [safe_title] of the batch mode, for the 1-based [i]. *)
Definition batch_safe_title (title : str) (i : Z) : str :=
  let safe_title := strip_illegal title in
  let safe_title :=
    if negb (truthy safe_title) then ZHANGJIE ++ str_of_int i else safe_title in
  if len safe_title >? 200 then List.firstn 197 safe_title ++ lit "..."
  else safe_title.

(** [f"{safe_title}.mp3"] and [f"{safe_title}.lrc"] *)
Definition single_name (safe_title ext : str) : str :=
  safe_title ++ lit "." ++ ext.

(** [f"{i:03d}-{safe_title}.mp3"] and [f"{i:03d}-{safe_title}.lrc"] *)
Definition batch_name (i : Z) (safe_title ext : str) : str :=
  format_0d 3 i ++ lit "-" ++ safe_title ++ lit "." ++ ext.

(** [int(done / total * 100)], in floating point as the source computes
    it; [None] where Python raises. *)
Definition progress_pct (done total : Z) : option Z :=
  match PyFloat.truediv done total with
  | Some q => PyFloat.to_int (PyFloat.mul_int q 100)
  | None => None
  end.

Definition float_error : exn := lit "float error".

Definition eval_progress (done total : Z) : M Z :=
  match progress_pct done total with
  | Some p => ret p
  | None => raise float_error
  end.

Record single_params := mksingle {
  s_chapter_title : str;
  s_content : str;
  s_output_mp3 : path;
  s_output_lrc : path;
  s_voice : str;
  s_chars_per_line : Z;
  s_artist : str;
  s_album : str;
  s_cover_path : option path
}.

Record batch_params := mkbatch {
  b_output_dir : str;
  b_chapters : list chapter;
  b_voice : str;
  b_chars_per_line : Z;
  b_artist : str;
  b_album : str;
  b_cover_data : option bytes
}.

Definition generation_failed : exn := lit "generation failed".

(** What opening and reading the cover file at an existing path does. *)
Inductive open_outcome :=
| Opens
| OpenRaises (e : exn).

Section Threads.

Variable isspace : char -> bool.
Variable decimal : char -> option Z.

(** The cover of the single-chapter mode: the file at [cover_path] when
    the path is not empty and exists, else the cover of the loaded book.
    An entry of [files] is a path that exists; [opening] tells what
    [open(cover_path, 'rb')] and [f.read()] do with it: a directory, or a
    file that may not be read, raises. *)
Definition single_cover (cover_path : option path) (epub_cover : option bytes)
    (opening : open_outcome) : M (option bytes) :=
  f <- match cover_path with
       | Some p => read_file p
       | None => ret None
       end ;;
  match f with
  | Some f =>
      match opening with
      | Opens => ret (Some (content f))
      | OpenRaises e => raise e
      end
  | None =>
      match epub_cover with
      | Some (b :: data) => ret (Some (b :: data))
      | _ => ret None
      end
  end.

Definition _convert_single_chapter_thread (params : single_params)
    (epub_cover : option bytes) (opening : open_outcome)
    (env : Z -> outcome) (tag : tag_outcome) : M unit :=
  put (QLog (LogStartChapter (s_chapter_title params))) ;;
  put (QStatus (StatusConverting (s_chapter_title params))) ;;
  put (QProgress 0) ;;
  set_processing true ;;
  emit (After (ConvertButton false)) ;;
  try_finally
    (try_catch
       (cover_data <- single_cover (s_cover_path params) epub_cover opening ;;
        put (QLog LogGenerating) ;;
        result <- process_text_to_mp3 isspace decimal (s_content params)
                    (s_output_mp3 params) (s_output_lrc params)
                    (s_voice params) (s_chars_per_line params)
                    MAX_RETRIES env ;;
        if result : bool then
          put (QProgress 80) ;;
          put (QLog LogGeneratedTagging) ;;
          tagged <- update_mp3_tag (s_output_mp3 params) (s_output_lrc params)
                      cover_data (s_chapter_title params) (s_artist params)
                      (s_album params) LYRIC_LANG tag ;;
          if tagged : bool then
            put (QProgress 100) ;;
            put (QLog (LogDone (basename (s_output_mp3 params)))) ;;
            put (QLog LogElapsed) ;;
            put (QStatus StatusDone) ;;
            emit (After AskOpenDir)
          else
            put (QLog LogTagFailed) ;;
            put (QStatus StatusPartialTagFailed)
        else
          put (QLog LogGenFailed) ;;
          put (QStatus StatusFailed) ;;
          emit (After (ShowError generation_failed)))
       (fun e =>
          put (QLog (LogConvertError e)) ;;
          put (QStatus (StatusError e)) ;;
          print_stderr (Traceback e) ;;
          emit (After (ShowError e))))
    (set_processing false ;;
     emit (After (ConvertButton true))).

(** The body of [for i, chapter in enumerate(chapters, 1)]; the
    [continue] of an empty chapter ends the body early. *)
Definition chapter_body (params : batch_params)
    (env : Z -> Z -> outcome) (tag : Z -> tag_outcome)
    (i : Z) (ch : chapter) : M unit :=
  let chapters := b_chapters params in
  let title :=
    match chapter_title ch with
    | Some t => t
    | None => ZHANGJIE ++ str_of_int i
    end in
  let content :=
    match chapter_content ch with Some c => c | None => [] end in
  let safe_title := batch_safe_title title i in
  let output_mp3 :=
    mkpath (b_output_dir params) (batch_name i safe_title (lit "mp3")) in
  let output_lrc :=
    mkpath (b_output_dir params) (batch_name i safe_title (lit "lrc")) in
  progress_pct <- eval_progress (i - 1) (Z.of_nat (List.length chapters)) ;;
  put (QProgress progress_pct) ;;
  put (QStatus (StatusBatch (i - 1) (Z.of_nat (List.length chapters)))) ;;
  if negb (truthy (strip isspace content)) then
    put (QLog (LogSkipEmpty title))
  else
    put (QLog (LogProcess title)) ;;
    result <- process_text_to_mp3 isspace decimal content output_mp3
                output_lrc (b_voice params) (b_chars_per_line params)
                MAX_RETRIES (env i) ;;
    if result : bool then
      tagged <- update_mp3_tag output_mp3 output_lrc (b_cover_data params)
                  title (b_artist params) (b_album params) LYRIC_LANG
                  (tag i) ;;
      if tagged : bool then put (QLog (LogChapterDone title))
      else put (QLog (LogChapterTagFailed title))
    else
      put (QLog (LogChapterFailed title)).

Fixpoint chapter_loop (params : batch_params)
    (env : Z -> Z -> outcome) (tag : Z -> tag_outcome)
    (i : Z) (todo : list chapter) : M unit :=
  match todo with
  | [] => ret tt
  | ch :: rest =>
      chapter_body params env tag i ch ;;
      chapter_loop params env tag (i + 1) rest
  end.

Definition _generate_ebook_thread (params : batch_params)
    (env : Z -> Z -> outcome) (tag : Z -> tag_outcome) : M unit :=
  let chapters := b_chapters params in
  let total := Z.of_nat (List.length chapters) in
  put (QLog (LogBatchStart total)) ;;
  put (QStatus (StatusBatch 0 total)) ;;
  try_finally
    (try_catch
       (chapter_loop params env tag 1 chapters ;;
        put (QProgress 100) ;;
        put (QStatus (StatusBatchDone total)) ;;
        put (QLog LogAllDone) ;;
        put (QLog LogBatchElapsed) ;;
        emit (After AskOpenDir))
       (fun e =>
          put (QLog (LogBatchError e)) ;;
          put (QStatus (StatusBatchError e)) ;;
          print_stderr (Traceback e) ;;
          emit (After (ShowError e))))
    (set_processing false ;;
     emit (After (GenerateButton true))).

End Threads.

End Orchestrator.

Import Orchestrator.

(** ** The interface handlers that start a conversion *)

Module App.

(** A worker thread started by a handler, with the parameters it got. *)
Inductive worker :=
| SingleChapterWorker (params : single_params)
| BatchWorker (params : batch_params).

(** Message boxes the handlers show. *)
Inductive dialog :=
| ErrorSelectChapter      (* no valid chapter selected *)
| ErrorBadIndex
| ErrorNoContent (title : str)
| ErrorNoChapters
| WarnBusy.               (* a conversion is in progress, please wait *)

(** What reading the file at [cover_path] gives. *)
Inductive cover_file :=
| NoCoverFile
| CoverUnreadable (e : exn)
| CoverBytes (data : bytes).

Record state := mkstate {
  busy : bool;                           (* self.processing *)
  epub_chapters : option (list chapter); (* self.epub_data['chapters'] *)
  epub_cover : option bytes;             (* self.epub_data['cover_data'] *)
  output_dir_var : option str;           (* None while the entry is empty *)
  voice_var : str;
  chars_per_line_var : Z;
  artist_var : str;
  album_var : str;
  cover_path_var : option path;
  cover_on_disk : cover_file;
  threads : list worker;                 (* started and not yet finished *)
  shown : list dialog;                   (* oldest first *)
  queued : list queue_msg
}.

(** What the user answers to the two questions a handler may ask. *)
Record answers := mkanswers {
  askdirectory : option str;
  askyesno : bool
}.

Definition show (d : dialog) (s : state) : state :=
  mkstate (busy s) (epub_chapters s) (epub_cover s) (output_dir_var s)
    (voice_var s) (chars_per_line_var s) (artist_var s) (album_var s)
    (cover_path_var s) (cover_on_disk s) (threads s) (shown s ++ [d])
    (queued s).

Definition set_output_dir (d : str) (s : state) : state :=
  mkstate (busy s) (epub_chapters s) (epub_cover s) (Some d)
    (voice_var s) (chars_per_line_var s) (artist_var s) (album_var s)
    (cover_path_var s) (cover_on_disk s) (threads s) (shown s) (queued s).

Definition set_busy (b : bool) (s : state) : state :=
  mkstate b (epub_chapters s) (epub_cover s) (output_dir_var s)
    (voice_var s) (chars_per_line_var s) (artist_var s) (album_var s)
    (cover_path_var s) (cover_on_disk s) (threads s) (shown s) (queued s).

Definition enqueue (m : queue_msg) (s : state) : state :=
  mkstate (busy s) (epub_chapters s) (epub_cover s) (output_dir_var s)
    (voice_var s) (chars_per_line_var s) (artist_var s) (album_var s)
    (cover_path_var s) (cover_on_disk s) (threads s) (shown s)
    (queued s ++ [m]).

(** [threading.Thread(target=..., daemon=True).start()] *)
Definition start_thread (w : worker) (s : state) : state :=
  mkstate (busy s) (epub_chapters s) (epub_cover s) (output_dir_var s)
    (voice_var s) (chars_per_line_var s) (artist_var s) (album_var s)
    (cover_path_var s) (cover_on_disk s) (threads s ++ [w]) (shown s)
    (queued s).

(** The output directory: the entry, or else the directory the user
    picks, which is then stored in the entry. *)
Definition choose_output_dir (a : answers) (s : state) : option (str * state) :=
  match output_dir_var s with
  | Some d => Some (d, s)
  | None =>
      match askdirectory a with
      | Some d => Some (d, set_output_dir d s)
      | None => None
      end
  end.

Section Handlers.

Variable isspace : char -> bool.

(** [convert_chapter_to_mp3(self, index)], reached from the convert
    button (through [convert_current_chapter]) and from the context
    menu of the chapter list. *)
Definition convert_chapter_to_mp3 (index : Z) (a : answers) (s : state)
    : state :=
  match epub_chapters s with
  | None => show ErrorSelectChapter s
  | Some chapters =>
      if index <? 0 then show ErrorSelectChapter s
      else if index >=? Z.of_nat (List.length chapters) then
        show ErrorBadIndex s
      else
        let chapter :=
          List.nth (Z.to_nat index) chapters (mkchapter None None) in
        let title :=
          match chapter_title chapter with
          | Some t => t
          | None => ZHANGJIE ++ lit " " ++ str_of_int (index + 1)
          end in
        let content :=
          match chapter_content chapter with Some c => c | None => [] end in
        if negb (truthy (strip isspace content)) then
          show (ErrorNoContent title) s
        else
          let safe_title := single_safe_title title index in
          match choose_output_dir a s with
          | None => s
          | Some (output_dir, s1) =>
              let output_mp3 :=
                mkpath output_dir (single_name safe_title (lit "mp3")) in
              let output_lrc :=
                mkpath output_dir (single_name safe_title (lit "lrc")) in
              if negb (askyesno a) then s1
              else
                start_thread
                  (SingleChapterWorker
                     (mksingle title content output_mp3 output_lrc
                        (voice_var s1) (chars_per_line_var s1)
                        (artist_var s1) (album_var s1) (cover_path_var s1)))
                  s1
          end
  end.

(** [start_generate_ebook(self)] *)
Definition start_generate_ebook (a : answers) (s : state) : state :=
  if busy s then show WarnBusy s
  else
    match epub_chapters s with
    | None | Some [] => show ErrorNoChapters s
    | Some chapters =>
        match choose_output_dir a s with
        | None => s
        | Some (output_dir, s1) =>
            let (cover_data, s2) :=
              match cover_path_var s1, cover_on_disk s1 with
              | Some _, CoverBytes data => (Some data, s1)
              | Some _, CoverUnreadable e =>
                  (None, enqueue (QLog (LogCoverReadFailed e)) s1)
              | _, _ =>
                  (match epub_cover s1 with
                   | Some (b :: data) => Some (b :: data)
                   | _ => None
                   end, s1)
              end in
            if negb (askyesno a) then s2
            else
              start_thread
                (BatchWorker
                   (mkbatch output_dir chapters (voice_var s2)
                      (chars_per_line_var s2) (artist_var s2) (album_var s2)
                      cover_data))
                (set_busy true s2)
        end
    end.

End Handlers.

(** The first statements of a worker: the single-chapter thread sets the
    flag itself, the batch thread finds it set by its handler. *)
Definition thread_begins (w : worker) (s : state) : state :=
  match w with
  | SingleChapterWorker _ => set_busy true s
  | BatchWorker _ => s
  end.

Fixpoint remove_nth (k : nat) (l : list worker) : list worker :=
  match l, k with
  | [], _ => []
  | _ :: l', O => l'
  | w :: l', S k' => w :: remove_nth k' l'
  end.

(** The [finally] block of the [k]-th running worker: the flag is cleared
    and the thread ends. *)
Definition thread_ends (k : nat) (s : state) : state :=
  mkstate false (epub_chapters s) (epub_cover s) (output_dir_var s)
    (voice_var s) (chars_per_line_var s) (artist_var s) (album_var s)
    (cover_path_var s) (cover_on_disk s) (remove_nth k (threads s)) (shown s)
    (queued s).

(** How many conversions are running. *)
Definition running (s : state) : nat := List.length (threads s).

End App.

(** ** Reading a run *)

Module Trace.

(** The exception an attempt ends with, if it raises. *)
Definition raised (o : outcome) : option exn :=
  match o with
  | CommunicateRaises e | MakedirsRaises e | OpenAudioRaises e
  | StreamRaises _ e | LrcWriteRaises _ _ e => Some e
  | Streamed _ _ => None
  end.

(** The events of one attempt on a non-blank text up to the point where
    it raises or returns. *)
Definition provider_events (text voice directory : str) (o : outcome)
    : list event :=
  match o with
  | CommunicateRaises _ => []
  | MakedirsRaises _ => [Communicate text voice]
  | _ => [Communicate text voice; Makedirs directory]
  end.

(** The events of a failed attempt: what the provider was asked, then
    what the handler prints, and the wait when attempts remain. *)
Definition failed_attempt_events (text voice directory : str)
    (max_retries : Z) (env : Z -> outcome) (attempt : Z) : list event :=
  let e := match raised (env attempt) with Some e => e | None => [] end in
  provider_events text voice directory (env attempt) ++
  if attempt <? max_retries - 1 then
    [Stderr (AttemptError (attempt + 1) max_retries e);
     Stderr (WaitRetry RETRY_DELAY_SECONDS);
     Sleep RETRY_DELAY_SECONDS]
  else
    [Stderr (RetriesExhausted max_retries e); Stderr (Traceback e)].

(** The attempt numbers [first, first + 1, ...], [count] of them. *)
Definition attempts_from (first : Z) (count : nat) : list Z :=
  List.map (fun j => first + Z.of_nat j) (List.seq 0 count).

Definition is_contact (ev : event) : bool :=
  match ev with Communicate _ _ => true | _ => false end.

Definition is_sleep (ev : event) : bool :=
  match ev with Sleep _ => true | _ => false end.

(** The two lines that report a failed attempt. *)
Definition is_attempt_failure (ev : event) : bool :=
  match ev with
  | Stderr (AttemptError _ _ _) | Stderr (RetriesExhausted _ _) => true
  | _ => false
  end.

Definition count (p : event -> bool) (tr : list event) : nat :=
  List.length (List.filter p tr).

(** Whether one of the [todo] attempts from [attempt] on returns. *)
Fixpoint attempts_succeed (env : Z -> outcome) (todo : nat) (attempt : Z)
    : bool :=
  match todo with
  | O => false
  | S todo' =>
      match raised (env attempt) with
      | None => true
      | Some _ => attempts_succeed env todo' (attempt + 1)
      end
  end.

(** The value [process_text_to_mp3] returns. *)
Definition job_succeeds (isspace : char -> bool) (text : str)
    (max_retries : Z) (env : Z -> outcome) : bool :=
  negb (is_blank isspace text)
  && attempts_succeed env (Z.to_nat max_retries) 0.

(** The messages put on the queue, in order. *)
Fixpoint queue_of (tr : list event) : list queue_msg :=
  match tr with
  | [] => []
  | Put m :: tr' => m :: queue_of tr'
  | _ :: tr' => queue_of tr'
  end.

(** The callbacks handed to the interface thread, in order. *)
Fixpoint ui_of (tr : list event) : list ui_action :=
  match tr with
  | [] => []
  | After a :: tr' => a :: ui_of tr'
  | _ :: tr' => ui_of tr'
  end.


(** Whether the tagger gets to save. *)
Definition tag_succeeds (o : tag_outcome) : bool :=
  match o with Saves => true | _ => false end.

(** [os.path.exists(p)] *)
Definition file_exists (w : world) (p : path) : bool :=
  match files w p with Some _ => true | None => false end.

(** [chapter.get('title', ...)] and [chapter.get('content', '')] of the
    batch loop. *)
Definition title_of (ch : chapter) (i : Z) : str :=
  match chapter_title ch with
  | Some t => t
  | None => ZHANGJIE ++ str_of_int i
  end.

Definition content_of (ch : chapter) : str :=
  match chapter_content ch with Some c => c | None => [] end.

(** The messages one iteration of the batch loop puts on the queue: the
    progress and the status, then the skip line for a blank chapter, or
    else the line that names the chapter and the line with its outcome. *)
Definition chapter_messages (isspace : char -> bool) (params : batch_params)
    (env : Z -> Z -> outcome) (tag : Z -> tag_outcome) (i : Z) (ch : chapter)
    : list queue_msg :=
  let total := Z.of_nat (List.length (b_chapters params)) in
  let pct := match progress_pct (i - 1) total with Some p => p | None => 0 end in
  [QProgress pct; QStatus (StatusBatch (i - 1) total)] ++
  if negb (truthy (strip isspace (content_of ch))) then
    [QLog (LogSkipEmpty (title_of ch i))]
  else
    [QLog (LogProcess (title_of ch i));
     QLog (if job_succeeds isspace (content_of ch) MAX_RETRIES (env i) then
             if tag_succeeds (tag i) then LogChapterDone (title_of ch i)
             else LogChapterTagFailed (title_of ch i)
           else LogChapterFailed (title_of ch i))].

Fixpoint batch_messages (isspace : char -> bool) (params : batch_params)
    (env : Z -> Z -> outcome) (tag : Z -> tag_outcome) (i : Z)
    (todo : list chapter) : list queue_msg :=
  match todo with
  | [] => []
  | ch :: rest =>
      chapter_messages isspace params env tag i ch
      ++ batch_messages isspace params env tag (i + 1) rest
  end.


(** The error boxes among the callbacks. *)
Definition is_error_box (a : ui_action) : bool :=
  match a with ShowError _ => true | _ => false end.



(** The exception reading the cover raises, if it does: the cover path
    is not empty, it exists, and opening or reading it fails. *)
Definition cover_raises (cover_path : option path) (opening : open_outcome)
    (w : world) : option exn :=
  match cover_path, opening with
  | Some p, OpenRaises e =>
      match files w p with Some _ => Some e | None => None end
  | _, _ => None
  end.

(** The world before anything ran. *)
Definition initial_world : world := mkworld (fun _ => None) false [].

(** The final world and the result of a run. *)
Definition final {A} (run : world * (exn + A)) : world := fst run.
Definition result {A} (run : world * (exn + A)) : exn + A := snd run.

End Trace.

Import Trace.

(** ** Reading the book: [EpubReader] and [parse_epub_data] *)

Module Epub.

(** What [book.get_metadata('DC', name)] gives: the exception it raises,
    or the values of the entries found, [None] for an entry without text.
    What the reader prints to the console is not part of the model. *)
Abbreviation metadata := (list N + list (option (list N)))%type (only parsing).

(** The four placeholders, U+672A U+77E5 followed by the word for the
    title, the author, the publisher and the date. *)
Definition UNKNOWN_TITLE : str := [26410; 30693; 20070; 21517]%N.
Definition UNKNOWN_AUTHOR : str := [26410; 30693; 20316; 32773]%N.
Definition UNKNOWN_PUBLISHER : str := [26410; 30693; 20986; 29256; 31038]%N.
Definition UNKNOWN_DATE : str := [26410; 30693; 26102; 38388]%N.

(** [metadata[0][0] or default] inside the [try], and [default] where
    there is no entry or the call raises. *)
Definition first_value (default : str) (md : metadata) : str :=
  match md with
  | inl _ => default
  | inr [] => default
  | inr (None :: _) => default
  | inr (Some v :: _) => if truthy v then v else default
  end.

Definition get_title (md : metadata) : str := first_value UNKNOWN_TITLE md.
Definition get_author (md : metadata) : str := first_value UNKNOWN_AUTHOR md.
Definition get_publisher (md : metadata) : str :=
  first_value UNKNOWN_PUBLISHER md.

Definition HYPHEN : char := 45%N.
Definition CR : char := 13%N.
Definition SPACE : char := 32%N.

(** The elements [get_chapters] looks a title up in, in this order. *)
Inductive header := H1 | H2 | H3 | H4 | TITLE.

(** What the HTML parser gives for a document: the text
    [soup.get_text(separator='\n', strip=True)] and, for a header, the text
    [soup.find(header).get_text(strip=True)] of the first such element, if
    there is one. *)
Record soup := mksoup {
  get_text : str;
  find : header -> option str
}.

(** A document of the book: its name and the parsed content, or the
    exception that reading or parsing it raises. *)
Record document := mkdocument {
  get_name : str;
  parsed : list N + soup
}.

(** A book as the library presents it.  [docs] is the list that the first
    part of [get_chapters] builds from the table of contents and the
    remaining documents, each with the title the table of contents gives
    it ([None] without one), or the exception raised while building it. *)
Record book := mkbook {
  opens : bool;                      (* reader.open() *)
  dc_title : metadata;
  dc_creator : metadata;
  dc_publisher : metadata;
  dc_date : metadata;
  cover : option bytes;              (* reader.get_cover_data() *)
  docs : list N + list (option (list N) * document)
}.

(** The dictionary [parse_epub_data] returns. *)
Record epub_data := mkepub {
  d_title : str;
  d_author : str;
  d_publisher : str;
  d_publish_date : str;
  d_cover_data : option bytes;
  d_chapters : list chapter;
  d_total_words : Z
}.

(** [s.replace(c, '')] for a single character [c]. *)
Definition remove_char (c : char) (s : str) : str :=
  List.filter (fun x => negb (char_eqb x c)) s.

(** [len(content.replace('\n', '').replace('\r', '').replace(' ', ''))] *)
Definition count_words (content : str) : Z :=
  len (remove_char SPACE (remove_char CR (remove_char LF content))).

(** The loop [for chapter in chapters: total_words += ...], from
    [total_words]. *)
Fixpoint add_words (chapters : list chapter) (total_words : Z) : Z :=
  match chapters with
  | [] => total_words
  | ch :: rest => add_words rest (total_words + count_words (content_of ch))
  end.

Definition total_words_of (chapters : list chapter) : Z := add_words chapters 0.

Section Reader.

Variable isspace : char -> bool.
Variable decimal : char -> option Z.

(** [\d] *)
Definition is_digit (c : char) : bool :=
  match decimal c with Some _ => true | None => false end.

(** [re.match(r"(\d{4}-\d{2}-\d{2})", s)]: the group, when the pattern
    matches at the start of [s]. *)
Definition match_date (s : str) : option str :=
  match s with
  | y1 :: y2 :: y3 :: y4 :: a :: m1 :: m2 :: b :: d1 :: d2 :: _ =>
      if is_digit y1 && is_digit y2 && is_digit y3 && is_digit y4
         && char_eqb a HYPHEN && is_digit m1 && is_digit m2
         && char_eqb b HYPHEN && is_digit d1 && is_digit d2
      then Some [y1; y2; y3; y4; a; m1; m2; b; d1; d2]
      else None
  | _ => None
  end.

Definition get_publish_date (md : metadata) : str :=
  match md with
  | inl _ => UNKNOWN_DATE
  | inr [] => UNKNOWN_DATE
  | inr (v :: _) =>
      let raw_date :=
        match v with
        | Some s => if truthy s then s else UNKNOWN_DATE
        | None => UNKNOWN_DATE
        end in
      match match_date raw_date with
      | Some d => d
      | None => raw_date
      end
  end.

(** [not chapter_title or chapter_title.strip() == EMPTY], with the
    empty string for [EMPTY]: no title, or a blank one. *)
Definition no_title (chapter_title : option str) : bool :=
  match chapter_title with
  | None => true
  | Some t => negb (truthy t) || str_eqb (strip isspace t) []
  end.

(** The loop over the headers: the text of each header found is taken,
    and the loop is left at the first one that is not blank. *)
Fixpoint header_loop (sp : soup) (headers : list header)
    (chapter_title : option str) : option str :=
  match headers with
  | [] => chapter_title
  | h :: rest =>
      match find sp h with
      | Some t =>
          if truthy t && negb (str_eqb (strip isspace t) []) then Some t
          else header_loop sp rest (Some t)
      | None => header_loop sp rest chapter_title
      end
  end.

(** The loop over the lines: the first line that is not blank,
    stripped. *)
Fixpoint first_line (lines : list str) (chapter_title : option str)
    : option str :=
  match lines with
  | [] => chapter_title
  | l :: rest =>
      if truthy (strip isspace l) then Some (strip isspace l)
      else first_line rest chapter_title
  end.

(** The title of a document that the table of contents gives no title
    (or an empty one, passed on as [title]). *)
Definition title_from_document (title : option str) (name : str) (sp : soup)
    : option str :=
  let chapter_title := header_loop sp [H1; H2; H3; H4; TITLE] title in
  let chapter_title :=
    if no_title chapter_title then
      first_line (split [LF] (get_text sp)) chapter_title
    else chapter_title in
  if no_title chapter_title then Some name else chapter_title.

(** The body of [for title, doc in docs]: the chapter appended, if any.
    A document that raises and a document without text yield nothing. *)
Definition chapter_of (title : option str) (doc : document) : option chapter :=
  match parsed doc with
  | inl _ => None
  | inr sp =>
      let text_content := get_text sp in
      if negb (truthy text_content) || str_eqb (strip isspace text_content) []
      then None
      else
        let chapter_title :=
          match title with
          | Some (c :: t) => Some (c :: t)
          | _ => title_from_document title (get_name doc) sp
          end in
        Some (mkchapter chapter_title (Some text_content))
  end.

Fixpoint chapters_of_docs (docs : list (option str * document))
    : list chapter :=
  match docs with
  | [] => []
  | (title, doc) :: rest =>
      match chapter_of title doc with
      | Some ch => ch :: chapters_of_docs rest
      | None => chapters_of_docs rest
      end
  end.

(** [get_chapters], from the list of documents on; an exception raised
    before gives the empty list. *)
Definition get_chapters (b : book) : list chapter :=
  match docs b with
  | inl _ => []
  | inr ds => chapters_of_docs ds
  end.

Definition parse_epub_data (b : book) : option epub_data :=
  if opens b then
    let title := get_title (dc_title b) in
    let author := get_author (dc_creator b) in
    let publisher := get_publisher (dc_publisher b) in
    let publish_date := get_publish_date (dc_date b) in
    let cover_data := cover b in
    let chapters := get_chapters b in
    let total_words := add_words chapters 0 in
    Some (mkepub title author publisher publish_date cover_data chapters
            total_words)
  else None.

End Reader.

End Epub.

(** ** The estimate of the duration: [calculate_estimated_time] *)

Module Estimate.

(** The float [0.5]. *)
Definition half : float := S754_finite false 4503599627370496 (-53).

(** [int(total_words / 80 + 0.5)], in floating point as the source
    computes it; [None] where Python raises. *)
Definition estimated_seconds (total_words : Z) : option Z :=
  match PyFloat.truediv total_words 80 with
  | Some q => PyFloat.to_int (SFadd prec emax q half)
  | None => None
  end.

(** The two [divmod] and the f-string
    [{hours:02d}:{minutes:02d}:{seconds:02d}]. *)
Definition hms (total_seconds : Z) : str :=
  let hours := total_seconds / 3600 in
  let remainder := total_seconds mod 3600 in
  let minutes := remainder / 60 in
  let seconds := remainder mod 60 in
  format_0d 2 hours ++ lit ":" ++ format_0d 2 minutes ++ lit ":"
    ++ format_0d 2 seconds.

(** [calculate_estimated_time] for the value of [total_words], [None]
    when there is no book; the result is [None] where Python raises. *)
Definition calculate_estimated_time (total_words : option Z) : option str :=
  match total_words with
  | None => Some (lit "00:00:00")
  | Some n =>
      match estimated_seconds n with
      | Some total_seconds => Some (hms total_seconds)
      | None => None
      end
  end.

End Estimate.

(** ** The window: loading a book and editing its chapter list *)

Module Window.

(** What [self.epub_data] holds besides the chapters and the cover. *)
Record book_info := mkinfo {
  info_title : str;
  info_author : str;
  info_publisher : str;
  info_publish_date : str;
  info_total_words : Z
}.

(** The texts [update_status] is called with. *)
Inductive status_text :=
| StatusOf (s : status_line)           (* put on the queue by a conversion *)
| StatusParsing (name : str)
| StatusLoaded (name : str)
| StatusParseFailed (name : str)
| StatusParseError (e : exn)
| StatusSelected (item : str)
| StatusContentUpdated
| StatusDeleted (title : str).

(** The texts of the messages of kind ["error"]. *)
Inductive error_text :=
| CannotParse
| ParseRaised (e : exn).

(** The messages of the queue, by kind. *)
Inductive message :=
| MStatus (t : status_text)
| MError (t : error_text)
| MDisplayEpub
| MProgress (pct : Z)
| MLog (l : log_line)
| MBatchComplete.

(** A message of a conversion thread as a message of the queue. *)
Definition of_queue_msg (m : queue_msg) : message :=
  match m with
  | QLog l => MLog l
  | QStatus s => MStatus (StatusOf s)
  | QProgress pct => MProgress pct
  end.

Inductive box :=
| BoxError (t : error_text)
| BoxSelectChapterFirst
| BoxBatchComplete (output_dir : option str).

Inductive caption :=
| CaptionBookCover          (* the placeholder text *)
| CaptionEmpty
| CaptionCannotShow
| CaptionNoCover.

Record cover_view := mkcover {
  cover_image : option bytes;
  cover_caption : caption
}.

(** What showing the cover and saving it to the temporary directory
    does: all of it succeeds, the image library raises before anything is
    shown, or the image is shown and writing the file raises, leaving
    [remains] at the path of the temporary cover. *)
Inductive cover_outcome :=
| CoverShown
| ImageRaises (e : exn)
| CoverWriteRaises (remains : App.cover_file) (e : exn).

Record view := mkview {
  app : App.state;   (* the state the conversion handlers read *)
  book : option book_info;   (* the rest of self.epub_data *)
  filepath_var : option path;   (* None while the entry is empty *)
  current_chapter_index : Z;
  title_label : str;
  author_label : str;
  publisher_label : str;
  publish_date_label : str;
  total_words_label : str;
  estimated_time_var : str;   (* and estimated_time_var_epub_tab, always set together *)
  cover_label : cover_view;
  chapter_listbox : list str;
  chapter_text : str;   (* what the text box holds *)
  chapter_save_button : bool;
  convert_chapter_button : bool;
  generate_ebook_button_epub_tab : bool;
  tag_entries : bool;   (* artist_entry, album_entry, cover_entry, cover_button *)
  status_label : option status_text;
  progress_var : Z;
  log_text : list (str * log_line);   (* time stamp and message, oldest first *)
  boxes : list box   (* message boxes shown, oldest first *)
}.

Definition set_app (x : App.state) (v : view) : view :=
  mkview x (book v) (filepath_var v) (current_chapter_index v) (title_label v)
    (author_label v) (publisher_label v) (publish_date_label v)
    (total_words_label v) (estimated_time_var v) (cover_label v)
    (chapter_listbox v) (chapter_text v) (chapter_save_button v)
    (convert_chapter_button v) (generate_ebook_button_epub_tab v)
    (tag_entries v) (status_label v) (progress_var v) (log_text v) (boxes v).

Definition set_book (x : option book_info) (v : view) : view :=
  mkview (app v) x (filepath_var v) (current_chapter_index v) (title_label v)
    (author_label v) (publisher_label v) (publish_date_label v)
    (total_words_label v) (estimated_time_var v) (cover_label v)
    (chapter_listbox v) (chapter_text v) (chapter_save_button v)
    (convert_chapter_button v) (generate_ebook_button_epub_tab v)
    (tag_entries v) (status_label v) (progress_var v) (log_text v) (boxes v).

Definition set_filepath (x : option path) (v : view) : view :=
  mkview (app v) (book v) x (current_chapter_index v) (title_label v)
    (author_label v) (publisher_label v) (publish_date_label v)
    (total_words_label v) (estimated_time_var v) (cover_label v)
    (chapter_listbox v) (chapter_text v) (chapter_save_button v)
    (convert_chapter_button v) (generate_ebook_button_epub_tab v)
    (tag_entries v) (status_label v) (progress_var v) (log_text v) (boxes v).

Definition set_index (x : Z) (v : view) : view :=
  mkview (app v) (book v) (filepath_var v) x (title_label v) (author_label v)
    (publisher_label v) (publish_date_label v) (total_words_label v)
    (estimated_time_var v) (cover_label v) (chapter_listbox v)
    (chapter_text v) (chapter_save_button v) (convert_chapter_button v)
    (generate_ebook_button_epub_tab v) (tag_entries v) (status_label v)
    (progress_var v) (log_text v) (boxes v).

Definition set_estimated_time (x : str) (v : view) : view :=
  mkview (app v) (book v) (filepath_var v) (current_chapter_index v)
    (title_label v) (author_label v) (publisher_label v)
    (publish_date_label v) (total_words_label v) x (cover_label v)
    (chapter_listbox v) (chapter_text v) (chapter_save_button v)
    (convert_chapter_button v) (generate_ebook_button_epub_tab v)
    (tag_entries v) (status_label v) (progress_var v) (log_text v) (boxes v).

Definition set_cover_label (x : cover_view) (v : view) : view :=
  mkview (app v) (book v) (filepath_var v) (current_chapter_index v)
    (title_label v) (author_label v) (publisher_label v)
    (publish_date_label v) (total_words_label v) (estimated_time_var v) x
    (chapter_listbox v) (chapter_text v) (chapter_save_button v)
    (convert_chapter_button v) (generate_ebook_button_epub_tab v)
    (tag_entries v) (status_label v) (progress_var v) (log_text v) (boxes v).

Definition set_listbox (x : list str) (v : view) : view :=
  mkview (app v) (book v) (filepath_var v) (current_chapter_index v)
    (title_label v) (author_label v) (publisher_label v)
    (publish_date_label v) (total_words_label v) (estimated_time_var v)
    (cover_label v) x (chapter_text v) (chapter_save_button v)
    (convert_chapter_button v) (generate_ebook_button_epub_tab v)
    (tag_entries v) (status_label v) (progress_var v) (log_text v) (boxes v).

Definition set_chapter_text (x : str) (v : view) : view :=
  mkview (app v) (book v) (filepath_var v) (current_chapter_index v)
    (title_label v) (author_label v) (publisher_label v)
    (publish_date_label v) (total_words_label v) (estimated_time_var v)
    (cover_label v) (chapter_listbox v) x (chapter_save_button v)
    (convert_chapter_button v) (generate_ebook_button_epub_tab v)
    (tag_entries v) (status_label v) (progress_var v) (log_text v) (boxes v).

Definition set_save_button (x : bool) (v : view) : view :=
  mkview (app v) (book v) (filepath_var v) (current_chapter_index v)
    (title_label v) (author_label v) (publisher_label v)
    (publish_date_label v) (total_words_label v) (estimated_time_var v)
    (cover_label v) (chapter_listbox v) (chapter_text v) x
    (convert_chapter_button v) (generate_ebook_button_epub_tab v)
    (tag_entries v) (status_label v) (progress_var v) (log_text v) (boxes v).

Definition set_convert_button (x : bool) (v : view) : view :=
  mkview (app v) (book v) (filepath_var v) (current_chapter_index v)
    (title_label v) (author_label v) (publisher_label v)
    (publish_date_label v) (total_words_label v) (estimated_time_var v)
    (cover_label v) (chapter_listbox v) (chapter_text v)
    (chapter_save_button v) x (generate_ebook_button_epub_tab v)
    (tag_entries v) (status_label v) (progress_var v) (log_text v) (boxes v).

Definition set_generate_button (x : bool) (v : view) : view :=
  mkview (app v) (book v) (filepath_var v) (current_chapter_index v)
    (title_label v) (author_label v) (publisher_label v)
    (publish_date_label v) (total_words_label v) (estimated_time_var v)
    (cover_label v) (chapter_listbox v) (chapter_text v)
    (chapter_save_button v) (convert_chapter_button v) x (tag_entries v)
    (status_label v) (progress_var v) (log_text v) (boxes v).

Definition set_tag_entries (x : bool) (v : view) : view :=
  mkview (app v) (book v) (filepath_var v) (current_chapter_index v)
    (title_label v) (author_label v) (publisher_label v)
    (publish_date_label v) (total_words_label v) (estimated_time_var v)
    (cover_label v) (chapter_listbox v) (chapter_text v)
    (chapter_save_button v) (convert_chapter_button v)
    (generate_ebook_button_epub_tab v) x (status_label v) (progress_var v)
    (log_text v) (boxes v).

Definition set_status (x : option status_text) (v : view) : view :=
  mkview (app v) (book v) (filepath_var v) (current_chapter_index v)
    (title_label v) (author_label v) (publisher_label v)
    (publish_date_label v) (total_words_label v) (estimated_time_var v)
    (cover_label v) (chapter_listbox v) (chapter_text v)
    (chapter_save_button v) (convert_chapter_button v)
    (generate_ebook_button_epub_tab v) (tag_entries v) x (progress_var v)
    (log_text v) (boxes v).

Definition set_progress (x : Z) (v : view) : view :=
  mkview (app v) (book v) (filepath_var v) (current_chapter_index v)
    (title_label v) (author_label v) (publisher_label v)
    (publish_date_label v) (total_words_label v) (estimated_time_var v)
    (cover_label v) (chapter_listbox v) (chapter_text v)
    (chapter_save_button v) (convert_chapter_button v)
    (generate_ebook_button_epub_tab v) (tag_entries v) (status_label v) x
    (log_text v) (boxes v).

Definition set_log (x : list (str * log_line)) (v : view) : view :=
  mkview (app v) (book v) (filepath_var v) (current_chapter_index v)
    (title_label v) (author_label v) (publisher_label v)
    (publish_date_label v) (total_words_label v) (estimated_time_var v)
    (cover_label v) (chapter_listbox v) (chapter_text v)
    (chapter_save_button v) (convert_chapter_button v)
    (generate_ebook_button_epub_tab v) (tag_entries v) (status_label v)
    (progress_var v) x (boxes v).

Definition set_boxes (x : list box) (v : view) : view :=
  mkview (app v) (book v) (filepath_var v) (current_chapter_index v)
    (title_label v) (author_label v) (publisher_label v)
    (publish_date_label v) (total_words_label v) (estimated_time_var v)
    (cover_label v) (chapter_listbox v) (chapter_text v)
    (chapter_save_button v) (convert_chapter_button v)
    (generate_ebook_button_epub_tab v) (tag_entries v) (status_label v)
    (progress_var v) (log_text v) x.

Definition set_total_words_label (x : str) (v : view) : view :=
  mkview (app v) (book v) (filepath_var v) (current_chapter_index v)
    (title_label v) (author_label v) (publisher_label v)
    (publish_date_label v) x (estimated_time_var v) (cover_label v)
    (chapter_listbox v) (chapter_text v) (chapter_save_button v)
    (convert_chapter_button v) (generate_ebook_button_epub_tab v)
    (tag_entries v) (status_label v) (progress_var v) (log_text v) (boxes v).

Definition set_book_labels (t a p d : str) (v : view) : view :=
  mkview (app v) (book v) (filepath_var v) (current_chapter_index v) t a p d
    (total_words_label v) (estimated_time_var v) (cover_label v)
    (chapter_listbox v) (chapter_text v) (chapter_save_button v)
    (convert_chapter_button v) (generate_ebook_button_epub_tab v)
    (tag_entries v) (status_label v) (progress_var v) (log_text v) (boxes v).

(** [self.epub_data = d] *)
Definition set_epub_data (d : option Epub.epub_data) (v : view) : view :=
  let s := app v in
  set_book
    (match d with
     | Some d =>
         Some (mkinfo (Epub.d_title d) (Epub.d_author d) (Epub.d_publisher d)
                 (Epub.d_publish_date d) (Epub.d_total_words d))
     | None => None
     end)
    (set_app
       (App.mkstate (App.busy s)
          (match d with Some d => Some (Epub.d_chapters d) | None => None end)
          (match d with Some d => Epub.d_cover_data d | None => None end)
          (App.output_dir_var s) (App.voice_var s) (App.chars_per_line_var s)
          (App.artist_var s) (App.album_var s) (App.cover_path_var s)
          (App.cover_on_disk s) (App.threads s) (App.shown s) (App.queued s))
       v).

(** [self.epub_data['chapters'] = chapters] *)
Definition set_chapters (chapters : list chapter) (s : App.state) : App.state :=
  App.mkstate (App.busy s) (Some chapters) (App.epub_cover s)
    (App.output_dir_var s) (App.voice_var s) (App.chars_per_line_var s)
    (App.artist_var s) (App.album_var s) (App.cover_path_var s)
    (App.cover_on_disk s) (App.threads s) (App.shown s) (App.queued s).

(** [self.album_var.set(album)] and [self.artist_var.set(artist)] *)
Definition set_album_artist (album artist : str) (s : App.state) : App.state :=
  App.mkstate (App.busy s) (App.epub_chapters s) (App.epub_cover s)
    (App.output_dir_var s) (App.voice_var s) (App.chars_per_line_var s)
    artist album (App.cover_path_var s) (App.cover_on_disk s) (App.threads s)
    (App.shown s) (App.queued s).

(** The file at the cover path and the entry that names it. *)
Definition set_cover_file (p : option path) (f : App.cover_file) (s : App.state)
    : App.state :=
  App.mkstate (App.busy s) (App.epub_chapters s) (App.epub_cover s)
    (App.output_dir_var s) (App.voice_var s) (App.chars_per_line_var s)
    (App.artist_var s) (App.album_var s) p f (App.threads s) (App.shown s)
    (App.queued s).

(** [del l[k]] and [listbox.delete(k)] for an index in range. *)
Fixpoint remove_at {A} (k : nat) (l : list A) : list A :=
  match l, k with
  | [], _ => []
  | _ :: l', O => l'
  | x :: l', S k' => x :: remove_at k' l'
  end.

(** [chapters[k]['content'] = content] *)
Fixpoint set_content (k : nat) (content : str) (chapters : list chapter)
    : list chapter :=
  match chapters, k with
  | [], _ => []
  | ch :: rest, O => mkchapter (chapter_title ch) (Some content) :: rest
  | ch :: rest, S k' => ch :: set_content k' content rest
  end.

(** The three characters of the fallback name of a book, U+6709 U+58F0
    U+4E66, and the prefix of the directory made for it. *)
Definition YOUSHENGSHU : str := [26377; 22768; 20070]%N.
Definition DIRECTORY_PREFIX : str := [26377; 22768; 20070; 30446; 24405; 95]%N.

(** The label of the estimate, U+9884 U+8BA1 U+8017 U+65F6 U+FF1A. *)
Definition ESTIMATE_LABEL : str := [39044; 35745; 32791; 26102; 65306]%N.

(** [chapter.get('title', f"... {i+1}")] of the chapter list, for the
    0-based [i]. *)
Definition listed_title (i : Z) (ch : chapter) : str :=
  match chapter_title ch with
  | Some t => t
  | None => ZHANGJIE ++ lit " " ++ str_of_int (i + 1)
  end.

(** The items inserted into the chapter list, from index [i] on. *)
Fixpoint listbox_items (i : Z) (chapters : list chapter) : list str :=
  match chapters with
  | [] => []
  | ch :: rest => (lit " " ++ listed_title i ch) :: listbox_items (i + 1) rest
  end.

Definition key_error : exn := lit "'title'".

Section Handlers.

(** Interpreter and platform: the whitespace table, [os.path.join] on a
    directory and a name, the temporary directory of the application, and
    the clock, as the time stamp of the log line written when the log
    already holds [k] lines. *)
Variable isspace : char -> bool.
Variable os_path_join : str -> str -> str.
Variable TEMP_DIR : str.
Variable now : nat -> str.

Definition update_status (t : status_text) (v : view) : view :=
  set_status (Some t) v.

Definition append_log (l : log_line) (v : view) : view :=
  set_log (log_text v ++ [(now (List.length (log_text v)), l)]) v.

Definition total_words_of_view (v : view) : option Z :=
  match book v with
  | Some b => Some (info_total_words b)
  | None => None
  end.

Definition calculate_estimated_time (v : view) : option str :=
  Estimate.calculate_estimated_time (total_words_of_view v).

Definition clear_display (v : view) : view :=
  let v := set_book_labels [] [] [] [] v in
  let v := set_total_words_label [] v in
  let v := set_estimated_time (ESTIMATE_LABEL ++ lit "00:00:00") v in
  let v := set_cover_label (mkcover None CaptionBookCover) v in
  let v := set_listbox [] v in
  let v := set_chapter_text [] v in
  let v := set_index (-1) v in
  let v := set_save_button false v in
  let v := set_convert_button false v in
  let v := set_generate_button false v in
  set_tag_entries false v.

(** [select_epub_file] for the file the user picks ([None] when the
    dialog is closed); the thread it starts is [_parse_epub_in_thread]. *)
Definition select_epub_file (file_path : option path) (v : view) : view :=
  match file_path with
  | None => v
  | Some p =>
      let v := update_status (StatusParsing (basename p)) v in
      let v := set_filepath (Some p) v in
      clear_display v
  end.

(** [_parse_epub_in_thread], for what [parse_epub_data] returns or
    raises: the view after it and the messages it puts on the queue. *)
Definition _parse_epub_in_thread (file_path : path)
    (r : exn + option Epub.epub_data) (v : view) : view * list message :=
  match r with
  | inr (Some d) =>
      (set_epub_data (Some d) v,
       [MDisplayEpub; MStatus (StatusLoaded (basename file_path))])
  | inr None =>
      (set_epub_data None v,
       [MStatus (StatusParseFailed (basename file_path)); MError CannotParse])
  | inl e => (v, [MStatus (StatusParseError e); MError (ParseRaised e)])
  end.

(** [on_chapter_select], for the first index of the selection of the
    chapter list ([None] when nothing is selected). *)
Definition on_chapter_select (selection : option nat) (v : view) : view :=
  match selection with
  | None => v
  | Some index =>
      match book v, App.epub_chapters (app v) with
      | Some _, Some chapters =>
          if negb (Z.of_nat index =? current_chapter_index v)
             && (Z.of_nat (List.length chapters) >? Z.of_nat index)
          then
            let chapter := List.nth index chapters (mkchapter None None) in
            let v := set_index (Z.of_nat index) v in
            let v := set_chapter_text (content_of chapter) v in
            let v := set_save_button true v in
            let v := set_convert_button true v in
            update_status
              (StatusSelected (List.nth index (chapter_listbox v) [])) v
          else v
      | _, _ => v
      end
  end.

(** [save_chapter_content]: the text box gives its text followed by a
    line feed. *)
Definition save_chapter_content (v : view) : view :=
  match book v, App.epub_chapters (app v) with
  | Some _, Some chapters =>
      if current_chapter_index v <? 0 then v
      else
        let edited_content := strip isspace (chapter_text v ++ [LF]) in
        if (0 <=? current_chapter_index v)
           && (current_chapter_index v <? Z.of_nat (List.length chapters))
        then
          let chapters :=
            set_content (Z.to_nat (current_chapter_index v)) edited_content
              chapters in
          update_status StatusContentUpdated
            (set_app (set_chapters chapters (app v)) v)
        else v
  | _, _ => v
  end.

(** [delete_chapter(index)], for the answer to the confirmation; with the
    view it leaves comes the exception, if one ends the handler early. *)
Definition delete_chapter (index : Z) (confirmed : bool) (v : view)
    : view * option exn :=
  match book v, App.epub_chapters (app v) with
  | Some b, Some chapters =>
      if (index <? 0) || (index >=? Z.of_nat (List.length chapters)) then
        (v, None)
      else
        match chapter_title
                (List.nth (Z.to_nat index) chapters (mkchapter None None)) with
        | None => (v, Some key_error)
        | Some title =>
            if negb confirmed then (v, None)
            else
              let chapters := remove_at (Z.to_nat index) chapters in
              let v := set_app (set_chapters chapters (app v)) v in
              let total_words := Epub.add_words chapters 0 in
              let v :=
                set_book
                  (Some (mkinfo (info_title b) (info_author b)
                           (info_publisher b) (info_publish_date b)
                           total_words)) v in
              let v := set_total_words_label (str_of_int total_words) v in
              match calculate_estimated_time v with
              | None => (v, Some float_error)
              | Some estimated_time =>
                  let v :=
                    set_estimated_time (ESTIMATE_LABEL ++ estimated_time) v in
                  let v :=
                    set_listbox (remove_at (Z.to_nat index) (chapter_listbox v))
                      v in
                  let v :=
                    if current_chapter_index v =? index then
                      let v := set_index (-1) v in
                      let v := set_chapter_text [] v in
                      let v := set_save_button false v in
                      set_convert_button false v
                    else if current_chapter_index v >? index then
                      set_index (current_chapter_index v - 1) v
                    else v in
                  (update_status (StatusDeleted title) v, None)
              end
        end
  | _, _ => (v, None)
  end.

(** [convert_current_chapter] *)
Definition convert_current_chapter (a : App.answers) (v : view) : view :=
  match book v, App.epub_chapters (app v) with
  | Some _, Some _ =>
      if current_chapter_index v <? 0 then
        set_boxes (boxes v ++ [BoxSelectChapterFirst]) v
      else
        set_app
          (App.convert_chapter_to_mp3 isspace (current_chapter_index v) a
             (app v)) v
  | _, _ => set_boxes (boxes v ++ [BoxSelectChapterFirst]) v
  end.

(** The name of the directory made for the book. *)
Definition safe_book_title (title : str) : str :=
  let book_title := if truthy title then title else YOUSHENGSHU in
  let safe_book_title := strip_illegal book_title in
  if negb (truthy (strip isspace safe_book_title)) then YOUSHENGSHU
  else safe_book_title.

Definition target_dir (epub_path : path) (title : str) : str :=
  os_path_join (dirname epub_path) (DIRECTORY_PREFIX ++ safe_book_title title).

(** The part of [display_epub_data] that shows the cover. *)
Definition display_cover (o : cover_outcome) (v : view) : view :=
  match App.epub_cover (app v) with
  | Some (b :: data) =>
      let cover_path := mkpath TEMP_DIR (lit "cover.jpg") in
      match o with
      | CoverShown =>
          let v := set_cover_label (mkcover (Some (b :: data)) CaptionEmpty) v in
          set_app
            (set_cover_file (Some cover_path) (App.CoverBytes (b :: data))
               (app v)) v
      | ImageRaises _ =>
          set_cover_label
            (mkcover (cover_image (cover_label v)) CaptionCannotShow) v
      | CoverWriteRaises remains _ =>
          let v :=
            set_cover_label (mkcover (Some (b :: data)) CaptionCannotShow) v in
          match App.cover_path_var (app v) with
          | Some p =>
              if path_eqb p cover_path then
                set_app (set_cover_file (Some p) remains (app v)) v
              else v
          | None => v
          end
      end
  | _ =>
      set_cover_label (mkcover (cover_image (cover_label v)) CaptionNoCover) v
  end.

(** [display_epub_data]; with the view it leaves comes the exception, if
    one ends it early. *)
Definition display_epub_data (o : cover_outcome) (v : view)
    : view * option exn :=
  match book v with
  | None => (v, None)
  | Some b =>
      let v :=
        set_book_labels (info_title b) (info_author b) (info_publisher b)
          (info_publish_date b) v in
      let v := set_total_words_label (str_of_int (info_total_words b)) v in
      let v :=
        set_app (set_album_artist (info_title b) (info_author b) (app v)) v in
      let v := set_tag_entries true v in
      let v := display_cover o v in
      let v := set_listbox [] v in
      let v :=
        match App.epub_chapters (app v) with
        | Some (ch :: rest) =>
            let v := set_listbox (listbox_items 0 (ch :: rest)) v in
            let v := set_generate_button true v in
            on_chapter_select (Some 0%nat) v
        | _ => v
        end in
      let v :=
        match filepath_var v with
        | Some epub_path =>
            set_app
              (App.set_output_dir (target_dir epub_path (info_title b)) (app v))
              v
        | None => v
        end in
      match calculate_estimated_time v with
      | Some estimated_time =>
          (set_estimated_time (ESTIMATE_LABEL ++ estimated_time) v, None)
      | None => (v, Some float_error)
      end
  end.

Definition on_batch_complete (v : view) : view :=
  set_boxes (boxes v ++ [BoxBatchComplete (App.output_dir_var (app v))]) v.

(** One turn of the loop of [process_messages]. *)
Definition process_message (o : cover_outcome) (m : message) (v : view)
    : view * option exn :=
  match m with
  | MStatus t => (update_status t v, None)
  | MError t => (set_boxes (boxes v ++ [BoxError t]) v, None)
  | MDisplayEpub => display_epub_data o v
  | MProgress pct => (set_progress pct v, None)
  | MLog l => (append_log l v, None)
  | MBatchComplete => (on_batch_complete v, None)
  end.

(** [process_messages] on the messages the queue holds: they are taken
    in order until the queue is empty or a handler raises, which leaves
    the rest on the queue for the next turn of the timer.  [o k] is what
    showing the cover does while the message at position [k] is handled. *)
Fixpoint process_messages (o : nat -> cover_outcome) (k : nat)
    (queue : list message) (v : view) : view * list message :=
  match queue with
  | [] => (v, [])
  | m :: rest =>
      match process_message (o k) m v with
      | (v', None) => process_messages o (S k) rest v'
      | (v', Some _) => (v', rest)
      end
  end.

End Handlers.

(** The window before a book is chosen, around the state [s] of the
    conversion handlers. *)
Definition initial_view (s : App.state) : view :=
  mkview s None None (-1) [] [] [] [] [] (ESTIMATE_LABEL ++ lit "00:00:00")
    (mkcover None CaptionBookCover) [] [] false false false false None 0 [] [].

(** The window shows a book whose chapters all carry a title: the list
    box holds the titles of the chapters, in order, and the current index
    is [-1] or the index of a chapter. *)
Definition well_formed (v : view) : Prop :=
  exists b chapters,
    book v = Some b /\
    App.epub_chapters (app v) = Some chapters /\
    Forall (fun ch => chapter_title ch <> None) chapters /\
    chapter_listbox v = listbox_items 0 chapters /\
    (current_chapter_index v = -1 \/
     0 <= current_chapter_index v < Z.of_nat (List.length chapters)).

End Window.

(** ** A session of batch requests *)

Module Session.

(** What can happen while only batches are used: the generate button is
    pressed and the questions are answered by [a], or the batch that runs
    comes to its end. *)
Inductive batch_event :=
| Request (a : App.answers)
| BatchEnds.

Definition batch_step (s : App.state) (ev : batch_event) : App.state :=
  match ev with
  | Request a => App.start_generate_ebook a s
  | BatchEnds =>
      match App.threads s with
      | [] => s
      | _ :: _ => App.thread_ends 0 s
      end
  end.

Definition batch_session (evs : list batch_event) (s : App.state) : App.state :=
  List.fold_left batch_step evs s.

Definition is_batch (w : App.worker) : bool :=
  match w with
  | App.BatchWorker params =>
      match b_chapters params with [] => false | _ :: _ => true end
  | App.SingleChapterWorker _ => false
  end.

End Session.

(** ** Reading a subtitle *)

(** The time stamp [HH:MM:SS,mmm] of a cue, as a subtitle writer
    prints it. *)
Definition srt_stamp (h m s ms : Z) : str :=
  format_0d 2 h ++ [COLON] ++ format_0d 2 m ++ [COLON] ++ format_0d 2 s
    ++ [COMMA] ++ format_0d 3 ms.

(** ** Sample values *)

(** A small book and a window that shows it, for the examples. *)
Module Samples.

Definition chapters : list chapter :=
  [mkchapter (Some (lit "one")) (Some (lit "old text"));
   mkchapter (Some (lit "two")) (Some (lit "other"));
   mkchapter (Some (lit "three")) (Some (lit "the end"))].

Definition state : App.state :=
  App.mkstate false (Some chapters) None (Some (lit "out")) (lit "voice") 15
    (lit "artist") (lit "album") None App.NoCoverFile [] [] [].

(** The second chapter is the current one. *)
Definition view : Window.view :=
  Window.set_chapter_text (lit "other")
    (Window.set_listbox (Window.listbox_items 0 chapters)
       (Window.set_index 1
          (Window.set_book (Some (Window.mkinfo (lit "book") [] [] [] 18))
             (Window.initial_view state)))).

Definition soup : Epub.soup :=
  Epub.mksoup (lit "Intro" ++ [LF] ++ lit "Once upon a time") (fun _ => None).

Definition book : Epub.book :=
  Epub.mkbook true (inr [Some (lit "Tales")]) (inr [Some (lit "Anon")])
    (inr []) (inr [Some (lit "2001-02-03T00:00:00")]) None
    (inr [(None, Epub.mkdocument (lit "ch1.xhtml") (inr soup))]).

Definition epub : Epub.epub_data :=
  Epub.mkepub (lit "Tales") (lit "Anon") Epub.UNKNOWN_PUBLISHER
    (lit "2001-02-03") None
    [mkchapter (Some (lit "Intro")) (Some (Epub.get_text soup))] 18.

Definition unreadable : Epub.book :=
  Epub.mkbook false (inr []) (inr []) (inr []) (inr []) None (inr []).

Definition file : path := mkpath (lit "books") (lit "tales.epub").

Definition join (d n : str) : str := d ++ lit "/" ++ n.

Definition clock (n : nat) : str := lit "12:00:00".

Definition single : single_params :=
  mksingle (lit "title") (lit "text") (mkpath (lit "out") (lit "title.mp3"))
    (mkpath (lit "out") (lit "title.lrc")) (lit "voice") 15 (lit "artist")
    (lit "album") None.

Definition batch : batch_params :=
  mkbatch (lit "out")
    [mkchapter (Some (lit "a")) (Some (lit "text"));
     mkchapter (Some (lit "b")) (Some (lit "  "));
     mkchapter (Some (lit "c")) (Some (lit "more"))]
    (lit "voice") 15 (lit "artist") (lit "album") None.

(** The first attempt is reset, the second one streams. *)
Definition second_try (j : Z) : outcome :=
  if j <? 1 then StreamRaises [9%N] (lit "reset") else Streamed [1%N; 2%N] [].

Definition offline (j : Z) : outcome := CommunicateRaises (lit "offline").





(** In the batch, the first chapter finds the service offline. *)
Definition batch_env (i j : Z) : outcome :=
  if i =? 1 then CommunicateRaises (lit "offline") else Streamed [3%N] [].

End Samples.


(** * Properties *)

(** ** Strings *)

Lemma lstrip_all_space (isspace : char -> bool) (s : str) :
  forallb isspace s = true -> lstrip isspace s = [].
Proof.
  induction s as [|c s IH]; simpl; intros H; [reflexivity|].
  apply andb_true_iff in H as [Hc Hs]. rewrite Hc. auto.
Qed.

Lemma lstrip_nil_inv (isspace : char -> bool) (s : str) :
  lstrip isspace s = [] -> forallb isspace s = true.
Proof.
  induction s as [|c s IH]; simpl; intros H; [reflexivity|].
  destruct (isspace c); [auto | discriminate].
Qed.

Lemma lstrip_suffix (isspace : char -> bool) (s : str) :
  exists p, s = p ++ lstrip isspace s /\ forallb isspace p = true.
Proof.
  induction s as [|c s [p [Hp Hall]]]; simpl.
  - exists []. auto.
  - destruct (isspace c) eqn:Hc.
    + exists (c :: p). simpl. rewrite Hc, Hall. split; [congruence | reflexivity].
    + exists []. auto.
Qed.

(** A string strips to the empty string exactly when all its characters
    are whitespace. *)
Lemma strip_nil_iff (isspace : char -> bool) (s : str) :
  strip isspace s = [] <-> forallb isspace s = true.
Proof.
  unfold strip, rstrip. split; intros H.
  - destruct (lstrip_suffix isspace s) as [p [Hp Hall]].
    assert (Hr : lstrip isspace (rev (lstrip isspace s)) = []).
    { apply (f_equal (@rev char)) in H. rewrite rev_involutive in H. exact H. }
    apply lstrip_nil_inv in Hr. rewrite forallb_forall in Hr.
    rewrite Hp, forallb_app, Hall. simpl. apply forallb_forall.
    intros x Hx. apply Hr. apply -> in_rev. exact Hx.
  - rewrite (lstrip_all_space isspace s H). reflexivity.
Qed.

Lemma is_blank_iff (isspace : char -> bool) (s : str) :
  is_blank isspace s = true <-> forallb isspace s = true.
Proof.
  unfold is_blank. rewrite <- strip_nil_iff. split.
  - intros H. apply orb_true_iff in H as [H|H].
    + destruct s; [reflexivity | discriminate].
    + destruct (strip isspace s); [reflexivity | discriminate].
  - intros H. rewrite H. simpl. apply orb_true_r.
Qed.

(** ** Decimal digits *)

Lemma ddf_app (fuel : nat) : forall n acc,
  decimal_digits_fuel fuel n acc = decimal_digits_fuel fuel n [] ++ acc.
Proof.
  induction fuel as [|f IH]; intros n acc; simpl; [reflexivity|].
  destruct (n <? 10); [reflexivity|].
  rewrite (IH _ (_ :: acc)), (IH _ [_]), <- app_assoc. reflexivity.
Qed.

Lemma half_bound (n : Z) (f : nat) :
  0 <= n < 2 ^ Z.of_nat (S f) -> 0 <= n / 10 < 2 ^ Z.of_nat f.
Proof.
  intros [H0 H]. rewrite Nat2Z.inj_succ, Z.pow_succ_r in H by lia.
  split; [apply Z.div_pos; lia|].
  apply Z.div_lt_upper_bound; lia.
Qed.

Lemma ddf_fuel_indep (f1 : nat) : forall f2 n acc,
  0 <= n < 2 ^ Z.of_nat (S f1) -> n < 2 ^ Z.of_nat (S f2) ->
  decimal_digits_fuel (S f1) n acc = decimal_digits_fuel (S f2) n acc.
Proof.
  induction f1 as [|f1 IH]; intros f2 n acc H1 H2.
  - change (2 ^ Z.of_nat 1) with 2 in H1.
    simpl. destruct (Z.ltb_spec n 10); [reflexivity | lia].
  - cbn [decimal_digits_fuel]. destruct (Z.ltb_spec n 10); [reflexivity|].
    destruct f2 as [|f2]; [change (2 ^ Z.of_nat 1) with 2 in H2; lia|].
    apply IH; [apply half_bound; exact H1|].
    apply half_bound. lia.
Qed.

Lemma log2_fuel (n : Z) : 0 <= n -> n < 2 ^ Z.of_nat (S (Z.to_nat (Z.log2 n))).
Proof.
  intros H. rewrite Nat2Z.inj_succ, Z2Nat.id by apply Z.log2_nonneg.
  destruct (Z.eq_dec n 0) as [->|Hn]; [reflexivity|].
  apply Z.log2_spec. lia.
Qed.

(** The defining equation of the decimal digits, free of fuel. *)
Lemma decimal_digits_eq (n : Z) :
  0 <= n ->
  decimal_digits n =
    if n <? 10 then [digit_char n]
    else decimal_digits (n / 10) ++ [digit_char (n mod 10)].
Proof.
  intros H. unfold decimal_digits at 1. simpl.
  destruct (n <? 10) eqn:E.
  - apply Z.ltb_lt in E. rewrite Z.mod_small by lia. reflexivity.
  - apply Z.ltb_ge in E. rewrite ddf_app. f_equal.
    unfold decimal_digits.
    pose proof (log2_fuel n H) as Hf.
    destruct (Z.to_nat (Z.log2 n)) as [|k].
    + change (2 ^ Z.of_nat 1) with 2 in Hf. lia.
    + apply ddf_fuel_indep.
      * apply half_bound. split; [exact H | exact Hf].
      * apply log2_fuel. apply Z.div_pos; lia.
Qed.

Lemma decimal_digits_small (n : Z) :
  0 <= n < 10 -> decimal_digits n = [digit_char n].
Proof.
  intros H. rewrite decimal_digits_eq by lia.
  destruct (Z.ltb_spec n 10); [reflexivity | lia].
Qed.

Lemma decimal_digits_two (n : Z) :
  10 <= n < 100 ->
  decimal_digits n = [digit_char (n / 10); digit_char (n mod 10)].
Proof.
  intros H. rewrite decimal_digits_eq by lia.
  destruct (Z.ltb_spec n 10); [lia|].
  rewrite decimal_digits_small; [reflexivity|].
  split; [apply Z.div_pos; lia | apply Z.div_lt_upper_bound; lia].
Qed.

Lemma decimal_digits_length_pos (n : Z) :
  0 <= n -> (1 <= List.length (decimal_digits n))%nat.
Proof.
  intros H. rewrite decimal_digits_eq by lia.
  destruct (n <? 10); [simpl; lia|]. rewrite length_app. simpl. lia.
Qed.

(** A number has at most [k] digits exactly when it is below [10^k]. *)
Lemma decimal_digits_length (k : nat) : forall n,
  0 <= n ->
  ((List.length (decimal_digits n) <= S k)%nat <-> n < 10 ^ Z.of_nat (S k)).
Proof.
  induction k as [|k IH]; intros n H; rewrite decimal_digits_eq by lia;
    destruct (Z.ltb_spec n 10) as [Hlt|Hge].
  - simpl. change (10 ^ 1) with 10. split; intros; lia.
  - rewrite length_app. simpl. change (10 ^ 1) with 10.
    pose proof (decimal_digits_length_pos (n / 10)) as Hp.
    assert (0 <= n / 10) by (apply Z.div_pos; lia).
    split; intros; lia.
  - simpl List.length. split; intros; [|lia].
    assert (10 ^ 1 <= 10 ^ Z.of_nat (S (S k))) by (apply Z.pow_le_mono_r; lia).
    change (10 ^ 1) with 10 in *. lia.
  - rewrite length_app. simpl List.length.
    assert (H0 : 0 <= n / 10) by (apply Z.div_pos; lia).
    specialize (IH (n / 10) H0).
    rewrite (Nat2Z.inj_succ (S k)), Z.pow_succ_r by lia.
    split; intros Hx.
    + assert (n / 10 < 10 ^ Z.of_nat (S k)) by (apply IH; lia).
      pose proof (Z.div_mod n 10 ltac:(lia)). pose proof (Z.mod_pos_bound n 10). lia.
    + assert ((List.length (decimal_digits (n / 10)) <= S k)%nat).
      { apply IH. apply Z.div_lt_upper_bound; lia. }
      lia.
Qed.

Lemma digit_char_ascii (d : Z) : 0 <= d < 10 -> is_ascii_digit (digit_char d) = true.
Proof.
  intros H. unfold is_ascii_digit, digit_char.
  apply andb_true_iff. split; apply N.leb_le; lia.
Qed.

Lemma decimal_digits_ascii (n : Z) :
  0 <= n -> forallb is_ascii_digit (decimal_digits n) = true.
Proof.
  intros H. pattern n. apply Zlt_0_ind; [|exact H].
  clear n H. intros n IH H.
  rewrite decimal_digits_eq by lia.
  destruct (Z.ltb_spec n 10).
  - simpl. rewrite digit_char_ascii by lia. reflexivity.
  - rewrite forallb_app. simpl.
    rewrite digit_char_ascii by (apply Z.mod_pos_bound; lia).
    rewrite IH; [reflexivity|].
    split; [apply Z.div_pos; lia | apply Z.div_lt_upper_bound; lia].
Qed.

Lemma int_of_digits_acc_app dv (s t : str) : forall acc,
  int_of_digits_acc dv (s ++ t) acc =
    match int_of_digits_acc dv s acc with
    | Some v => int_of_digits_acc dv t v
    | None => None
    end.
Proof.
  induction s as [|c s IH]; intros acc; simpl; [reflexivity|].
  destruct (dv c); [apply IH | reflexivity].
Qed.

Lemma ascii_digit_value_char (d : Z) :
  0 <= d < 10 -> ascii_digit_value (digit_char d) = Some d.
Proof.
  intros H. unfold ascii_digit_value, digit_char.
  replace ((48 <=? 48 + Z.to_N d)%N) with true by (symmetry; apply N.leb_le; lia).
  replace ((48 + Z.to_N d <=? 57)%N) with true by (symmetry; apply N.leb_le; lia).
  cbn [andb]. f_equal. lia.
Qed.

(** Reading the digits back gives the number. *)
Lemma decimal_digits_value (n : Z) :
  0 <= n -> int_of_digits_acc ascii_digit_value (decimal_digits n) 0 = Some n.
Proof.
  intros H. pattern n. apply Zlt_0_ind; [|exact H].
  clear n H. intros n IH H.
  rewrite decimal_digits_eq by lia.
  destruct (Z.ltb_spec n 10).
  - cbn [int_of_digits_acc]. rewrite ascii_digit_value_char by lia.
    f_equal; lia.
  - rewrite int_of_digits_acc_app, IH.
    + cbn [int_of_digits_acc]. rewrite ascii_digit_value_char by (apply Z.mod_pos_bound; lia).
      f_equal. pose proof (Z.div_mod n 10 ltac:(lia)). lia.
    + split; [apply Z.div_pos; lia | apply Z.div_lt_upper_bound; lia].
Qed.

(** ** The stable sort by time *)

Lemma insert_by_time_perm (x : item) (l : list item) :
  Permutation (x :: l) (insert_by_time x l).
Proof.
  induction l as [|y l IH]; simpl; [apply Permutation_refl|].
  destruct (fst x <=? fst y); [apply Permutation_refl|].
  eapply perm_trans; [apply perm_swap | apply perm_skip, IH].
Qed.

Lemma sort_by_time_perm (l : list item) : Permutation l (sort_by_time l).
Proof.
  induction l as [|x l IH]; simpl; [constructor|].
  eapply perm_trans; [apply perm_skip, IH | apply insert_by_time_perm].
Qed.

Lemma insert_by_time_sorted (x : item) (l : list item) :
  StronglySorted Z.le (map fst l) ->
  StronglySorted Z.le (map fst (insert_by_time x l)).
Proof.
  induction l as [|y l IH]; simpl; intros H.
  - repeat constructor.
  - inversion H as [|a m Hs Hall]; subst.
    destruct (Z.leb_spec (fst x) (fst y)) as [Hle|Hgt]; simpl.
    + constructor; [exact H|]. constructor; [exact Hle|].
      eapply Forall_impl; [|exact Hall]. intros; lia.
    + constructor; [apply IH, Hs|].
      assert (Hp : Permutation (map fst (x :: l)) (map fst (insert_by_time x l)))
        by apply Permutation_map, insert_by_time_perm.
      eapply Permutation_Forall; [exact Hp|].
      simpl. constructor; [lia | exact Hall].
Qed.

Lemma sort_by_time_sorted (l : list item) :
  StronglySorted Z.le (map fst (sort_by_time l)).
Proof.
  induction l as [|x l IH]; simpl; [constructor|].
  apply insert_by_time_sorted, IH.
Qed.

Lemma insert_by_time_filter (t : Z) (x : item) (l : list item) :
  StronglySorted Z.le (map fst l) ->
  filter (fun f => fst f =? t) (insert_by_time x l) =
  filter (fun f => fst f =? t) (x :: l).
Proof.
  induction l as [|y l IH]; intros H; [reflexivity|].
  inversion H as [|a m Hs Hall]; subst.
  cbn [insert_by_time].
  destruct (Z.leb_spec (fst x) (fst y)) as [Hle|Hgt]; [reflexivity|].
  cbn [filter]. rewrite (IH Hs). cbn [filter].
  destruct (Z.eqb_spec (fst y) t) as [Hy|Hy];
    destruct (Z.eqb_spec (fst x) t) as [Hx|Hx]; try reflexivity.
  lia.
Qed.

(** Entries with equal times keep the order they had in the input. *)
Lemma sort_by_time_stable (t : Z) (l : list item) :
  filter (fun f => fst f =? t) (sort_by_time l) =
  filter (fun f => fst f =? t) l.
Proof.
  induction l as [|x l IH]; [reflexivity|].
  cbn [sort_by_time].
  rewrite insert_by_time_filter by apply sort_by_time_sorted.
  cbn [filter]. rewrite IH. reflexivity.
Qed.

(** ** The merging loop *)

Lemma merge_loop_acc (cpl n : Z) (items : list item) :
  forall i ct ctime merged,
  merge_loop cpl n i items ct ctime merged =
  merged ++ merge_loop cpl n i items ct ctime [].
Proof.
  induction items as [|[t x] rest IH]; intros i ct ctime merged;
    cbn [merge_loop]; [now rewrite app_nil_r|].
  destruct ((len (ct ++ x) >=? cpl) || (i =? n - 1)).
  - rewrite IH.
    rewrite (IH _ _ _ (if truthy (ct ++ x) then _ else _)).
    destruct (truthy (ct ++ x)); [|reflexivity].
    destruct (if negb (truthy ct) then Some t else ctime);
      [now rewrite <- app_assoc | reflexivity].
  - apply IH.
Qed.

(** No text is lost: the lines hold the pending text followed by all the
    texts still to come. *)
Lemma merge_loop_text (cpl n : Z) (items : list item) :
  forall i ct ctime,
  i + Z.of_nat (List.length items) = n ->
  (truthy ct = true -> ctime <> None) ->
  (items = [] -> ct = []) ->
  concat (map snd (merge_loop cpl n i items ct ctime [])) =
  ct ++ concat (map snd items).
Proof.
  induction items as [|[t x] rest IH]; intros i ct ctime Hn Hc Hnil.
  - rewrite (Hnil eq_refl). reflexivity.
  - cbn [merge_loop map concat snd].
    set (ctime' := if negb (truthy ct) then Some t else ctime).
    assert (Hc' : ctime' <> None).
    { unfold ctime'. destruct (truthy ct); simpl; [auto | discriminate]. }
    cbn [List.length] in Hn. rewrite Nat2Z.inj_succ in Hn.
    destruct ((len (ct ++ x) >=? cpl) || (i =? n - 1)) eqn:Hflush.
    + rewrite merge_loop_acc, map_app, concat_app.
                  rewrite (IH (i + 1) [] ctime');
        [|lia | intros; discriminate | reflexivity].
      destruct (truthy (ct ++ x)) eqn:Ht.
      * destruct ctime' as [t'|]; [|congruence].
        simpl. rewrite app_nil_r, <- app_assoc. reflexivity.
      * destruct (ct ++ x) eqn:E; [|discriminate].
        rewrite (app_assoc ct x), E. reflexivity.
    + apply orb_false_iff in Hflush as [_ Hlast].
      apply Z.eqb_neq in Hlast.
      rewrite (IH (i + 1) (ct ++ x) ctime').
      * now rewrite <- app_assoc.
      * lia.
      * auto.
      * intros ->. simpl in Hn. lia.
Qed.

(** The start times of the lines are taken in order from a sorted list,
    so they are sorted too. *)
Lemma merge_loop_sorted (cpl n : Z) (items : list item) :
  forall i ct ctime lo,
  StronglySorted Z.le (map fst items) ->
  Forall (fun t => lo <= t) (map fst items) ->
  (forall t, ctime = Some t -> truthy ct = true ->
     lo <= t /\ Forall (fun u => t <= u) (map fst items)) ->
  StronglySorted Z.le (map fst (merge_loop cpl n i items ct ctime [])) /\
  Forall (fun t => lo <= t) (map fst (merge_loop cpl n i items ct ctime [])).
Proof.
  induction items as [|[t x] rest IH]; intros i ct ctime lo Hs Hlo Hc.
  - simpl. split; constructor.
  - cbn [merge_loop].
    cbn [map fst] in Hs, Hlo.
    inversion Hs as [|a m Hs' Hall]; subst.
    inversion Hlo as [|a m Hlo1 Hlo']; subst.
    set (ctime' := if negb (truthy ct) then Some t else ctime).
    assert (Hc' : forall t', ctime' = Some t' -> lo <= t' <= t).
    { unfold ctime'. intros t' E. destruct (truthy ct) eqn:Ht; simpl in E.
      - destruct (Hc t' E eq_refl) as [H1 H2]. inversion H2; subst. lia.
      - inversion E; subst. lia. }
    destruct ((len (ct ++ x) >=? cpl) || (i =? n - 1)).
    + rewrite merge_loop_acc, map_app.
      destruct (IH (i + 1) [] ctime' t Hs' Hall) as [IH1 IH2];
        [intros ? ? ?; discriminate|].
      assert (IH3 : Forall (fun u => lo <= u)
                 (map fst (merge_loop cpl n (i + 1) rest [] ctime' []))).
      { eapply Forall_impl; [|exact IH2]. simpl. intros; lia. }
      destruct (truthy (ct ++ x)); [|simpl; auto].
      destruct ctime' as [t'|]; [|simpl; auto].
      specialize (Hc' t' eq_refl). simpl. split.
      * constructor; [exact IH1|].
        eapply Forall_impl; [|exact IH2]. simpl. intros; lia.
      * constructor; [lia | exact IH3].
    + apply IH; [exact Hs' | exact Hlo'|].
      intros t' E Ht'. split; [apply (Hc' t' E)|].
      unfold ctime' in E. destruct (truthy ct) eqn:Ht; simpl in E.
      * destruct (Hc t' E eq_refl) as [_ H2]. now inversion H2.
      * inversion E; subst. exact Hall.
Qed.

Lemma merge_items_text (items : list item) (cpl : Z) :
  concat (map snd (merge_items items cpl)) =
  concat (map snd (sort_by_time items)).
Proof.
  unfold merge_items.
  rewrite merge_loop_text; [reflexivity | lia | discriminate | auto].
Qed.

Lemma merge_items_sorted (items : list item) (cpl : Z) :
  StronglySorted Z.le (map fst (merge_items items cpl)).
Proof.
  unfold merge_items.
  destruct (sort_by_time items) as [|[t x] rest] eqn:E; [constructor|].
  rewrite <- E.
  apply (merge_loop_sorted cpl _ _ 0 [] None t).
  - apply sort_by_time_sorted.
  - pose proof (sort_by_time_sorted items) as H. rewrite E in *.
    simpl in *. inversion H; subst. constructor; [lia | assumption].
  - discriminate.
Qed.

(** A lower bound of the offsets of the fragments bounds the start times
    of the lines. *)
Lemma merge_items_lower_bound (lo : Z) (items : list item) (cpl : Z) :
  Forall (fun it => lo <= fst it) items ->
  Forall (fun it => lo <= fst it) (merge_items items cpl).
Proof.
  intros Hall. unfold merge_items.
  assert (Hs : Forall (fun t => lo <= t) (map fst (sort_by_time items))).
  { apply Forall_map.
    eapply Permutation_Forall; [apply sort_by_time_perm | exact Hall]. }
  destruct (merge_loop_sorted cpl (Z.of_nat (List.length (sort_by_time items)))
              (sort_by_time items) 0 [] None lo
              (sort_by_time_sorted items) Hs) as [_ H];
    [intros t E; discriminate|].
  rewrite Forall_forall in H. apply Forall_forall. intros it Hit.
  apply H. apply in_map. exact Hit.
Qed.

(** C1. For every finite sequence of timed fragments, empty or not, and
    every [chars_per_line] (positive or not), the merge step works on the
    fragments sorted by offset, ties keeping their input order; the lyric
    lines it produces have non-decreasing start times, and their texts
    concatenated are the texts of the sorted fragments concatenated.  The
    empty sequence gives no line and the empty output, not an error. *)
Theorem merge_items_ordered_and_complete
    (fragments : list item) (chars_per_line : Z) :
  let sorted := sort_by_time fragments in
  let lines := merge_items fragments chars_per_line in
  (Sorted Z.le (map fst sorted) /\
   Permutation fragments sorted /\
   forall t, filter (fun f => fst f =? t) sorted =
             filter (fun f => fst f =? t) fragments) /\
  Sorted Z.le (map fst lines) /\
  concat (map snd lines) = concat (map snd sorted) /\
  merge_items [] chars_per_line = [] /\
  lrc_of_items [] chars_per_line = [].
Proof.
  cbv zeta. repeat split.
  - apply StronglySorted_Sorted, sort_by_time_sorted.
  - apply sort_by_time_perm.
  - intros t. apply sort_by_time_stable.
  - apply StronglySorted_Sorted, merge_items_sorted.
  - apply merge_items_text.
Qed.

(** ** Zero-padded formatting *)

Lemma format_0d_2_small (v : Z) :
  0 <= v < 100 ->
  format_0d 2 v = [digit_char (v / 10); digit_char (v mod 10)].
Proof.
  intros H. unfold format_0d.
  destruct (Z.ltb_spec v 0); [lia|].
  rewrite Z.abs_eq by lia.
  destruct (Z_lt_le_dec v 10) as [Hs|Hb].
  - rewrite decimal_digits_small by lia. simpl.
    rewrite Z.div_small, Z.mod_small by lia. reflexivity.
  - rewrite decimal_digits_two by lia. reflexivity.
Qed.

Lemma format_0d_wide (w : nat) (v : Z) :
  10 ^ Z.of_nat w <= v -> (1 <= w)%nat ->
  format_0d w v = decimal_digits v /\
  (w < List.length (decimal_digits v))%nat.
Proof.
  intros H Hw. destruct w as [|k]; [lia|].
  assert (Hpos : 0 < 10 ^ Z.of_nat (S k)) by (apply Z.pow_pos_nonneg; lia).
  assert (Hlen : (S k < List.length (decimal_digits v))%nat).
  { pose proof (decimal_digits_length k v ltac:(lia)) as [Hl _]. lia. }
  split; [|exact Hlen].
  unfold format_0d. destruct (Z.ltb_spec v 0); [lia|].
  rewrite Z.abs_eq by lia.
  replace (S k - List.length (decimal_digits v))%nat with 0%nat by lia.
  reflexivity.
Qed.

Lemma format_0d_value_acc (w : nat) (v : Z) :
  0 <= v ->
  int_of_digits_acc ascii_digit_value (format_0d w v) 0 = Some v.
Proof.
  intros H. unfold format_0d. destruct (Z.ltb_spec v 0); [lia|].
  rewrite Z.abs_eq by lia.
  rewrite int_of_digits_acc_app.
  assert (Hz : forall k, int_of_digits_acc ascii_digit_value
                 (repeat (digit_char 0) k) 0 = Some 0).
  { induction k as [|k IH]; [reflexivity|]. simpl repeat.
    cbn [int_of_digits_acc]. rewrite ascii_digit_value_char by lia.
    exact IH. }
  rewrite Hz. apply decimal_digits_value. exact H.
Qed.

(** Reading a formatted number back gives the number. *)
Lemma format_0d_value (w : nat) (v : Z) :
  0 <= v -> int_of_digits ascii_digit_value (format_0d w v) = Some v.
Proof.
  intros H. pose proof (format_0d_value_acc w v H) as Hv.
  unfold int_of_digits. destruct (format_0d w v) eqn:E; [|exact Hv].
  exfalso. unfold format_0d in E. destruct (v <? 0); [discriminate|].
  apply app_eq_nil in E as [_ E].
  pose proof (decimal_digits_length_pos (Z.abs v) ltac:(lia)) as L.
  rewrite E in L. simpl in L. lia.
Qed.

(** ** Rendering *)

(** C7. A lyric line with a non-negative start offset renders as
    [[MM:SS.CC]text]: SS and CC are two digits each, MM is the minute count
    padded with zeros to two digits and wider than two digits exactly when
    it is past 99; the rendered minutes, seconds and centiseconds make up
    the offset divided by ten with the remainder dropped, so CC is
    truncated, not rounded.  Fragments with offsets that are not negative
    merge to lines whose starts are not negative, so this covers every
    merged line.  The four fragments of the end-to-end scenario
    with [chars_per_line = 2] merge to the two lines the scenario lists and
    render as its two lines of text. *)
Theorem lrc_line_format (time_ms : Z) (text : str) :
  0 <= time_ms ->
  let minutes := time_ms / 1000 / 60 in
  let seconds := time_ms / 1000 mod 60 in
  let centis := time_ms mod 1000 / 10 in
  lrc_line (time_ms, text) =
    lit "[" ++ format_0d 2 minutes ++ lit ":"
      ++ [digit_char (seconds / 10); digit_char (seconds mod 10)] ++ lit "."
      ++ [digit_char (centis / 10); digit_char (centis mod 10)] ++ lit "]"
      ++ text /\
  (0 <= seconds < 60 /\ 0 <= centis < 100 /\
   (minutes * 60 + seconds) * 100 + centis = time_ms / 10) /\
  int_of_digits ascii_digit_value (format_0d 2 minutes) = Some minutes /\
  (minutes <= 99 ->
   format_0d 2 minutes = [digit_char (minutes / 10); digit_char (minutes mod 10)]) /\
  (99 < minutes ->
   format_0d 2 minutes = decimal_digits minutes /\
   (2 < List.length (format_0d 2 minutes))%nat) /\
  (forall fragments chars_per_line,
     Forall (fun f => 0 <= fst f) fragments ->
     Forall (fun l => 0 <= fst l) (merge_items fragments chars_per_line)) /\
  merge_items [(0, [20320%N]); (300, [22909%N]); (600, [19990%N]);
               (900, [30028%N])] 2
    = [(0, [20320%N; 22909%N]); (600, [19990%N; 30028%N])] /\
  lrc_of_items [(0, [20320%N]); (300, [22909%N]); (600, [19990%N]);
                (900, [30028%N])] 2
    = lit "[00:00.00]" ++ [20320%N; 22909%N] ++ [LF]
        ++ lit "[00:00.60]" ++ [19990%N; 30028%N].
Proof.
  intros H minutes seconds centis.
  assert (Hs : 0 <= seconds < 60) by (apply Z.mod_pos_bound; lia).
  assert (Hm : 0 <= minutes).
  { unfold minutes. apply Z.div_pos; [apply Z.div_pos|]; lia. }
  assert (Hc : 0 <= centis < 100).
  { unfold centis. pose proof (Z.mod_pos_bound time_ms 1000 ltac:(lia)).
    split; [apply Z.div_pos; lia | apply Z.div_lt_upper_bound; lia]. }
  repeat split; try lia.
  - unfold lrc_line. fold minutes seconds centis.
    rewrite (format_0d_2_small seconds), (format_0d_2_small centis) by lia.
    reflexivity.
  - unfold minutes, seconds, centis.
    pose proof (Z.div_mod time_ms 1000 ltac:(lia)).
    pose proof (Z.div_mod (time_ms / 1000) 60 ltac:(lia)).
    pose proof (Z.div_mod (time_ms mod 1000) 10 ltac:(lia)).
    pose proof (Z.mod_pos_bound (time_ms mod 1000) 10 ltac:(lia)).
    apply Z.div_unique with (r := time_ms mod 1000 mod 10); lia.
  - apply format_0d_value. exact Hm.
  - intros Hle. apply format_0d_2_small. lia.
  - apply (format_0d_wide 2 minutes); [change (10 ^ Z.of_nat 2) with 100|]; lia.
  - destruct (format_0d_wide 2 minutes) as [E L];
      [change (10 ^ Z.of_nat 2) with 100; lia | lia |].
    rewrite E. exact L.
  - intros fragments cpl. apply merge_items_lower_bound.
Qed.

Lemma lrc_line_format_witness :
  0 <= 6000000 /\
  lrc_line (6000000, lit "x") = lit "[100:00.00]x".
Proof.
  split; [lia|].
  destruct (lrc_line_format 6000000 (lit "x") ltac:(lia)) as [E _].
  rewrite E. reflexivity.
Defined.

(** ** Splitting what was joined *)

Lemma startswith_sep (s : str) :
  startswith [LF; LF] s = true <-> exists t, s = LF :: LF :: t.
Proof.
  split.
  - destruct s as [|a [|b t]]; cbn [startswith]; try discriminate.
    + rewrite andb_false_r. discriminate.
    + unfold char_eqb. rewrite andb_true_r. intros H.
      apply andb_true_iff in H as [Ha Hb].
      apply N.eqb_eq in Ha, Hb. subst. eauto.
  - intros [t ->]. reflexivity.
Qed.

Lemma last_default (b : str) (c d1 d2 : char) :
  List.last (c :: b) d1 = List.last (c :: b) d2.
Proof.
  revert c. induction b as [|x b IH]; intros c; [reflexivity|].
  change (List.last (c :: x :: b) d1) with (List.last (x :: b) d1).
  change (List.last (c :: x :: b) d2) with (List.last (x :: b) d2).
  apply IH.
Qed.

(** Scanning a piece that holds no blank line and does not end in a line
    feed, followed by a separator: the piece comes out whole. *)
Lemma split_go_piece (b : str) : forall cur t,
  has_blank_line b = false ->
  (b <> [] -> List.last b LF <> LF) ->
  split_go [LF; LF] (b ++ LF :: LF :: t) 0 cur =
  (List.rev cur ++ b) :: split_go [LF; LF] t 0 [].
Proof.
  induction b as [|c b IH]; intros cur t Hb Hl.
  - cbn [app split_go startswith char_eqb]. unfold char_eqb.
    rewrite N.eqb_refl. cbn [andb List.length Nat.pred split_go].
    now rewrite app_nil_r.
  - cbn [app split_go].
    assert (Hs : startswith [LF; LF] (c :: b ++ LF :: LF :: t) = false).
    { destruct (startswith [LF; LF] (c :: b ++ LF :: LF :: t)) eqn:E;
        [|reflexivity].
      apply startswith_sep in E as [u E]. inversion E; subst. exfalso.
      destruct b as [|d b].
      - apply Hl; [discriminate | reflexivity].
      - cbn [app] in H1. inversion H1; subst.
        cbn [has_blank_line] in Hb. unfold char_eqb in Hb.
        rewrite N.eqb_refl in Hb. discriminate. }
    rewrite Hs. rewrite IH.
    + cbn [List.rev]. rewrite <- app_assoc. reflexivity.
    + destruct b as [|d b]; [reflexivity|].
      cbn [has_blank_line] in Hb. apply orb_false_iff in Hb as [_ Hb]. exact Hb.
    + intros Hne. destruct b as [|d b]; [contradiction|].
      apply Hl. discriminate.
Qed.

Lemma split_go_last (b : str) : forall cur,
  has_blank_line b = false ->
  split_go [LF; LF] b 0 cur = [List.rev cur ++ b].
Proof.
  induction b as [|c b IH]; intros cur Hb.
  - cbn. now rewrite app_nil_r.
  - cbn [split_go].
    assert (Hs : startswith [LF; LF] (c :: b) = false).
    { destruct (startswith [LF; LF] (c :: b)) eqn:E; [|reflexivity].
      apply startswith_sep in E as [u E]. inversion E; subst.
      cbn [has_blank_line] in Hb. unfold char_eqb in Hb.
      rewrite N.eqb_refl in Hb. discriminate. }
    rewrite Hs, IH.
    + cbn [List.rev]. rewrite <- app_assoc. reflexivity.
    + destruct b as [|d b]; [reflexivity|].
      cbn [has_blank_line] in Hb. apply orb_false_iff in Hb as [_ Hb]. exact Hb.
Qed.

Lemma trimmed_facts (isspace : char -> bool) (b : str) :
  trimmed isspace b = true ->
  exists c b', b = c :: b' /\ isspace c = false /\
    isspace (List.last b c) = false /\ List.last b LF <> LF /\
    has_blank_line b = false.
Proof.
  unfold trimmed. destruct b as [|c b']; [discriminate|]. intros H.
  apply andb_true_iff in H as [H H4]. apply andb_true_iff in H as [H H3].
  apply andb_true_iff in H as [H1 H2].
  apply negb_true_iff in H1, H2, H3, H4.
  exists c, b'. repeat split; try assumption.
  unfold char_eqb in H3. apply N.eqb_neq in H3.
  rewrite (last_default b' c LF c). exact H3.
Qed.

Lemma last_app_cons (a : str) (x : char) (b : str) (d : char) :
  List.last (a ++ x :: b) d = List.last (x :: b) d.
Proof.
  induction a as [|y a IH]; [reflexivity|].
  rewrite <- IH. cbn [app].
  destruct (a ++ x :: b) eqn:E; [destruct a; discriminate | reflexivity].
Qed.

Lemma split_join (isspace : char -> bool) (bs : list str) :
  bs <> [] ->
  Forall (fun b => trimmed isspace b = true) bs ->
  split [LF; LF] (join [LF; LF] bs) = bs.
Proof.
  unfold split. induction bs as [|b bs IH]; intros Hne Hall; [contradiction|].
  inversion Hall as [|x l Hb Hrest]; subst.
  destruct (trimmed_facts isspace b Hb) as [c [b' [E [_ [_ [Hl Hn]]]]]].
  destruct bs as [|b2 rest].
  - cbn [join]. rewrite split_go_last by exact Hn. reflexivity.
  - change (join [LF; LF] (b :: b2 :: rest))
      with (b ++ LF :: LF :: join [LF; LF] (b2 :: rest)).
    rewrite split_go_piece; [|exact Hn | intros _; exact Hl].
    cbn [List.rev app]. f_equal. apply IH; [discriminate | exact Hrest].
Qed.

Lemma join_head (isspace : char -> bool) (bs : list str) :
  bs <> [] ->
  Forall (fun b => trimmed isspace b = true) bs ->
  exists c s, join [LF; LF] bs = c :: s /\ isspace c = false /\
              isspace (List.last (c :: s) c) = false.
Proof.
  induction bs as [|b bs IH]; intros Hne Hall; [contradiction|].
  inversion Hall as [|x l Hb Hrest]; subst.
  destruct (trimmed_facts isspace b Hb) as [c [b' [E [Hc [Hlast _]]]]].
  subst b. destruct bs as [|b2 rest].
  - exists c, b'. cbn [join]. auto.
  - destruct (IH ltac:(discriminate) Hrest) as [c2 [s2 [E2 [_ Hl2]]]].
    change (join [LF; LF] ((c :: b') :: b2 :: rest))
      with ((c :: b') ++ LF :: LF :: join [LF; LF] (b2 :: rest)).
    rewrite E2. exists c, (b' ++ LF :: LF :: c2 :: s2).
    split; [reflexivity|]. split; [exact Hc|].
    change (c :: b' ++ LF :: LF :: c2 :: s2)
      with ((c :: b') ++ (LF :: LF :: c2 :: s2)).
    rewrite last_app_cons.
    change (List.last (LF :: LF :: c2 :: s2) c) with (List.last (c2 :: s2) c).
    rewrite (last_default s2 c2 c c2). exact Hl2.
Qed.

Lemma strip_trimmed (isspace : char -> bool) (c : char) (s : str) :
  isspace c = false -> isspace (List.last (c :: s) c) = false ->
  strip isspace (c :: s) = c :: s.
Proof.
  intros Hc Hl. unfold strip, rstrip. cbn [lstrip]. rewrite Hc.
  rewrite (app_removelast_last c (l := c :: s)) at 1 by discriminate.
  rewrite rev_app_distr. cbn [List.rev app lstrip]. rewrite Hl.
  change (List.last (c :: s) c :: List.rev (removelast (c :: s)))
    with (List.rev [List.last (c :: s) c] ++ List.rev (removelast (c :: s))).
  rewrite <- rev_app_distr, rev_involutive.
  symmetry. apply app_removelast_last. discriminate.
Qed.

(** ** Blocks the first loop passes over *)

Section Discarded.

Variable isspace : char -> bool.
Variable decimal : char -> option Z.




Lemma convert_joined (bs : list str) (cpl : Z) :
  Forall (fun b => trimmed isspace b = true) bs ->
  convert_srt_to_lrc isspace decimal (join [LF; LF] bs) cpl =
  lrc_of_blocks isspace decimal bs cpl.
Proof.
  intros Hall. destruct bs as [|b bs'] eqn:E; [reflexivity|]. rewrite <- E in *.
  assert (Hne : bs <> []) by (rewrite E; discriminate).
  unfold convert_srt_to_lrc, srt_blocks.
  destruct (join_head isspace bs Hne Hall) as [c [s [Ej [Hc Hl]]]].
  rewrite Ej, strip_trimmed, <- Ej by assumption.
  rewrite (split_join isspace) by assumption. reflexivity.
Qed.



End Discarded.



(** ** The retrying job *)

Lemma attempts_from_S (first : Z) (n : nat) :
  attempts_from first (S n) = first :: attempts_from (first + 1) n.
Proof.
  unfold attempts_from. cbn [seq map]. f_equal; [lia|].
  rewrite <- seq_shift, map_map. apply map_ext. intros j. lia.
Qed.

Lemma attempts_from_last (first : Z) (n : nat) :
  attempts_from first (S n) = attempts_from first n ++ [first + Z.of_nat n].
Proof.
  unfold attempts_from. rewrite seq_S, map_app. reflexivity.
Qed.

Lemma attempts_from_length (first : Z) (n : nat) :
  List.length (attempts_from first n) = n.
Proof. unfold attempts_from. now rewrite length_map, length_seq. Qed.

Lemma count_app (p : event -> bool) (a b : list event) :
  count p (a ++ b) = (count p a + count p b)%nat.
Proof. unfold count. now rewrite filter_app, length_app. Qed.

Lemma provider_events_quiet (text voice directory : str) (o : outcome) :
  count is_sleep (provider_events text voice directory o) = 0%nat /\
  count is_attempt_failure (provider_events text voice directory o) = 0%nat.
Proof. destruct o; split; reflexivity. Qed.

Lemma failed_attempt_counts (text voice directory : str) (max_retries : Z)
    (env : Z -> outcome) (k : Z) :
  count is_attempt_failure
    (failed_attempt_events text voice directory max_retries env k) = 1%nat /\
  count is_sleep
    (failed_attempt_events text voice directory max_retries env k) =
    (if k <? max_retries - 1 then 1%nat else 0%nat).
Proof.
  unfold failed_attempt_events. rewrite !count_app.
  destruct (provider_events_quiet text voice directory (env k)) as [-> ->].
  destruct (k <? max_retries - 1); split; reflexivity.
Qed.

Lemma failed_attempts_counts (text voice directory : str) (max_retries : Z)
    (env : Z -> outcome) (todo : nat) : forall first,
  todo = 0%nat \/ first + Z.of_nat todo = max_retries ->
  let tr := flat_map (failed_attempt_events text voice directory max_retries env)
              (attempts_from first todo) in
  count is_attempt_failure tr = todo /\ count is_sleep tr = (todo - 1)%nat.
Proof.
  induction todo as [|todo IH]; intros first Hsum; cbv zeta.
  - split; reflexivity.
  - rewrite attempts_from_S. cbn [flat_map]. rewrite !count_app.
    destruct (failed_attempt_counts text voice directory max_retries env first)
      as [-> ->].
    destruct (IH (first + 1) ltac:(lia)) as [-> ->].
    split; [reflexivity|].
    destruct (Z.ltb_spec first (max_retries - 1)); lia.
Qed.

Lemma failed_attempts_sleep (text voice directory : str) (max_retries : Z)
    (env : Z -> outcome) (l : list Z) (s : Z) :
  In (Sleep s)
    (flat_map (failed_attempt_events text voice directory max_retries env) l) ->
  s = RETRY_DELAY_SECONDS.
Proof.
  intros H. apply in_flat_map in H as [k [_ H]].
  unfold failed_attempt_events in H. apply in_app_or in H as [H|H].
  - destruct (env k); simpl in H; intuition discriminate.
  - destruct (k <? max_retries - 1); simpl in H;
      repeat (destruct H as [H|H]; [try discriminate; now inversion H|]);
      contradiction.
Qed.

Section JobFacts.

Variable isspace : char -> bool.
Variable decimal : char -> option Z.

Lemma attempt_body_raises (text voice : str) (output_audio output_lrc : path)
    (chars_per_line : Z) (o : outcome) (e : exn) (w : world) :
  is_blank isspace text = false ->
  raised o = Some e ->
  exists w',
    attempt_body isspace decimal text output_audio output_lrc voice
      chars_per_line o w = (w', inl e) /\
    events w' =
      events w ++ provider_events text voice (dirname output_audio) o /\
    processing w' = processing w.
Proof.
  intros Hb Hr. unfold attempt_body. rewrite Hb.
  destruct o; simpl in Hr; inversion Hr; subst; clear Hr;
    cbv [bind new_communicate makedirs stream_audio write_lrc raise emit
         write_file ret];
    eexists; (split; [reflexivity|]); cbn [events processing provider_events];
    rewrite <- ?app_assoc, ?app_nil_r; split; reflexivity.
Qed.

Lemma retry_loop_all_fail (text voice : str) (output_audio output_lrc : path)
    (chars_per_line max_retries : Z) (env : Z -> outcome) (todo : nat) :
  forall attempt w,
  is_blank isspace text = false ->
  todo = 0%nat \/ attempt + Z.of_nat todo <= max_retries ->
  (forall k, attempt <= k < max_retries -> raised (env k) <> None) ->
  exists w',
    retry_loop isspace decimal text output_audio output_lrc voice
      chars_per_line max_retries env todo attempt w = (w', inr false) /\
    events w' =
      events w ++
      flat_map (failed_attempt_events text voice (dirname output_audio)
                  max_retries env) (attempts_from attempt todo) /\
    processing w' = processing w.
Proof.
  induction todo as [|todo IH]; intros attempt w Hb Hsum Hall.
  - exists w. cbn. rewrite app_nil_r. auto.
  - rewrite attempts_from_S. cbn [flat_map retry_loop].
    destruct (raised (env attempt)) as [e|] eqn:Hr;
      [|exfalso; apply (Hall attempt); [lia | exact Hr]].
    destruct (attempt_body_raises text voice output_audio output_lrc
                chars_per_line (env attempt) e w Hb Hr) as [w1 [E1 [Ev1 P1]]].
    unfold bind at 1. unfold try_catch. unfold bind at 1. rewrite E1.
    set (w2 := fst (on_error attempt max_retries e w1)).
    assert (E2 : on_error attempt max_retries e w1 = (w2, inr tt) /\
                 events w2 = events w ++
                   failed_attempt_events text voice (dirname output_audio)
                     max_retries env attempt /\
                 processing w2 = processing w).
    { unfold w2, on_error, failed_attempt_events. rewrite Hr.
      destruct (attempt <? max_retries - 1);
        cbv [bind print_stderr emit fst]; cbn [events processing];
        rewrite Ev1, <- ?app_assoc; auto. }
    destruct E2 as [E2 [Ev2 P2]].
    unfold bind at 1. rewrite E2. cbv [ret].
    destruct (IH (attempt + 1) w2 Hb ltac:(lia)) as [w3 [E3 [Ev3 P3]]].
    { intros k Hk. apply Hall. lia. }
    exists w3. split; [exact E3|]. split; [|congruence].
    rewrite Ev3, Ev2, <- app_assoc. reflexivity.
Qed.

(** C2. A job on a non-blank text whose every attempt raises makes
    exactly [max_retries] attempts: its events are those of the failed
    attempts [0 .. max_retries - 1] in turn.  Every attempt but the last
    ends with a wait of [RETRY_DELAY_SECONDS], so there are
    [max_retries - 1] waits, each before the next attempt and none after
    the last; the job returns [False]; the last lines report the
    exception of the last attempt; and exactly [max_retries] lines report
    a failed attempt. *)
Theorem exhausted_after_max_retries (text voice : str)
    (output_audio output_lrc : path) (chars_per_line max_retries : Z)
    (env : Z -> outcome) (w : world) :
  is_blank isspace text = false ->
  (forall k, 0 <= k < max_retries -> raised (env k) <> None) ->
  let run :=
    process_text_to_mp3 isspace decimal text output_audio output_lrc voice
      chars_per_line max_retries env w in
  let failed :=
    failed_attempt_events text voice (dirname output_audio) max_retries env in
  let attempts := attempts_from 0 (Z.to_nat max_retries) in
  result run = inr false /\
  events (final run) = events w ++ flat_map failed attempts /\
  List.length attempts = Z.to_nat max_retries /\
  count is_attempt_failure (flat_map failed attempts) = Z.to_nat max_retries /\
  count is_sleep (flat_map failed attempts) = (Z.to_nat max_retries - 1)%nat /\
  (forall s, In (Sleep s) (flat_map failed attempts) ->
     s = RETRY_DELAY_SECONDS) /\
  (forall k, 0 <= k < max_retries - 1 ->
     exists before, failed k = before ++ [Sleep RETRY_DELAY_SECONDS]) /\
  (0 < max_retries ->
     exists e before,
       raised (env (max_retries - 1)) = Some e /\
       flat_map failed attempts =
         before ++ [Stderr (RetriesExhausted max_retries e);
                    Stderr (Traceback e)]).
Proof.
  intros Hb Hall run failed attempts.
  destruct (retry_loop_all_fail text voice output_audio output_lrc
              chars_per_line max_retries env (Z.to_nat max_retries) 0 w Hb)
    as [w' [E [Ev _]]]; [lia | intros k Hk; apply Hall; lia |].
  unfold run, process_text_to_mp3, result, final. rewrite E. cbn [fst snd].
  assert (Hn : Z.to_nat max_retries = 0%nat \/
               0 + Z.of_nat (Z.to_nat max_retries) = max_retries) by lia.
  destruct (failed_attempts_counts text voice (dirname output_audio)
              max_retries env (Z.to_nat max_retries) 0 Hn) as [Cf Cs].
  split; [reflexivity|]. split; [exact Ev|].
  split; [apply attempts_from_length|].
  split; [exact Cf|]. split; [exact Cs|].
  split; [intros s; apply failed_attempts_sleep|].
  split.
  - intros k Hk. unfold failed, failed_attempt_events.
    destruct (Z.ltb_spec k (max_retries - 1)); [|lia].
    set (e := match raised (env k) with Some e => e | None => [] end).
    exists (provider_events text voice (dirname output_audio) (env k)
            ++ [Stderr (AttemptError (k + 1) max_retries e);
                Stderr (WaitRetry RETRY_DELAY_SECONDS)]).
    rewrite <- app_assoc. reflexivity.
  - intros Hpos.
    destruct (raised (env (max_retries - 1))) as [e|] eqn:Hr;
      [|exfalso; apply (Hall (max_retries - 1)); [lia | exact Hr]].
    unfold attempts.
    destruct (Z.to_nat max_retries) as [|n] eqn:En; [lia|].
    exists e.
    exists (flat_map failed (attempts_from 0 n)
            ++ provider_events text voice (dirname output_audio)
                 (env (max_retries - 1))).
    split; [reflexivity|].
    rewrite attempts_from_last, flat_map_app. cbn [flat_map].
    rewrite app_nil_r.
    replace (0 + Z.of_nat n) with (max_retries - 1) by lia.
    unfold failed at 2. unfold failed_attempt_events.
    rewrite Hr. destruct (Z.ltb_spec (max_retries - 1) (max_retries - 1)); [lia|].
    rewrite app_assoc. reflexivity.
Qed.

End JobFacts.

Lemma exhausted_after_max_retries_witness :
  let env := fun _ : Z => CommunicateRaises (lit "offline") in
  let run :=
    process_text_to_mp3 ascii_isspace ascii_digit_value (lit "text")
      (mkpath (lit "out") (lit "a.mp3")) (mkpath (lit "out") (lit "a.lrc"))
      (lit "voice") 15 MAX_RETRIES env initial_world in
  result run = inr false /\
  count is_attempt_failure (events (final run)) = 3%nat /\
  count is_sleep (events (final run)) = 2%nat.
Proof.
  intros env run.
  destruct (exhausted_after_max_retries ascii_isspace ascii_digit_value
              (lit "text") (lit "voice")
              (mkpath (lit "out") (lit "a.mp3"))
              (mkpath (lit "out") (lit "a.lrc")) 15 MAX_RETRIES env
              initial_world)
    as [R [Ev [_ [Cf [Cs _]]]]].
  - reflexivity.
  - intros k _. discriminate.
  - fold run in R, Ev. rewrite Ev. cbn [events initial_world app].
    split; [exact R|]. split; [exact Cf | exact Cs].
Defined.

(** ** Projections of a run *)

Lemma queue_of_app (a b : list event) :
  queue_of (a ++ b) = queue_of a ++ queue_of b.
Proof.
  induction a as [|ev a IH]; [reflexivity|].
  destruct ev; simpl; rewrite IH; reflexivity.
Qed.

Lemma ui_of_app (a b : list event) : ui_of (a ++ b) = ui_of a ++ ui_of b.
Proof.
  induction a as [|ev a IH]; [reflexivity|].
  destruct ev; simpl; rewrite IH; reflexivity.
Qed.


Lemma str_eqb_refl (s : str) : str_eqb s s = true.
Proof.
  induction s as [|c s IH]; [reflexivity|].
  simpl. unfold char_eqb. now rewrite N.eqb_refl.
Qed.

Lemma path_eqb_refl (p : path) : path_eqb p p = true.
Proof. unfold path_eqb. now rewrite !str_eqb_refl. Qed.

Section JobRuns.

Variable isspace : char -> bool.
Variable decimal : char -> option Z.

Lemma attempt_body_returns (text voice : str) (output_audio output_lrc : path)
    (chars_per_line : Z) (o : outcome) (w : world) :
  is_blank isspace text = false ->
  raised o = None ->
  exists w',
    attempt_body isspace decimal text output_audio output_lrc voice
      chars_per_line o w = (w', inr true) /\
    events w' =
      events w ++ provider_events text voice (dirname output_audio) o /\
    processing w' = processing w /\
    files w' output_audio <> None /\ files w' output_lrc <> None.
Proof.
  intros Hb Hr. unfold attempt_body. rewrite Hb.
  destruct o; simpl in Hr; try discriminate.
  cbv [bind new_communicate makedirs stream_audio write_lrc raise emit
       write_file ret].
  eexists. split; [reflexivity|]. cbn [events processing files provider_events].
  rewrite <- app_assoc, ?path_eqb_refl.
  repeat split.
  - destruct (path_eqb output_audio output_lrc); discriminate.
  - discriminate.
Qed.

Lemma provider_events_silent (text voice directory : str) (o : outcome) :
  queue_of (provider_events text voice directory o) = [] /\
  ui_of (provider_events text voice directory o) = [].
Proof. destruct o; split; reflexivity. Qed.

(** The loop returns, whatever the provider does: with [True] when one of
    the attempts left returns, with [False] otherwise.  It puts nothing
    on the queue and hands nothing to the interface thread. *)
Lemma retry_loop_runs (text voice : str) (output_audio output_lrc : path)
    (chars_per_line max_retries : Z) (env : Z -> outcome) (todo : nat) :
  forall attempt w,
  is_blank isspace text = false ->
  exists w' tr,
    retry_loop isspace decimal text output_audio output_lrc voice
      chars_per_line max_retries env todo attempt w =
      (w', inr (attempts_succeed env todo attempt)) /\
    events w' = events w ++ tr /\
    processing w' = processing w /\
    queue_of tr = [] /\ ui_of tr = [] /\
    (attempts_succeed env todo attempt = true ->
     files w' output_audio <> None /\ files w' output_lrc <> None).
Proof.
  induction todo as [|todo IH]; intros attempt w Hb.
  - exists w, []. cbn. rewrite app_nil_r. repeat split; discriminate.
  - cbn [retry_loop attempts_succeed].
    destruct (raised (env attempt)) as [e|] eqn:Hr.
    + destruct (attempt_body_raises isspace decimal text voice output_audio
                  output_lrc chars_per_line (env attempt) e w Hb Hr)
        as [w1 [E1 [Ev1 P1]]].
      unfold bind at 1. unfold try_catch. unfold bind at 1. rewrite E1.
      set (w2 := fst (on_error attempt max_retries e w1)).
      assert (E2 : exists tr2,
                 on_error attempt max_retries e w1 = (w2, inr tt) /\
                 events w2 = events w1 ++ tr2 /\
                 processing w2 = processing w1 /\
                 queue_of tr2 = [] /\ ui_of tr2 = []).
      { unfold w2, on_error.
        destruct (attempt <? max_retries - 1);
          cbv [bind print_stderr emit fst]; cbn [events processing];
          eexists; (split; [reflexivity|]); rewrite <- ?app_assoc;
          (split; [reflexivity|]); auto. }
      destruct E2 as [tr2 [E2 [Ev2 [P2 [Q2 U2]]]]].
      unfold bind at 1. rewrite E2. cbv [ret].
      destruct (IH (attempt + 1) w2 Hb) as [w3 [tr3 [E3 [Ev3 [P3 [Q3 [U3 F3]]]]]]].
      exists w3,
        (provider_events text voice (dirname output_audio) (env attempt)
         ++ tr2 ++ tr3).
      destruct (provider_events_silent text voice (dirname output_audio)
                  (env attempt)) as [Qp Up].
      split; [exact E3|].
      split; [rewrite Ev3, Ev2, Ev1, <- !app_assoc; reflexivity|].
      split; [congruence|].
      rewrite !queue_of_app, !ui_of_app, Qp, Up, Q2, U2, Q3, U3.
      auto.
    + destruct (attempt_body_returns text voice output_audio output_lrc
                  chars_per_line (env attempt) w Hb Hr)
        as [w1 [E1 [Ev1 [P1 [F1 F2]]]]].
      unfold bind at 1. unfold try_catch. unfold bind at 1. rewrite E1.
      cbv [ret].
      exists w1, (provider_events text voice (dirname output_audio) (env attempt)).
      destruct (provider_events_silent text voice (dirname output_audio)
                  (env attempt)) as [Qp Up].
      auto 10.
Qed.

(** [process_text_to_mp3] never raises; it returns [job_succeeds]. *)
Lemma process_text_to_mp3_runs (text voice : str)
    (output_audio output_lrc : path) (chars_per_line max_retries : Z)
    (env : Z -> outcome) (w : world) :
  exists w' tr,
    process_text_to_mp3 isspace decimal text output_audio output_lrc voice
      chars_per_line max_retries env w =
      (w', inr (job_succeeds isspace text max_retries env)) /\
    events w' = events w ++ tr /\
    processing w' = processing w /\
    queue_of tr = [] /\ ui_of tr = [] /\
    (job_succeeds isspace text max_retries env = true ->
     files w' output_audio <> None /\ files w' output_lrc <> None).
Proof.
  unfold process_text_to_mp3, job_succeeds.
  destruct (is_blank isspace text) eqn:Hb; cbn [negb andb].
  - destruct (Z.to_nat max_retries) as [|n].
    + exists w, []. cbn. rewrite app_nil_r. repeat split; discriminate.
    + cbn [retry_loop]. unfold attempt_body. rewrite Hb.
      cbv [bind try_catch print_stderr emit ret].
      eexists. exists [Stderr WarnEmptyText].
      cbn [events processing]. repeat split; discriminate.
  - apply retry_loop_runs. exact Hb.
Qed.

(** C3. On a text that is empty or all whitespace the job returns
    [False] from its first attempt: the only thing it does is print the
    warning (nothing at all when [max_retries] allows no attempt).  No
    [Communicate] is created, nothing is waited for, no attempt is reported
    as failed and retried, and no file is touched. *)
Theorem blank_text_fails_without_contact (text voice : str)
    (output_audio output_lrc : path) (chars_per_line max_retries : Z)
    (env : Z -> outcome) (w : world) :
  forallb isspace text = true ->
  let run :=
    process_text_to_mp3 isspace decimal text output_audio output_lrc voice
      chars_per_line max_retries env w in
  let printed := if 0 <? max_retries then [Stderr WarnEmptyText] else [] in
  result run = inr false /\
  events (final run) = events w ++ printed /\
  count is_contact printed = 0%nat /\
  count is_sleep printed = 0%nat /\
  count is_attempt_failure printed = 0%nat /\
  (forall p, files (final run) p = files w p).
Proof.
  intros Hws run printed.
  apply is_blank_iff in Hws.
  unfold run, printed, process_text_to_mp3, result, final.
  destruct (Z.ltb_spec 0 max_retries) as [Hpos|Hneg].
  - destruct (Z.to_nat max_retries) as [|n] eqn:En; [lia|].
    cbn [retry_loop]. unfold attempt_body. rewrite Hws.
    cbv [bind try_catch print_stderr emit ret]. cbn.
    repeat split; reflexivity.
  - replace (Z.to_nat max_retries) with 0%nat by lia.
    cbn. rewrite app_nil_r. repeat split; reflexivity.
Qed.

End JobRuns.

Lemma blank_text_fails_without_contact_witness :
  let run :=
    process_text_to_mp3 ascii_isspace ascii_digit_value (lit "   ")
      (mkpath (lit "out") (lit "a.mp3")) (mkpath (lit "out") (lit "a.lrc"))
      (lit "voice") 15 MAX_RETRIES (fun _ => Streamed [] []) initial_world in
  forallb ascii_isspace (lit "   ") = true /\
  result run = inr false /\
  events (final run) = [Stderr WarnEmptyText].
Proof.
  intros run.
  assert (H : forallb ascii_isspace (lit "   ") = true) by reflexivity.
  split; [exact H|].
  destruct (blank_text_fails_without_contact ascii_isspace ascii_digit_value
              (lit "   ") (lit "voice")
              (mkpath (lit "out") (lit "a.mp3"))
              (mkpath (lit "out") (lit "a.lrc")) 15 MAX_RETRIES
              (fun _ => Streamed [] []) initial_world H) as [R [Ev _]].
  split; [exact R | exact Ev].
Defined.

(** ** The progress computation never raises *)

Lemma digits2_pos_le (p : positive) : forall k,
  0 <= k -> (Zpos (digits2_pos p) <= k <-> Zpos p < 2 ^ k).
Proof.
  induction p as [p IH|p IH|]; intros k Hk; cbn [digits2_pos].
  - rewrite Pos2Z.inj_succ.
    destruct (Z.eq_dec k 0) as [->|Hk0].
    + change (2 ^ 0) with 1. split; intros; lia.
    + specialize (IH (k - 1) ltac:(lia)).
      replace (2 ^ k) with (2 * 2 ^ (k - 1))
        by (rewrite <- Z.pow_succ_r by lia; f_equal; lia).
      rewrite Pos2Z.inj_xI. split; intros; [assert (Z.pos p < 2 ^ (k - 1)) by (apply IH; lia)|
        assert (Z.pos (digits2_pos p) <= k - 1) by (apply IH; lia)]; lia.
  - rewrite Pos2Z.inj_succ.
    destruct (Z.eq_dec k 0) as [->|Hk0].
    + change (2 ^ 0) with 1. split; intros; lia.
    + specialize (IH (k - 1) ltac:(lia)).
      replace (2 ^ k) with (2 * 2 ^ (k - 1))
        by (rewrite <- Z.pow_succ_r by lia; f_equal; lia).
      rewrite Pos2Z.inj_xO. split; intros; [assert (Z.pos p < 2 ^ (k - 1)) by (apply IH; lia)|
        assert (Z.pos (digits2_pos p) <= k - 1) by (apply IH; lia)]; lia.
  - destruct (Z.eq_dec k 0) as [->|Hk0].
    + change (2 ^ 0) with 1. split; intros; lia.
    + assert (2 ^ 1 <= 2 ^ k) by (apply Z.pow_le_mono_r; lia).
      change (2 ^ 1) with 2 in *. split; intros; lia.
Qed.

Lemma Zdigits2_le (m k : Z) :
  0 <= m < 2 ^ k -> 0 <= k -> 0 <= Zdigits2 m <= k.
Proof.
  intros [H0 H] Hk. destruct m as [|p|p]; cbn [Zdigits2]; try lia.
  split; [lia|]. now apply digits2_pos_le.
Qed.

Lemma fexp_64 (x : Z) : fexp 53 1024 x = Z.max (x - 53) (-1074).
Proof. reflexivity. Qed.

Lemma shr_1_bounds (mrs : shr_record) :
  0 <= shr_m mrs -> 0 <= shr_m (shr_1 mrs) <= shr_m mrs.
Proof.
  destruct mrs as [m r s]. cbn [shr_m]. intros H.
  destruct m as [|[p|p|]|p]; cbn [shr_1 shr_m]; lia.
Qed.

Lemma iter_shr_1_bounds (n : positive) : forall mrs,
  0 <= shr_m mrs -> 0 <= shr_m (iter_pos shr_1 n mrs) <= shr_m mrs.
Proof.
  induction n as [n IH|n IH|]; intros mrs H; cbn [iter_pos].
  - pose proof (shr_1_bounds mrs H) as H1.
    pose proof (IH (shr_1 mrs) ltac:(lia)) as H2.
    pose proof (IH (iter_pos shr_1 n (shr_1 mrs)) ltac:(lia)). lia.
  - pose proof (IH mrs H) as H1.
    pose proof (IH (iter_pos shr_1 n mrs) ltac:(lia)). lia.
  - apply shr_1_bounds, H.
Qed.

Lemma shr_bounds (mrs : shr_record) (e n : Z) :
  0 <= shr_m mrs ->
  0 <= shr_m (fst (shr mrs e n)) <= shr_m mrs /\
  snd (shr mrs e n) = Z.max e (e + n).
Proof.
  intros H. unfold shr. destruct n as [|p|p]; cbn [fst snd]; try (split; lia).
  split; [apply iter_shr_1_bounds, H | lia].
Qed.

Lemma shr_m_of_loc (m : Z) (l : location) : shr_m (shr_record_of_loc m l) = m.
Proof. destruct l as [|[| |]]; reflexivity. Qed.

Lemma shr_fexp_bounds (m e : Z) (l : location) (D : Z) :
  0 <= m < 2 ^ D -> 0 <= D ->
  0 <= shr_m (fst (shr_fexp 53 1024 m e l)) <= m /\
  e <= snd (shr_fexp 53 1024 m e l) <= Z.max e (-1074) + D.
Proof.
  intros Hm HD. unfold shr_fexp.
  pose proof (Zdigits2_le m D Hm HD) as Hd.
  destruct (shr_bounds (shr_record_of_loc m l) e
              (fexp 53 1024 (Zdigits2 m + e) - e)) as [B ->];
    rewrite shr_m_of_loc in *; [lia|].
  split; [exact B|]. rewrite fexp_64. lia.
Qed.

Lemma round_nearest_even_bounds (m : Z) (l : location) :
  m <= round_nearest_even m l <= m + 1.
Proof.
  unfold round_nearest_even. destruct l as [|[| |]]; try lia.
  destruct (Z.even m); lia.
Qed.

Lemma binary_round_aux_bounded (sx : bool) (mx ex : Z) (lx : location) (D E : Z) :
  0 <= mx < 2 ^ D -> 0 <= D -> ex <= E ->
  Z.max E (-1074) + 2 * D + 1 <= 971 ->
  fbounded (D + 1) (Z.max E (-1074) + 2 * D + 1)
    (binary_round_aux 53 1024 sx mx ex lx).
Proof.
  intros Hm HD HE Hb. unfold binary_round_aux.
  destruct (shr_fexp_bounds mx ex lx D Hm HD) as [B1 E1].
  destruct (shr_fexp 53 1024 mx ex lx) as [mrs' e']. cbn [fst snd] in B1, E1.
  pose proof (round_nearest_even_bounds (shr_m mrs') (loc_of_shr_record mrs')) as R.
  set (mr := round_nearest_even (shr_m mrs') (loc_of_shr_record mrs')) in *.
  assert (Hp : 2 ^ (D + 1) = 2 * 2 ^ D)
    by (replace (D + 1) with (Z.succ D) by lia; apply Z.pow_succ_r; lia).
  assert (Hmr : 0 <= mr < 2 ^ (D + 1)) by lia.
  destruct (shr_fexp_bounds mr e' loc_Exact (D + 1) Hmr ltac:(lia)) as [B2 E2].
  destruct (shr_fexp 53 1024 mr e' loc_Exact) as [mrs'' e'']. cbn [fst snd] in B2, E2.
  destruct (shr_m mrs'') as [|m|m]; cbn [fbounded]; [exact I | | lia].
  change (1024 - 53) with 971.
  destruct (Z.leb_spec e'' 971); cbn [fbounded]; lia.
Qed.

(** *** Integers as floats *)

Lemma digits2_pos_iter_xO (d p : positive) :
  Zpos (digits2_pos (Pos.iter xO p d)) = Zpos (digits2_pos p) + Zpos d.
Proof.
  induction d as [|d IH] using Pos.peano_ind.
  - cbn. lia.
  - rewrite Pos.iter_succ. cbn [digits2_pos]. lia.
Qed.

Lemma binary_round_aux_canonical (sx : bool) (m : positive) (e : Z) :
  fexp 53 1024 (Zpos (digits2_pos m) + e) = e -> e <= 971 ->
  binary_round_aux 53 1024 sx (Zpos m) e loc_Exact = S754_finite sx m e.
Proof.
  intros Hc He. unfold binary_round_aux, shr_fexp.
  cbn [Zdigits2 shr_record_of_loc]. rewrite Hc, Z.sub_diag.
  cbn [shr shr_m loc_of_shr_record round_nearest_even Zdigits2 shr_record_of_loc].
  rewrite Hc, Z.sub_diag. cbn [shr shr_m].
  change (1024 - 53) with 971.
  destruct (Z.leb_spec e 971); [reflexivity | lia].
Qed.

(** A positive integer below [2^53] is a float exactly. *)
Lemma of_int_pos (a : positive) :
  Zpos a < 2 ^ 53 ->
  exists m e, of_int (Zpos a) = S754_finite false m e /\
              Zpos m < 2 ^ 53 /\ -52 <= e <= 0.
Proof.
  intros Ha. unfold of_int, binary_normalize, binary_round.
  pose proof (proj2 (digits2_pos_le a 53 ltac:(lia)) Ha) as Hd.
  assert (Hd1 : 1 <= Zpos (digits2_pos a)) by lia.
  change prec with 53. change emax with 1024.
  rewrite Z.add_0_r, fexp_64. unfold shl_align.
  replace (Z.max (Z.pos (digits2_pos a) - 53) (-1074))
    with (Z.pos (digits2_pos a) - 53) by lia.
  rewrite Z.sub_0_r.
  destruct (Z.pos (digits2_pos a) - 53) as [|d|d] eqn:Ed; try lia.
  - exists a, 0. split; [|lia].
    apply binary_round_aux_canonical; [rewrite fexp_64|]; lia.
  - exists (Pos.iter xO a d), (Z.neg d). split.
    + apply binary_round_aux_canonical; [|lia].
      rewrite digits2_pos_iter_xO, fexp_64. lia.
    + split; [|lia].
      apply digits2_pos_le; [lia|]. rewrite digits2_pos_iter_xO. lia.
Qed.

Lemma of_int_100 :
  of_int 100 = S754_finite false 7036874417766400 (-46).
Proof. reflexivity. Qed.

Lemma div_core_bounds (m1 m2 : positive) (e1 e2 : Z) :
  Zpos m1 < 2 ^ 53 -> Zpos m2 < 2 ^ 53 ->
  -52 <= e1 <= 0 -> -52 <= e2 <= 0 ->
  let '(q, e, _) := SFdiv_core_binary 53 1024 (Zpos m1) e1 (Zpos m2) e2 in
  0 <= q < 2 ^ 159 /\ e <= 52.
Proof.
  intros H1 H2 He1 He2. unfold SFdiv_core_binary.
  pose proof (Zdigits2_le (Zpos m1) 53 ltac:(lia) ltac:(lia)) as D1.
  pose proof (Zdigits2_le (Zpos m2) 53 ltac:(lia) ltac:(lia)) as D2.
  set (d1 := Zdigits2 (Z.pos m1)) in *. set (d2 := Zdigits2 (Z.pos m2)) in *.
  rewrite fexp_64.
  set (e' := Z.min (Z.max (d1 + e1 - (d2 + e2) - 53) (-1074)) (e1 - e2)).
  set (s := e1 - e2 - e').
  assert (Hs : 0 <= s <= 106) by (unfold s, e'; lia).
  set (m' := match s with
             | 0 => Z.pos m1
             | Z.pos _ => Z.shiftl (Z.pos m1) s
             | Z.neg _ => 0
             end).
  assert (Hm' : 0 < m' < 2 ^ 159).
  { assert (Hsh : m' = Zpos m1 * 2 ^ s).
    { unfold m'. destruct s as [|p|p] eqn:Es; [lia | | lia].
      apply Z.shiftl_mul_pow2. lia. }
    assert (0 < 2 ^ s) by (apply Z.pow_pos_nonneg; lia).
    assert (2 ^ s <= 2 ^ 106) by (apply Z.pow_le_mono_r; lia).
    assert (2 ^ 159 = 2 ^ 53 * 2 ^ 106) by reflexivity.
    rewrite Hsh. nia. }
  pose proof (Z.div_eucl_eq m' (Zpos m2) ltac:(lia)) as Hq.
  pose proof (Z.mod_pos_bound m' (Zpos m2) ltac:(lia)) as Hr.
  unfold Z.modulo in Hr.
  destruct (Z.div_eucl m' (Z.pos m2)) as [q r].
  split; [|unfold e'; lia].
  assert (0 <= q) by nia. split; [lia | nia].
Qed.

(** The progress percentage is defined for every batch whose length is a
    float exactly. *)
Lemma progress_pct_defined (done total : Z) :
  0 <= done < 2 ^ 53 -> 0 < total < 2 ^ 53 ->
  progress_pct done total <> None.
Proof.
  intros Hd Ht. unfold progress_pct, truediv.
  destruct (Z.eqb_spec total 0); [lia|].
  unfold mul_int. rewrite of_int_100.
  destruct total as [|t|t]; try lia.
  destruct (of_int_pos t ltac:(lia)) as [m2 [e2 [-> [M2 E2]]]].
  assert (Hq : fbounded 160 371
                 (SFdiv prec emax (of_int done)
                    (S754_finite false m2 e2))).
  { destruct done as [|a|a]; try lia; [exact I|].
    destruct (of_int_pos a ltac:(lia)) as [m1 [e1 [-> [M1 E1]]]].
    cbn [SFdiv]. change prec with 53. change emax with 1024.
    pose proof (div_core_bounds m1 m2 e1 e2 M1 M2 E1 E2) as Hc.
    destruct (SFdiv_core_binary 53 1024 (Z.pos m1) e1 (Z.pos m2) e2)
      as [[q e] l].
    destruct Hc as [Hq He].
    pose proof (binary_round_aux_bounded (xorb false false) q e l 159 52
                  Hq ltac:(lia) He ltac:(lia)) as Hb.
    exact Hb. }
  destruct (SFdiv prec emax (of_int done)
              (S754_finite false m2 e2)) as [s|s| |s m e];
    cbn [fbounded] in Hq; try contradiction.
  - discriminate.
  - cbn [SFmul]. change prec with 53. change emax with 1024.
    destruct Hq as [Hm He].
    assert (Hprod : 0 <= Z.pos (m * 7036874417766400) < 2 ^ 213).
    { rewrite Pos2Z.inj_mul.
      assert (Z.pos 7036874417766400 < 2 ^ 53) by reflexivity.
      assert (2 ^ 213 = 2 ^ 160 * 2 ^ 53) by reflexivity.
      nia. }
    pose proof (binary_round_aux_bounded (xorb s false)
                  (Z.pos (m * 7036874417766400)) (e + -46) loc_Exact 213 325
                  Hprod ltac:(lia) ltac:(lia) ltac:(lia)) as Hb.
    destruct (binary_round_aux 53 1024 (xorb s false)
                (Z.pos (m * 7036874417766400)) (e + -46) loc_Exact);
      cbn [fbounded] in Hb; try contradiction; discriminate.
Qed.

(** ** File names *)

Lemma format_0d_3_small (v : Z) :
  0 <= v < 1000 ->
  format_0d 3 v =
    [digit_char (v / 100); digit_char (v / 10 mod 10); digit_char (v mod 10)].
Proof.
  intros H. unfold format_0d.
  destruct (Z.ltb_spec v 0); [lia|].
  rewrite Z.abs_eq by lia.
  destruct (Z_lt_le_dec v 10) as [H1|H1].
  - rewrite decimal_digits_small by lia.
    rewrite (Z.div_small v 100), (Z.div_small v 10), (Z.mod_small v 10) by lia.
    reflexivity.
  - destruct (Z_lt_le_dec v 100) as [H2|H2].
    + rewrite decimal_digits_two by lia.
      rewrite (Z.div_small v 100) by lia.
      rewrite (Z.mod_small (v / 10)); [reflexivity|].
      split; [apply Z.div_pos; lia | apply Z.div_lt_upper_bound; lia].
    + rewrite decimal_digits_eq by lia.
      destruct (Z.ltb_spec v 10); [lia|].
      rewrite decimal_digits_two
        by (split; [apply Z.div_le_lower_bound; lia
                   | apply Z.div_lt_upper_bound; lia]).
      rewrite Z.div_div by lia. reflexivity.
Qed.

Lemma digit_is_legal (c : char) : is_ascii_digit c = true -> is_illegal c = false.
Proof.
  unfold is_ascii_digit, is_illegal, illegal_chars, char_eqb. intros H.
  apply andb_true_iff in H as [H1 H2].
  apply N.leb_le in H1. apply N.leb_le in H2.
  cbn [existsb].
  repeat match goal with
         | |- context [N.eqb c ?k] =>
             replace (N.eqb c k) with false by (symmetry; apply N.eqb_neq; lia)
         end.
  reflexivity.
Qed.

Lemma str_of_int_legal (n : Z) (c : char) :
  In c (str_of_int n) -> is_illegal c = false.
Proof.
  unfold str_of_int. intros H.
  assert (Hd : forall m, 0 <= m -> In c (decimal_digits m) -> is_illegal c = false).
  { intros m Hm Hin. apply digit_is_legal.
    pose proof (decimal_digits_ascii m Hm) as Ha.
    rewrite forallb_forall in Ha. apply Ha, Hin. }
  destruct (Z.ltb_spec n 0).
  - destruct H as [<-|H]; [reflexivity|]. apply (Hd (- n)); [lia | exact H].
  - apply (Hd n); assumption.
Qed.

Lemma strip_illegal_legal (title : str) (c : char) :
  In c (strip_illegal title) -> is_illegal c = false.
Proof.
  unfold strip_illegal. intros H. apply filter_In in H as [_ H].
  now apply negb_true_iff in H.
Qed.

Lemma placeholder_legal (n : Z) (c : char) :
  In c (ZHANGJIE ++ str_of_int n) -> is_illegal c = false.
Proof.
  intros H. apply in_app_or in H as [H|H].
  - simpl in H. destruct H as [<-|[<-|[]]]; reflexivity.
  - apply (str_of_int_legal n), H.
Qed.

Lemma single_safe_title_legal (title : str) (index : Z) (c : char) :
  In c (single_safe_title title index) -> is_illegal c = false.
Proof.
  unfold single_safe_title.
  destruct (truthy (strip_illegal title)); cbn [negb].
  - apply strip_illegal_legal.
  - apply placeholder_legal.
Qed.

Lemma batch_safe_title_legal (title : str) (i : Z) (c : char) :
  In c (batch_safe_title title i) -> is_illegal c = false.
Proof.
  unfold batch_safe_title.
  set (t := if negb (truthy (strip_illegal title))
            then ZHANGJIE ++ str_of_int i else strip_illegal title).
  assert (Ht : In c t -> is_illegal c = false).
  { unfold t. destruct (truthy (strip_illegal title)); cbn [negb].
    - apply strip_illegal_legal.
    - apply placeholder_legal. }
  destruct (len t >? 200); [|exact Ht].
  intros H. apply in_app_or in H as [H|H].
  - apply Ht. rewrite <- (firstn_skipn 197 t). apply in_or_app. now left.
  - simpl in H. destruct H as [<-|[<-|[<-|[]]]]; reflexivity.
Qed.

(** ** The tagger *)

(** [update_mp3_tag] never raises: it saves and returns [True] when the
    audio file is there and the tag library does not fail, and otherwise
    prints the error, leaves the files as they are and returns [False]. *)
Lemma update_mp3_tag_runs (mp3_path lrc_path : path) (cover_data : option bytes)
    (title artist album lyric_lang : str) (o : tag_outcome) (w : world) :
  exists w' tr,
    update_mp3_tag mp3_path lrc_path cover_data title artist album lyric_lang
      o w = (w', inr (tag_succeeds o && file_exists w mp3_path)) /\
    events w' = events w ++ tr /\
    processing w' = processing w /\
    queue_of tr = [] /\ ui_of tr = [] /\
    (forall p, files w p <> None -> files w' p <> None) /\
    (tag_succeeds o && file_exists w mp3_path = false ->
     (forall p, files w' p = files w p) /\
     exists e, tr = [Stderr (TagError e); Stderr (Traceback e)]).
Proof.
  unfold update_mp3_tag, load_mp3, save_mp3, file_exists.
  cbv [try_catch bind read_file raise ret print_stderr emit write_file].
  destruct (files w mp3_path) as [f|] eqn:Ef.
  - destruct o; cbn [tag_succeeds andb events processing files].
    + eexists. exists [Stderr (TagError e); Stderr (Traceback e)].
      split; [reflexivity|]. cbn [events processing files].
      rewrite <- app_assoc. repeat split; eauto.
    + eexists. exists [Stderr (TagError e); Stderr (Traceback e)].
      split; [reflexivity|]. cbn [events processing files].
      rewrite <- app_assoc. repeat split; eauto.
    + eexists. exists []. split; [reflexivity|]. cbn [events processing files].
      rewrite app_nil_r. repeat split; try discriminate.
      intros p Hp. destruct (path_eqb p mp3_path); [discriminate | exact Hp].
  - rewrite andb_false_r.
    eexists. exists [Stderr (TagError no_such_file); Stderr (Traceback no_such_file)].
    split; [reflexivity|]. cbn [events processing files].
    rewrite <- app_assoc. repeat split; eauto.
Qed.

(** ** The batch loop *)

Section BatchRuns.

Variable isspace : char -> bool.
Variable decimal : char -> option Z.

Lemma chapter_body_runs (params : batch_params) (env : Z -> Z -> outcome)
    (tag : Z -> tag_outcome) (i : Z) (ch : chapter) (w : world) :
  progress_pct (i - 1) (Z.of_nat (List.length (b_chapters params))) <> None ->
  exists w' tr,
    chapter_body isspace decimal params env tag i ch w = (w', inr tt) /\
    events w' = events w ++ tr /\
    processing w' = processing w /\
    queue_of tr = chapter_messages isspace params env tag i ch /\
    ui_of tr = [] /\
    (truthy (strip isspace (content_of ch)) = false ->
     tr = List.map Put (chapter_messages isspace params env tag i ch)) /\
    (truthy (strip isspace (content_of ch)) = true ->
     job_succeeds isspace (content_of ch) MAX_RETRIES (env i) = true ->
     let safe_title := batch_safe_title (title_of ch i) i in
     files w' (mkpath (b_output_dir params)
                 (batch_name i safe_title (lit "mp3"))) <> None /\
     files w' (mkpath (b_output_dir params)
                 (batch_name i safe_title (lit "lrc"))) <> None).
Proof.
  intros Hp. unfold chapter_body, chapter_messages, eval_progress.
  change (match chapter_title ch with
          | Some t => t
          | None => ZHANGJIE ++ str_of_int i
          end) with (title_of ch i).
  change (match chapter_content ch with Some c => c | None => [] end)
    with (content_of ch).
  destruct (progress_pct (i - 1) (Z.of_nat (List.length (b_chapters params))))
    as [pct|]; [clear Hp | contradiction].
  cbv [bind ret put emit].
  destruct (truthy (strip isspace (content_of ch))) eqn:Hc; cbn [negb].
  - match goal with
    | |- context [process_text_to_mp3 ?a ?b ?c ?d ?e ?f ?g ?h ?k ?w0] =>
        destruct (process_text_to_mp3_runs a b c f d e g h k w0)
          as [w1 [tr1 [E1 [Ev1 [P1 [Q1 [U1 F1]]]]]]]
    end.
    rewrite E1. cbn [events processing files] in Ev1, P1.
    destruct (job_succeeds isspace (content_of ch) MAX_RETRIES (env i)) eqn:Hj.
    + destruct (F1 eq_refl) as [Fa Fl].
      match goal with
      | |- context [update_mp3_tag ?a ?b ?c ?d ?e ?f ?g ?h ?w0] =>
          destruct (update_mp3_tag_runs a b c d e f g h w0)
            as [w2 [tr2 [E2 [Ev2 [P2 [Q2 [U2 [K2 _]]]]]]]]
      end.
      rewrite E2. unfold file_exists.
      pose proof (K2 _ Fa) as Ka. pose proof (K2 _ Fl) as Kl.
      destruct (files w1 _) as [f|] eqn:Ef in |- *; [|contradiction].
      rewrite andb_true_r.
      destruct (tag_succeeds (tag i));
        eexists; eexists; (split; [reflexivity|]); cbn [events processing files];
        rewrite Ev2, Ev1, <- !app_assoc; (split; [reflexivity|]);
        (split; [congruence|]);
        cbn [app queue_of ui_of]; rewrite !queue_of_app, !ui_of_app, Q1, Q2, U1, U2;
        cbn [app queue_of ui_of];
        (split; [reflexivity|]); (split; [reflexivity|]);
        (split; [discriminate|]); intros _ _; split; assumption.
    + eexists; eexists; (split; [reflexivity|]); cbn [events processing].
      rewrite Ev1, <- !app_assoc. split; [reflexivity|]. split; [congruence|].
      cbn [app queue_of ui_of]. rewrite !queue_of_app, !ui_of_app, Q1, U1.
      cbn [app queue_of ui_of].
      repeat split; discriminate.
  - eexists; eexists; (split; [reflexivity|]); cbn [events processing].
    rewrite <- !app_assoc. repeat split; try reflexivity; discriminate.
Qed.

(** A blank chapter only puts its three messages: the provider is not
    contacted and nothing is written. *)
Lemma blank_chapter_is_skipped (params : batch_params) (env : Z -> Z -> outcome)
    (tag : Z -> tag_outcome) (i : Z) (ch : chapter) (w : world) :
  progress_pct (i - 1) (Z.of_nat (List.length (b_chapters params))) <> None ->
  forallb isspace (content_of ch) = true ->
  exists w',
    chapter_body isspace decimal params env tag i ch w = (w', inr tt) /\
    events w' =
      events w ++ List.map Put (chapter_messages isspace params env tag i ch).
Proof.
  intros Hp Hb.
  destruct (chapter_body_runs params env tag i ch w Hp)
    as [w' [tr [E [Ev [_ [_ [_ [Hs _]]]]]]]].
  exists w'. split; [exact E|]. rewrite Ev, Hs; [reflexivity|].
  apply strip_nil_iff in Hb. now rewrite Hb.
Qed.

Lemma chapter_loop_runs (params : batch_params) (env : Z -> Z -> outcome)
    (tag : Z -> tag_outcome) (todo : list chapter) : forall i w,
  (forall j, i - 1 <= j < i - 1 + Z.of_nat (List.length todo) ->
     progress_pct j (Z.of_nat (List.length (b_chapters params))) <> None) ->
  exists w' tr,
    chapter_loop isspace decimal params env tag i todo w = (w', inr tt) /\
    events w' = events w ++ tr /\
    processing w' = processing w /\
    queue_of tr = batch_messages isspace params env tag i todo /\
    ui_of tr = [].
Proof.
  induction todo as [|ch rest IH]; intros i w Hp.
  - exists w, []. cbn. rewrite app_nil_r. auto.
  - cbn [chapter_loop batch_messages].
    destruct (chapter_body_runs params env tag i ch w)
      as [w1 [tr1 [E1 [Ev1 [P1 [Q1 [U1 _]]]]]]].
    { apply Hp. cbn [List.length]. lia. }
    destruct (IH (i + 1) w1) as [w2 [tr2 [E2 [Ev2 [P2 [Q2 U2]]]]]].
    { intros j Hj. apply Hp. cbn [List.length]. lia. }
    exists w2, (tr1 ++ tr2). unfold bind. rewrite E1, E2.
    split; [reflexivity|].
    split; [rewrite Ev2, Ev1, app_assoc; reflexivity|].
    split; [congruence|].
    rewrite queue_of_app, ui_of_app, Q1, Q2, U1, U2. auto.
Qed.

Lemma batch_messages_nth (params : batch_params) (env : Z -> Z -> outcome)
    (tag : Z -> tag_outcome) (todo : list chapter) : forall i j ch,
  nth_error todo j = Some ch ->
  exists before after,
    batch_messages isspace params env tag i todo =
    before ++ chapter_messages isspace params env tag (i + Z.of_nat j) ch
      ++ after.
Proof.
  induction todo as [|c rest IH]; intros i j ch Hn.
  - destruct j; discriminate.
  - destruct j as [|j]; cbn [nth_error] in Hn.
    + inversion Hn; subst. cbn [batch_messages].
      exists [], (batch_messages isspace params env tag (i + 1) rest).
      rewrite Z.add_0_r. reflexivity.
    + destruct (IH (i + 1) j ch Hn) as [before [after E]].
      cbn [batch_messages].
      exists (chapter_messages isspace params env tag i c ++ before), after.
      rewrite E, <- app_assoc.
      replace (i + 1 + Z.of_nat j) with (i + Z.of_nat (S j)) by lia.
      reflexivity.
Qed.

(** C5. A batch whose length is a float exactly (below [2^53]) runs to
    its end whatever its chapters do: the thread returns, and the queue
    holds the two opening messages, then the messages of every chapter in
    sequence order, then the four closing messages.  A chapter whose
    content is empty or all whitespace puts its progress, its status and
    the skip line, and does nothing else; a chapter whose three attempts
    all raise puts the line that reports it as failed.  Neither ends the
    loop: the messages of every chapter of the sequence are in the queue. *)
Theorem batch_survives_skips_and_failures (params : batch_params)
    (env : Z -> Z -> outcome) (tag : Z -> tag_outcome) (w : world) :
  let chapters := b_chapters params in
  let total := Z.of_nat (List.length chapters) in
  let run := _generate_ebook_thread isspace decimal params env tag w in
  total < 2 ^ 53 ->
  result run = inr tt /\
  queue_of (events (final run)) =
    queue_of (events w)
    ++ [QLog (LogBatchStart total); QStatus (StatusBatch 0 total)]
    ++ batch_messages isspace params env tag 1 chapters
    ++ [QProgress 100; QStatus (StatusBatchDone total); QLog LogAllDone;
        QLog LogBatchElapsed] /\
  (forall j ch, nth_error chapters j = Some ch ->
     exists before after,
       batch_messages isspace params env tag 1 chapters =
       before ++ chapter_messages isspace params env tag (Z.of_nat j + 1) ch
         ++ after) /\
  (forall i ch, forallb isspace (content_of ch) = true ->
     exists pct,
       chapter_messages isspace params env tag i ch =
       [QProgress pct; QStatus (StatusBatch (i - 1) total);
        QLog (LogSkipEmpty (title_of ch i))]) /\
  (forall i ch w0, 1 <= i <= total ->
     forallb isspace (content_of ch) = true ->
     exists w1,
       chapter_body isspace decimal params env tag i ch w0 = (w1, inr tt) /\
       events w1 =
         events w0
         ++ List.map Put (chapter_messages isspace params env tag i ch)) /\
  (forall i ch, forallb isspace (content_of ch) = false ->
     attempts_succeed (env i) (Z.to_nat MAX_RETRIES) 0 = false ->
     exists pct,
       chapter_messages isspace params env tag i ch =
       [QProgress pct; QStatus (StatusBatch (i - 1) total);
        QLog (LogProcess (title_of ch i));
        QLog (LogChapterFailed (title_of ch i))]) /\
  ui_of (events (final run)) =
    ui_of (events w) ++ [AskOpenDir; GenerateButton true] /\
  processing (final run) = false.
Proof.
  intros chapters total run Hlen. subst chapters total run.
  assert (Hp : forall j,
             1 - 1 <= j < 1 - 1 + Z.of_nat (List.length (b_chapters params)) ->
             progress_pct j (Z.of_nat (List.length (b_chapters params))) <> None).
  { intros j Hj. apply progress_pct_defined; lia. }
  destruct (chapter_loop_runs params env tag (b_chapters params) 1
              (mkworld (files w) (processing w)
                 ((events w
                   ++ [Put (QLog (LogBatchStart
                                    (Z.of_nat (List.length (b_chapters params)))))])
                  ++ [Put (QStatus (StatusBatch 0
                                      (Z.of_nat (List.length (b_chapters params)))))]))
              Hp)
    as [w1 [tr1 [E1 [Ev1 [P1 [Q1 U1]]]]]].
  cbn [events processing files] in Ev1, P1.
  split; [|split; [|split; [|split; [|split; [|split; [|split]]]]]].
  - unfold result, _generate_ebook_thread.
    unfold bind, put, emit, try_finally, try_catch, set_processing, ret.
    cbn [files processing events].
    rewrite E1. reflexivity.
  - unfold final, _generate_ebook_thread.
    unfold bind, put, emit, try_finally, try_catch, set_processing, ret.
    cbn [files processing events].
    rewrite E1. cbn [fst events]. rewrite Ev1.
    rewrite !queue_of_app, Q1. cbn [queue_of app].
    rewrite <- !app_assoc. reflexivity.
  - intros j ch Hn.
    destruct (batch_messages_nth params env tag (b_chapters params) 1 j ch Hn)
      as [before [after E]].
    exists before, after. rewrite E. do 3 f_equal. lia.
  - intros i ch Hb. unfold chapter_messages.
    apply strip_nil_iff in Hb. rewrite Hb. cbn [truthy negb].
    eexists. reflexivity.
  - intros i ch w0 Hi Hb. apply blank_chapter_is_skipped; [|exact Hb].
    apply progress_pct_defined; lia.
  - intros i ch Hb Hf. unfold chapter_messages.
    assert (Hc : truthy (strip isspace (content_of ch)) = true).
    { destruct (strip isspace (content_of ch)) eqn:Es; [|reflexivity].
      apply strip_nil_iff in Es. congruence. }
    rewrite Hc. cbn [negb]. unfold job_succeeds. rewrite Hf, andb_false_r.
    eexists. reflexivity.
  - unfold final, _generate_ebook_thread.
    unfold bind, put, emit, try_finally, try_catch, set_processing, ret.
    cbn [files processing events].
    rewrite E1. cbn [fst events]. rewrite Ev1.
    rewrite !ui_of_app, U1. cbn [ui_of app].
    rewrite !app_nil_r, <- app_assoc. reflexivity.
  - unfold final, _generate_ebook_thread.
    unfold bind, put, emit, try_finally, try_catch, set_processing, ret.
    cbn [files processing events].
    rewrite E1. reflexivity.
Qed.

(** ** The single-chapter thread *)

Lemma single_cover_runs (cover_path : option path) (epub_cover : option bytes)
    (opening : open_outcome) (w : world) :
  cover_raises cover_path opening w = None ->
  exists c, single_cover cover_path epub_cover opening w = (w, inr c).
Proof.
  unfold cover_raises, single_cover, bind, read_file, ret, raise.
  destruct cover_path as [p|].
  - destruct (files w p) as [f|].
    + destruct opening as [|e]; [eexists; reflexivity | discriminate].
    + destruct epub_cover as [[|b data]|]; eexists; reflexivity.
  - destruct epub_cover as [[|b data]|]; eexists; reflexivity.
Qed.

Lemma single_cover_raises (cover_path : option path)
    (epub_cover : option bytes) (opening : open_outcome) (w : world) (e : exn) :
  cover_raises cover_path opening w = Some e ->
  single_cover cover_path epub_cover opening w = (w, inl e).
Proof.
  unfold cover_raises, single_cover, bind, read_file, ret, raise.
  destruct cover_path as [p|]; [|discriminate].
  destruct opening as [|e0]; [discriminate|].
  destruct (files w p) as [f|]; [|discriminate].
  intros H. injection H as ->. reflexivity.
Qed.

(** The single-chapter thread always returns, and its [finally] block
    leaves the flag cleared. *)
Lemma single_thread_runs (params : single_params)
    (epub_cover : option bytes) (opening : open_outcome)
    (env : Z -> outcome) (tag : tag_outcome) (w : world) :
  exists w',
    _convert_single_chapter_thread isspace decimal params epub_cover opening
      env tag w = (w', inr tt) /\
    processing w' = false.
Proof.
  unfold _convert_single_chapter_thread.
  unfold bind, put, emit, try_finally, try_catch, set_processing, ret.
  cbn [files processing events].
  destruct (cover_raises (s_cover_path params) opening w) as [e|] eqn:Hc.
  { match goal with
    | |- context [single_cover ?a ?b ?o ?w0] =>
        rewrite (single_cover_raises a b o w0 e Hc)
    end.
    eexists; split; reflexivity. }
  match goal with
  | |- context [single_cover ?a ?b ?o ?w0] =>
      destruct (single_cover_runs a b o w0 Hc) as [c ->]
  end.
  cbn [files processing events].
  match goal with
  | |- context [process_text_to_mp3 ?a ?b ?c ?d ?e ?f ?g ?h ?k ?w0] =>
      destruct (process_text_to_mp3_runs a b c f d e g h k w0)
        as [w1 [tr1 [E1 _]]]
  end.
  rewrite E1.
  destruct (job_succeeds isspace (s_content params) MAX_RETRIES env).
  - match goal with
    | |- context [update_mp3_tag ?a ?b ?c ?d ?e ?f ?g ?h ?w0] =>
        destruct (update_mp3_tag_runs a b c d e f g h w0) as [w2 [tr2 [E2 _]]]
    end.
    rewrite E2.
    destruct (tag_succeeds tag && _); eexists; split; reflexivity.
  - eexists; split; reflexivity.
Qed.



End BatchRuns.

(** ** Names of the output files *)

Lemma app_self_singleton {A} (l : list A) (x : A) : l <> l ++ [x].
Proof.
  intros H. apply (f_equal (@List.length A)) in H.
  rewrite length_app in H. simpl in H. lia.
Qed.

(** The parameters the single-chapter handler hands to its thread. *)
Lemma convert_chapter_to_mp3_paths (isspace : char -> bool) (index : Z)
    (a : App.answers) (s : App.state) (p : single_params) :
  App.threads (App.convert_chapter_to_mp3 isspace index a s) =
    App.threads s ++ [App.SingleChapterWorker p] ->
  exists output_dir,
    s_output_mp3 p =
      mkpath output_dir
        (single_name (single_safe_title (s_chapter_title p) index) (lit "mp3")) /\
    s_output_lrc p =
      mkpath output_dir
        (single_name (single_safe_title (s_chapter_title p) index) (lit "lrc")).
Proof.
  unfold App.convert_chapter_to_mp3, App.choose_output_dir.
  destruct (App.epub_chapters s) as [chapters|];
    [|intros H; destruct (app_self_singleton _ _ H)].
  destruct (index <? 0); [intros H; destruct (app_self_singleton _ _ H)|].
  destruct (index >=? Z.of_nat (List.length chapters));
    [intros H; destruct (app_self_singleton _ _ H)|].
  destruct (negb (truthy (strip isspace _)));
    [intros H; destruct (app_self_singleton _ _ H)|].
  destruct (App.output_dir_var s) as [d|] eqn:Ed.
  - destruct (negb (App.askyesno a));
      [intros H; destruct (app_self_singleton _ _ H)|].
    cbn [App.start_thread App.threads]. intros H.
    apply app_inv_head in H. inversion H; subst. cbn. eauto.
  - destruct (App.askdirectory a) as [d|];
      [|intros H; destruct (app_self_singleton _ _ H)].
    destruct (negb (App.askyesno a));
      [intros H; destruct (app_self_singleton _ _ H)|].
    cbn [App.start_thread App.threads App.set_output_dir]. intros H.
    apply app_inv_head in H. inversion H; subst. cbn. eauto.
Qed.

(** The thousandth chapter of a batch: its prefix has four digits, so the
    name is not three characters followed by the dash and the title. *)
Lemma batch_prefix_of_chapter_1000 :
  batch_name 1000 (batch_safe_title (lit "t") 1000) (lit "mp3")
    = lit "1000-t.mp3" /\
  ~ (exists d1 d2 d3 : char,
       batch_name 1000 (batch_safe_title (lit "t") 1000) (lit "mp3")
       = [d1; d2; d3] ++ lit "-" ++ batch_safe_title (lit "t") 1000
           ++ lit ".mp3").
Proof.
  split; [reflexivity|].
  intros [d1 [d2 [d3 H]]]. vm_compute in H. discriminate.
Qed.

(** C8, as amended.  The safe name of either mode holds none of the nine
    characters the substitution removes; a title with nothing left after
    the removal gets the placeholder made of the two-character word for
    chapter and the 1-based number.  A batch output is named
    [<prefix>-<safe_title>.<ext>], where the prefix is the 1-based sequence
    number padded with zeros to at least three digits: exactly three up to
    999, all the digits of the number beyond.  A single-chapter output is
    [<safe_title>.<ext>] with no prefix.  These are the names the handler
    passes to its thread and the names of the files a batch chapter
    writes. *)
Theorem output_file_names (isspace : char -> bool) (decimal : char -> option Z)
    (title : str) (i index : Z) :
  (forall c, In c (batch_safe_title title i) -> is_illegal c = false) /\
  (forall c, In c (single_safe_title title index) -> is_illegal c = false) /\
  (strip_illegal title = [] ->
   single_safe_title title index = ZHANGJIE ++ str_of_int (index + 1) /\
   (0 <= i < 10 ^ 198 -> batch_safe_title title i = ZHANGJIE ++ str_of_int i)) /\
  (forall ext,
     batch_name i (batch_safe_title title i) ext =
       format_0d 3 i ++ lit "-" ++ batch_safe_title title i ++ lit "." ++ ext /\
     single_name (single_safe_title title index) ext =
       single_safe_title title index ++ lit "." ++ ext) /\
  (1 <= i ->
   int_of_digits ascii_digit_value (format_0d 3 i) = Some i /\
   (3 <= List.length (format_0d 3 i))%nat) /\
  (1 <= i <= 999 ->
   format_0d 3 i =
     [digit_char (i / 100); digit_char (i / 10 mod 10); digit_char (i mod 10)]) /\
  (999 < i ->
   format_0d 3 i = decimal_digits i /\ (3 < List.length (format_0d 3 i))%nat) /\
  (forall a s p,
     App.threads (App.convert_chapter_to_mp3 isspace index a s) =
       App.threads s ++ [App.SingleChapterWorker p] ->
     exists output_dir,
       s_output_mp3 p =
         mkpath output_dir
           (single_name (single_safe_title (s_chapter_title p) index)
              (lit "mp3")) /\
       s_output_lrc p =
         mkpath output_dir
           (single_name (single_safe_title (s_chapter_title p) index)
              (lit "lrc"))) /\
  (forall params env tag ch w,
     1 <= i <= Z.of_nat (List.length (b_chapters params)) ->
     Z.of_nat (List.length (b_chapters params)) < 2 ^ 53 ->
     truthy (strip isspace (content_of ch)) = true ->
     job_succeeds isspace (content_of ch) MAX_RETRIES (env i) = true ->
     let w' := final (chapter_body isspace decimal params env tag i ch w) in
     let safe_title := batch_safe_title (title_of ch i) i in
     files w' (mkpath (b_output_dir params)
                 (batch_name i safe_title (lit "mp3"))) <> None /\
     files w' (mkpath (b_output_dir params)
                 (batch_name i safe_title (lit "lrc"))) <> None).
Proof.
  split; [intros c; apply batch_safe_title_legal|].
  split; [intros c; apply single_safe_title_legal|].
  split.
  { intros E. unfold batch_safe_title, single_safe_title. rewrite E.
    cbn [truthy negb]. split; [reflexivity|]. intros Hi.
    destruct (len (ZHANGJIE ++ str_of_int i) >? 200) eqn:L; [|reflexivity].
    exfalso. apply Z.gtb_lt in L. unfold len in L. rewrite length_app in L.
    unfold str_of_int in L. destruct (Z.ltb_spec i 0); [lia|].
    pose proof (decimal_digits_length 197 i ltac:(lia)) as [_ Hl].
    change (Z.of_nat 198) with 198 in Hl. specialize (Hl ltac:(lia)).
    cbn [ZHANGJIE List.length] in L. lia. }
  split; [intros ext; split; reflexivity|].
  assert (Hwide : 999 < i ->
    format_0d 3 i = decimal_digits i /\ (3 < List.length (format_0d 3 i))%nat).
  { intros H. destruct (format_0d_wide 3 i) as [E L];
      [change (10 ^ Z.of_nat 3) with 1000; lia | lia |].
    rewrite E. auto. }
  split.
  { intros H. split; [apply format_0d_value; lia|].
    destruct (Z_le_gt_dec i 999) as [Hs|Hb].
    - rewrite format_0d_3_small by lia. simpl. lia.
    - destruct Hwide; lia. }
  split; [intros H; apply format_0d_3_small; lia|].
  split; [exact Hwide|].
  split; [intros a s p; apply convert_chapter_to_mp3_paths|].
  intros params env tag ch w Hi Hlen Hc Hj w' safe_title. subst w' safe_title.
  destruct (chapter_body_runs isspace decimal params env tag i ch w)
    as [w1 [tr [E [_ [_ [_ [_ [_ Hf]]]]]]]].
  { apply progress_pct_defined; lia. }
  unfold final. rewrite E. cbn [fst]. apply Hf; assumption.
Qed.

Lemma output_file_names_witness :
  batch_name 7 (batch_safe_title (lit "A/B:C") 7) (lit "mp3") = lit "007-ABC.mp3" /\
  single_name (single_safe_title (lit "A/B:C") 6) (lit "lrc") = lit "ABC.lrc" /\
  batch_safe_title (lit "?*|") 7 = ZHANGJIE ++ lit "7".
Proof.
  destruct (output_file_names ascii_isspace ascii_digit_value (lit "A/B:C") 7 6)
    as [_ [_ [_ [Hn [_ [H3 _]]]]]].
  destruct (output_file_names ascii_isspace ascii_digit_value (lit "?*|") 7 6)
    as [_ [_ [Hp _]]].
  destruct (Hn (lit "mp3")) as [Hb _]. destruct (Hn (lit "lrc")) as [_ Hs].
  destruct (Hp eq_refl) as [_ Hp7].
  split; [rewrite Hb, H3 by lia; reflexivity|].
  split; [rewrite Hs; reflexivity|].
  rewrite Hp7; [reflexivity|]. split; [lia | reflexivity].
Defined.

(** ** One conversion at a time *)

(** A confirmed request for a chapter with content starts a worker,
    whatever the flag says. *)
Lemma convert_chapter_to_mp3_starts (isspace : char -> bool) (index : Z)
    (a : App.answers) (s : App.state) (chapters : list chapter) (ch : chapter)
    (d : str) :
  App.epub_chapters s = Some chapters ->
  0 <= index ->
  List.nth_error chapters (Z.to_nat index) = Some ch ->
  truthy (strip isspace (content_of ch)) = true ->
  App.output_dir_var s = Some d ->
  App.askyesno a = true ->
  App.running (App.convert_chapter_to_mp3 isspace index a s)
    = S (App.running s) /\
  App.shown (App.convert_chapter_to_mp3 isspace index a s) = App.shown s /\
  App.busy (App.convert_chapter_to_mp3 isspace index a s) = App.busy s.
Proof.
  intros Hc Hi Hn Ht Hd Hy.
  unfold App.convert_chapter_to_mp3, App.choose_output_dir.
  rewrite Hc.
  destruct (Z.ltb_spec index 0); [lia|].
  assert (Hlen : (Z.to_nat index < List.length chapters)%nat).
  { apply nth_error_Some. congruence. }
  destruct (index >=? Z.of_nat (List.length chapters)) eqn:Hge.
  { apply Z.geb_le in Hge. lia. }
  rewrite (nth_error_nth chapters (Z.to_nat index) (mkchapter None None) Hn).
  change (match chapter_content ch with Some c => c | None => [] end)
    with (content_of ch).
  rewrite Ht, Hd, Hy. cbn [negb].
  unfold App.running, App.start_thread. cbn [App.threads App.shown App.busy].
  rewrite length_app. cbn [List.length]. split; [lia|]. split; reflexivity.
Qed.

(** C4.  The batch handler turns a request down with the busy warning
    while the flag is set and starts nothing.  The single-chapter handler
    does not look at the flag: with the flag set, a confirmed request for
    a chapter that has content starts one more worker and shows no
    warning; so with a batch running there are two conversions.  When that
    worker ends it clears the flag although the batch still runs, and a
    further batch can then be started beside it. *)
Theorem single_chapter_request_during_batch (a : App.answers) (s : App.state) :
  (App.busy s = true ->
   App.start_generate_ebook a s = App.show App.WarnBusy s /\
   App.running (App.start_generate_ebook a s) = App.running s) /\
  (forall isspace index chapters ch d,
     App.busy s = true ->
     App.epub_chapters s = Some chapters ->
     0 <= index ->
     List.nth_error chapters (Z.to_nat index) = Some ch ->
     truthy (strip isspace (content_of ch)) = true ->
     App.output_dir_var s = Some d ->
     App.askyesno a = true ->
     App.running (App.convert_chapter_to_mp3 isspace index a s)
       = S (App.running s) /\
     App.shown (App.convert_chapter_to_mp3 isspace index a s) = App.shown s) /\
  let s0 :=
    App.mkstate false
      (Some [mkchapter (Some (lit "one")) (Some (lit "text"))]) None
      (Some (lit "out")) (lit "voice") 15 (lit "artist") (lit "album") None
      App.NoCoverFile [] [] [] in
  let yes := App.mkanswers None true in
  let s1 := App.start_generate_ebook yes s0 in
  let s2 := App.convert_chapter_to_mp3 ascii_isspace 0 yes s1 in
  let started :=
    List.fold_left (fun st w => App.thread_begins w st) (App.threads s2) s2 in
  let s3 := App.thread_ends 1 started in
  App.busy s1 = true /\ App.running s1 = 1%nat /\
  App.running s2 = 2%nat /\ App.shown s2 = [] /\
  App.shown (App.start_generate_ebook yes s1) = [App.WarnBusy] /\
  App.busy s3 = false /\ App.running s3 = 1%nat /\
  App.running (App.start_generate_ebook yes s3) = 2%nat.
Proof.
  split; [|split].
  - intros H. unfold App.start_generate_ebook. rewrite H. split; reflexivity.
  - intros isspace index chapters ch d _ Hc Hi Hn Ht Hd Hy.
    destruct (convert_chapter_to_mp3_starts isspace index a s chapters ch d
                Hc Hi Hn Ht Hd Hy) as [R [Sh _]].
    split; assumption.
  - vm_compute. repeat split.
Qed.

(** ** The progress percentage *)

(** C6.  In a batch of 50 chapters the progress put on the queue before
    the 30th chapter is 57, where the exact quotient gives 58: the
    division and the multiplication are done in binary64.  The last
    progress of the batch is 100. *)
Theorem progress_before_chapter_30_of_50 :
  progress_pct (30 - 1) 50 = Some 57 /\
  (30 - 1) * 100 / 50 = 58 /\
  let params :=
    mkbatch (lit "out") (List.repeat (mkchapter (Some (lit "t")) (Some [])) 50)
      (lit "voice") 15 (lit "artist") (lit "album") None in
  let run :=
    _generate_ebook_thread ascii_isspace ascii_digit_value params
      (fun _ _ => Streamed [] []) (fun _ => Saves) initial_world in
  List.nth_error (queue_of (events (final run))) (2 + 3 * 29)
    = Some (QProgress 57) /\
  List.nth_error (queue_of (events (final run))) (2 + 3 * 29 + 1)
    = Some (QStatus (StatusBatch 29 50)) /\
  List.nth_error (queue_of (events (final run))) (2 + 3 * 50)
    = Some (QProgress 100).
Proof.
  vm_compute. repeat split.
Qed.

(** ** Instances *)

Lemma batch_survives_skips_and_failures_witness :
  let params :=
    mkbatch (lit "out")
      [mkchapter (Some (lit "a")) (Some (lit "text"));
       mkchapter (Some (lit "b")) (Some (lit "  "));
       mkchapter (Some (lit "c")) (Some (lit "more"))]
      (lit "voice") 15 (lit "artist") (lit "album") None in
  let env := fun (i _ : Z) =>
    if i =? 1 then CommunicateRaises (lit "offline") else Streamed [] [] in
  let run :=
    _generate_ebook_thread ascii_isspace ascii_digit_value params env
      (fun _ => Saves) initial_world in
  Z.of_nat (List.length (b_chapters params)) < 2 ^ 53 /\
  result run = inr tt /\
  queue_of (events (final run)) =
    [QLog (LogBatchStart 3); QStatus (StatusBatch 0 3);
     QProgress 0; QStatus (StatusBatch 0 3); QLog (LogProcess (lit "a"));
     QLog (LogChapterFailed (lit "a"));
     QProgress 33; QStatus (StatusBatch 1 3); QLog (LogSkipEmpty (lit "b"));
     QProgress 66; QStatus (StatusBatch 2 3); QLog (LogProcess (lit "c"));
     QLog (LogChapterDone (lit "c"));
     QProgress 100; QStatus (StatusBatchDone 3); QLog LogAllDone;
     QLog LogBatchElapsed].
Proof.
  intros params env run.
  assert (H : Z.of_nat (List.length (b_chapters params)) < 2 ^ 53)
    by reflexivity.
  split; [exact H|].
  destruct (batch_survives_skips_and_failures ascii_isspace ascii_digit_value
              params env (fun _ => Saves) initial_world H) as [R [Q _]].
  split; [exact R|]. fold run in Q. rewrite Q. reflexivity.
Defined.



(** ** The job: outcome of a late success, and what it never touches *)

Lemma failed_attempts_early_counts (text voice directory : str)
    (max_retries : Z) (env : Z -> outcome) (n : nat) : forall first,
  first + Z.of_nat n <= max_retries - 1 ->
  let tr := flat_map (failed_attempt_events text voice directory max_retries env)
              (attempts_from first n) in
  count is_attempt_failure tr = n /\ count is_sleep tr = n.
Proof.
  induction n as [|n IH]; intros first Hle; cbn zeta.
  - split; reflexivity.
  - rewrite attempts_from_S. cbn [flat_map]. rewrite !count_app.
    destruct (failed_attempt_counts text voice directory max_retries env first)
      as [Hf Hs].
    destruct (IH (first + 1) ltac:(lia)) as [IHf IHs].
    rewrite Hf, Hs, IHf, IHs.
    replace (first <? max_retries - 1) with true by (symmetry; apply Z.ltb_lt; lia).
    split; reflexivity.
Qed.

Section JobLate.

Variable isspace : char -> bool.
Variable decimal : char -> option Z.

(** What one attempt and the handler that follows it leave of the files:
    only the two output paths can differ. *)
Lemma attempt_body_frame (text voice : str) (output_audio output_lrc : path)
    (chars_per_line : Z) (o : outcome) (w : world) (p : path) :
  path_eqb p output_audio = false -> path_eqb p output_lrc = false ->
  files (fst (attempt_body isspace decimal text output_audio output_lrc voice
                chars_per_line o w)) p = files w p.
Proof.
  intros Ha Hl. unfold attempt_body.
  destruct (is_blank isspace text).
  - reflexivity.
  - destruct o;
      cbv [bind new_communicate makedirs stream_audio write_lrc raise emit
           write_file ret fst];
      cbn [events processing files]; rewrite ?Ha, ?Hl; reflexivity.
Qed.

Lemma on_error_run (attempt max_retries : Z) (e : exn) (w : world) :
  exists tr,
    on_error attempt max_retries e w =
      (mkworld (files w) (processing w) (events w ++ tr), inr tt) /\
    tr = (if attempt <? max_retries - 1 then
            [Stderr (AttemptError (attempt + 1) max_retries e);
             Stderr (WaitRetry RETRY_DELAY_SECONDS);
             Sleep RETRY_DELAY_SECONDS]
          else [Stderr (RetriesExhausted max_retries e); Stderr (Traceback e)]).
Proof.
  unfold on_error.
  destruct (attempt <? max_retries - 1);
    cbv [bind print_stderr emit]; cbn [events processing files];
    eexists; (split; [|reflexivity]); rewrite <- !app_assoc; reflexivity.
Qed.

Lemma retry_loop_frame (text voice : str) (output_audio output_lrc : path)
    (chars_per_line max_retries : Z) (env : Z -> outcome) (p : path)
    (todo : nat) : forall attempt w,
  path_eqb p output_audio = false -> path_eqb p output_lrc = false ->
  files (fst (retry_loop isspace decimal text output_audio output_lrc voice
                chars_per_line max_retries env todo attempt w)) p = files w p.
Proof.
  induction todo as [|todo IH]; intros attempt w Ha Hl.
  - reflexivity.
  - cbn [retry_loop].
    pose proof (attempt_body_frame text voice output_audio output_lrc
                  chars_per_line (env attempt) w p Ha Hl) as Hf.
    unfold bind at 1. unfold try_catch. unfold bind at 1.
    destruct (attempt_body isspace decimal text output_audio output_lrc voice
                chars_per_line (env attempt) w) as [w1 [e|b]].
    + cbn [fst] in Hf.
      destruct (on_error_run attempt max_retries e w1) as [tr [E _]].
      unfold bind at 1. rewrite E. cbv [ret].
      rewrite IH by assumption. cbn [files]. exact Hf.
    + cbv [ret]. cbn [fst] in *. exact Hf.
Qed.

Lemma attempt_body_streamed (text voice : str) (output_audio output_lrc : path)
    (chars_per_line : Z) (audio : bytes) (srt : str) (w : world) :
  is_blank isspace text = false ->
  exists w',
    attempt_body isspace decimal text output_audio output_lrc voice
      chars_per_line (Streamed audio srt) w = (w', inr true) /\
    events w' =
      events w ++ [Communicate text voice; Makedirs (dirname output_audio)] /\
    processing w' = processing w /\
    files w' output_lrc =
      Some (mkfile (convert_srt_to_lrc isspace decimal srt chars_per_line) None) /\
    (path_eqb output_audio output_lrc = false ->
     files w' output_audio = Some (mkfile audio None)).
Proof.
  intros Hb. unfold attempt_body. rewrite Hb.
  cbv [bind new_communicate makedirs stream_audio write_lrc raise emit
       write_file ret].
  eexists. split; [reflexivity|]. cbn [events processing files].
  rewrite <- app_assoc, ?path_eqb_refl.
  repeat split. intros ->. reflexivity.
Qed.

Lemma retry_loop_late_success (text voice : str) (output_audio output_lrc : path)
    (chars_per_line max_retries : Z) (env : Z -> outcome)
    (audio : bytes) (srt : str) (n : nat) :
  forall todo attempt w,
  is_blank isspace text = false ->
  (n < todo)%nat ->
  (forall j, attempt <= j < attempt + Z.of_nat n -> raised (env j) <> None) ->
  env (attempt + Z.of_nat n) = Streamed audio srt ->
  exists w',
    retry_loop isspace decimal text output_audio output_lrc voice
      chars_per_line max_retries env todo attempt w = (w', inr true) /\
    events w' =
      events w
      ++ flat_map (failed_attempt_events text voice (dirname output_audio)
                     max_retries env) (attempts_from attempt n)
      ++ [Communicate text voice; Makedirs (dirname output_audio)] /\
    processing w' = processing w /\
    files w' output_lrc =
      Some (mkfile (convert_srt_to_lrc isspace decimal srt chars_per_line) None) /\
    (path_eqb output_audio output_lrc = false ->
     files w' output_audio = Some (mkfile audio None)).
Proof.
  induction n as [|n IH]; intros todo attempt w Hb Hlt Hfail Hok.
  - destruct todo as [|todo]; [lia|].
    cbn [retry_loop]. rewrite Z.add_0_r in Hok. rewrite Hok.
    destruct (attempt_body_streamed text voice output_audio output_lrc
                chars_per_line audio srt w Hb) as [w1 [E1 [Ev1 [P1 [Fl Fa]]]]].
    unfold bind at 1. unfold try_catch. unfold bind at 1. rewrite E1.
    cbv [ret]. exists w1. cbn [attempts_from seq map flat_map app].
    auto.
  - destruct todo as [|todo]; [lia|].
    cbn [retry_loop].
    destruct (raised (env attempt)) as [e|] eqn:Hr;
      [|exfalso; apply (Hfail attempt); [lia | exact Hr]].
    destruct (attempt_body_raises isspace decimal text voice output_audio
                output_lrc chars_per_line (env attempt) e w Hb Hr)
      as [w1 [E1 [Ev1 P1]]].
    unfold bind at 1. unfold try_catch. unfold bind at 1. rewrite E1.
    destruct (on_error_run attempt max_retries e w1) as [tr [E2 Htr]].
    unfold bind at 1. rewrite E2. cbv [ret].
    destruct (IH todo (attempt + 1)
                (mkworld (files w1) (processing w1) (events w1 ++ tr)) Hb
                ltac:(lia)) as [w3 [E3 [Ev3 [P3 [Fl Fa]]]]].
    { intros j Hj. apply Hfail. lia. }
    { rewrite <- Hok. f_equal. lia. }
    exists w3. split; [exact E3|].
    cbn [events processing files] in Ev3, P3.
    split.
    + rewrite Ev3, Ev1, attempts_from_S. cbn [flat_map].
      unfold failed_attempt_events at 2. rewrite Hr, <- Htr, <- !app_assoc.
      reflexivity.
    + repeat split; [congruence | exact Fl | exact Fa].
Qed.

(** X1.  A job whose first [k] attempts raise and whose next attempt, still
    among the [max_retries] allowed, streams to its end, returns [True].
    Each failed attempt is reported and followed by one wait, the
    successful one only contacts the provider; the subtitle file holds the
    LRC text of the subtitles of that attempt and the audio file its
    audio, whatever a failed attempt had left there. *)
Theorem succeeds_after_failures (text voice : str)
    (output_audio output_lrc : path) (chars_per_line max_retries : Z)
    (env : Z -> outcome) (k : Z) (audio : bytes) (srt : str) (w : world) :
  is_blank isspace text = false ->
  0 <= k < max_retries ->
  (forall j, 0 <= j < k -> raised (env j) <> None) ->
  env k = Streamed audio srt ->
  let run :=
    process_text_to_mp3 isspace decimal text output_audio output_lrc voice
      chars_per_line max_retries env w in
  let failed :=
    flat_map (failed_attempt_events text voice (dirname output_audio)
                max_retries env) (attempts_from 0 (Z.to_nat k)) in
  result run = inr true /\
  events (final run) =
    events w ++ failed
    ++ [Communicate text voice; Makedirs (dirname output_audio)] /\
  count is_attempt_failure failed = Z.to_nat k /\
  count is_sleep failed = Z.to_nat k /\
  files (final run) output_lrc =
    Some (mkfile (convert_srt_to_lrc isspace decimal srt chars_per_line) None) /\
  (path_eqb output_audio output_lrc = false ->
   files (final run) output_audio = Some (mkfile audio None)).
Proof.
  intros Hb Hk Hfail Hok. cbn zeta. unfold process_text_to_mp3, final, result.
  destruct (retry_loop_late_success text voice output_audio output_lrc
              chars_per_line max_retries env audio srt (Z.to_nat k)
              (Z.to_nat max_retries) 0 w Hb ltac:(lia))
    as [w' [E [Ev [P [Fl Fa]]]]].
  { intros j Hj. apply Hfail. lia. }
  { rewrite <- Hok. f_equal. lia. }
  rewrite E. cbn [fst snd].
  destruct (failed_attempts_early_counts text voice (dirname output_audio)
              max_retries env (Z.to_nat k) 0 ltac:(lia)) as [Cf Cs].
  auto 10.
Qed.

Lemma attempt_body_untagged (text voice : str) (output_audio output_lrc : path)
    (chars_per_line : Z) (o : outcome) (w : world) (p : path) (f : file) :
  files (fst (attempt_body isspace decimal text output_audio output_lrc voice
                chars_per_line o w)) p = Some f ->
  id3 f <> None -> files w p = Some f.
Proof.
  unfold attempt_body.
  destruct (is_blank isspace text).
  - cbv [bind print_stderr emit ret fst]. cbn [files]. auto.
  - destruct o;
      cbv [bind new_communicate makedirs stream_audio write_lrc raise emit
           write_file ret fst];
      cbn [events processing files]; auto;
      repeat (destruct (path_eqb p _));
      intros H Hid; try exact H; injection H as <-; cbn [id3] in Hid;
      contradiction.
Qed.

Lemma retry_loop_untagged (text voice : str) (output_audio output_lrc : path)
    (chars_per_line max_retries : Z) (env : Z -> outcome) (p : path) (f : file)
    (todo : nat) : forall attempt w,
  files (fst (retry_loop isspace decimal text output_audio output_lrc voice
                chars_per_line max_retries env todo attempt w)) p = Some f ->
  id3 f <> None -> files w p = Some f.
Proof.
  induction todo as [|todo IH]; intros attempt w.
  - cbn. auto.
  - cbn [retry_loop].
    pose proof (attempt_body_untagged text voice output_audio output_lrc
                  chars_per_line (env attempt) w p f) as Hf.
    unfold bind at 1. unfold try_catch. unfold bind at 1.
    destruct (attempt_body isspace decimal text output_audio output_lrc voice
                chars_per_line (env attempt) w) as [w1 [e|b]].
    + cbn [fst] in Hf.
      destruct (on_error_run attempt max_retries e w1) as [tr [E _]].
      unfold bind at 1. rewrite E. cbv [ret].
      intros H Hid. apply IH in H; [|exact Hid]. cbn [files] in H. auto.
    + cbv [ret]. cbn [fst] in *. exact Hf.
Qed.

(** A job never leaves a tagged file that was not there before. *)
Lemma job_untagged (text voice : str) (output_audio output_lrc : path)
    (chars_per_line max_retries : Z) (env : Z -> outcome) (w : world)
    (p : path) (f : file) :
  files (fst (process_text_to_mp3 isspace decimal text output_audio output_lrc
                voice chars_per_line max_retries env w)) p = Some f ->
  id3 f <> None -> files w p = Some f.
Proof. apply retry_loop_untagged. Qed.

(** Whatever the provider does, a job leaves every file other than its
    two outputs as it found it. *)
Lemma job_frame (text voice : str) (output_audio output_lrc : path)
    (chars_per_line max_retries : Z) (env : Z -> outcome) (w : world) (p : path) :
  path_eqb p output_audio = false -> path_eqb p output_lrc = false ->
  files (fst (process_text_to_mp3 isspace decimal text output_audio output_lrc
                voice chars_per_line max_retries env w)) p = files w p.
Proof. apply retry_loop_frame. Qed.

Lemma retry_loop_bounds (text voice : str) (output_audio output_lrc : path)
    (chars_per_line max_retries : Z) (env : Z -> outcome) (todo : nat) :
  forall attempt w,
  todo = 0%nat \/ attempt + Z.of_nat todo = max_retries ->
  exists tr,
    events (fst (retry_loop isspace decimal text output_audio output_lrc voice
                   chars_per_line max_retries env todo attempt w))
      = events w ++ tr /\
    (count is_contact tr <= todo)%nat /\
    (count is_attempt_failure tr <= todo)%nat /\
    (count is_sleep tr <= todo - 1)%nat.
Proof.
  induction todo as [|todo IH]; intros attempt w Hm.
  - exists []. cbn. rewrite app_nil_r. auto.
  - destruct Hm as [Hm|Hm]; [discriminate|].
    cbn [retry_loop].
    unfold bind at 1. unfold try_catch. unfold bind at 1.
    assert (Hbody : exists w1 r tr1,
               attempt_body isspace decimal text output_audio output_lrc voice
                 chars_per_line (env attempt) w = (w1, r) /\
               events w1 = events w ++ tr1 /\
               (count is_contact tr1 <= 1)%nat /\
               count is_attempt_failure tr1 = 0%nat /\
               count is_sleep tr1 = 0%nat).
    { unfold attempt_body. destruct (is_blank isspace text).
      - cbv [bind print_stderr emit ret]. do 2 eexists. exists [Stderr WarnEmptyText].
        cbn [events]. repeat split. cbn. lia.
      - destruct (env attempt);
          cbv [bind new_communicate makedirs stream_audio write_lrc raise emit
               write_file ret];
          cbn [events processing files];
          do 2 eexists;
          [ exists []
          | exists [Communicate text voice]
          | exists [Communicate text voice; Makedirs (dirname output_audio)]
          | exists [Communicate text voice; Makedirs (dirname output_audio)]
          | exists [Communicate text voice; Makedirs (dirname output_audio)]
          | exists [Communicate text voice; Makedirs (dirname output_audio)] ];
          (split; [reflexivity|]); cbn [events];
          rewrite <- ?app_assoc, ?app_nil_r; repeat split; cbn; lia. }
    destruct Hbody as [w1 [r [tr1 [E1 [Ev1 [C1 [F1 S1]]]]]]].
    rewrite E1. destruct r as [e|b].
    + destruct (on_error_run attempt max_retries e w1) as [tr2 [E2 Htr]].
      unfold bind at 1. rewrite E2. cbv [ret].
      assert (Hrest : todo = 0%nat \/ attempt + 1 + Z.of_nat todo = max_retries)
        by (right; lia).
      destruct (IH (attempt + 1)
                  (mkworld (files w1) (processing w1) (events w1 ++ tr2)) Hrest)
        as [tr3 [Ev3 [C3 [F3 S3]]]].
      exists (tr1 ++ tr2 ++ tr3).
      cbn [events] in Ev3. rewrite Ev3, Ev1, <- !app_assoc.
      split; [reflexivity|]. rewrite !count_app, F1, S1.
      destruct (attempt <? max_retries - 1) eqn:Hlt; subst tr2; cbn [count filter
        is_contact is_attempt_failure is_sleep List.length].
      * apply Z.ltb_lt in Hlt. assert (1 <= todo)%nat by lia. lia.
      * apply Z.ltb_ge in Hlt. assert (todo = 0%nat) by lia. subst todo.
        lia.
    + cbv [ret]. exists tr1. cbn [fst]. rewrite F1, S1.
      split; [exact Ev1|]. lia.
Qed.

(** X2.  Whatever the provider does and whatever the text is, a job contacts
    the provider and reports a failed attempt at most [max_retries] times
    each, waits less often than that, and changes no file but its two
    outputs. *)
Theorem job_stays_within_its_retries (text voice : str)
    (output_audio output_lrc : path) (chars_per_line max_retries : Z)
    (env : Z -> outcome) (w : world) :
  let run :=
    process_text_to_mp3 isspace decimal text output_audio output_lrc voice
      chars_per_line max_retries env w in
  exists tr,
    events (final run) = events w ++ tr /\
    (count is_contact tr <= Z.to_nat max_retries)%nat /\
    (count is_attempt_failure tr <= Z.to_nat max_retries)%nat /\
    (count is_sleep tr <= Z.to_nat max_retries - 1)%nat /\
    (forall p, path_eqb p output_audio = false ->
               path_eqb p output_lrc = false ->
               files (final run) p = files w p).
Proof.
  cbn zeta. unfold final.
  destruct (retry_loop_bounds text voice output_audio output_lrc chars_per_line
              max_retries env (Z.to_nat max_retries) 0 w) as [tr [Ev [C [F S]]]].
  { destruct (Z.to_nat max_retries) eqn:E; [left; reflexivity | right; lia]. }
  exists tr. unfold process_text_to_mp3. repeat split; try assumption.
  intros p Ha Hl. apply retry_loop_frame; assumption.
Qed.

End JobLate.

Lemma succeeds_after_failures_witness :
  let env := fun j : Z =>
    if j <? 2 then StreamRaises [9%N] (lit "reset") else Streamed [1%N; 2%N] [] in
  let run :=
    process_text_to_mp3 ascii_isspace ascii_digit_value (lit "text")
      (mkpath (lit "out") (lit "a.mp3")) (mkpath (lit "out") (lit "a.lrc"))
      (lit "voice") 15 MAX_RETRIES env initial_world in
  result run = inr true /\
  count is_sleep (events (final run)) = 2%nat /\
  files (final run) (mkpath (lit "out") (lit "a.mp3"))
    = Some (mkfile [1%N; 2%N] None).
Proof.
  cbn zeta.
  pose proof (succeeds_after_failures ascii_isspace ascii_digit_value
                (lit "text") (lit "voice")
                (mkpath (lit "out") (lit "a.mp3")) (mkpath (lit "out") (lit "a.lrc"))
                15 MAX_RETRIES
                (fun j : Z => if j <? 2 then StreamRaises [9%N] (lit "reset")
                              else Streamed [1%N; 2%N] [])
                2 [1%N; 2%N] [] initial_world) as H.
  cbn zeta in H.
  assert (H1 : is_blank ascii_isspace (lit "text") = false) by reflexivity.
  assert (H2 : 0 <= 2 < MAX_RETRIES) by (unfold MAX_RETRIES; lia).
  assert (H3 : forall j, 0 <= j < 2 ->
            raised ((fun j : Z => if j <? 2 then StreamRaises [9%N] (lit "reset")
                                  else Streamed [1%N; 2%N] []) j) <> None).
  { intros j Hj. cbn beta. replace (j <? 2) with true by (symmetry; apply Z.ltb_lt; lia).
    discriminate. }
  specialize (H H1 H2 H3 eq_refl).
  destruct H as [R [Ev [Cf [Cs [Fl Fa]]]]].
  split; [exact R|]. split; [|apply Fa; reflexivity].
  vm_compute. reflexivity.
Defined.

(** ** Names of the batch outputs *)




Lemma format_0d_ascii (w : nat) (v : Z) :
  0 <= v -> forallb is_ascii_digit (format_0d w v) = true.
Proof.
  intros Hv. unfold format_0d.
  replace (v <? 0) with false by (symmetry; apply Z.ltb_ge; lia).
  rewrite Z.abs_eq by lia. rewrite forallb_app, decimal_digits_ascii by lia.
  rewrite andb_true_r. induction (w - List.length (decimal_digits v))%nat;
    [reflexivity | cbn [repeat forallb]; rewrite IHn; reflexivity].
Qed.

(** Two strings of digits followed by a hyphen: the digits are the same. *)
Lemma digits_before_hyphen (a : str) : forall b r r',
  forallb is_ascii_digit a = true -> forallb is_ascii_digit b = true ->
  a ++ 45%N :: r = b ++ 45%N :: r' -> a = b.
Proof.
  induction a as [|x a IH]; intros [|y b] r r' Ha Hb E; cbn in *.
  - reflexivity.
  - injection E as E1 _. subst y. discriminate.
  - injection E as E1 _. subst x. discriminate.
  - injection E as -> E. apply andb_true_iff in Ha, Hb.
    f_equal. eapply IH; [apply Ha | apply Hb | exact E].
Qed.

Lemma batch_name_inj (i i' : Z) (s s' e e' : str) :
  0 <= i -> 0 <= i' ->
  batch_name i s e = batch_name i' s' e' -> i = i'.
Proof.
  intros Hi Hi' E. unfold batch_name in E.
  change (lit "-" ++ ?x) with (45%N :: x) in E.
  apply digits_before_hyphen in E; try (apply format_0d_ascii; assumption).
  pose proof (format_0d_value 3 i Hi) as V.
  pose proof (format_0d_value 3 i' Hi') as V'.
  rewrite E in V. congruence.
Qed.

Lemma str_eqb_app_l (x a b : str) : str_eqb (x ++ a) (x ++ b) = str_eqb a b.
Proof.
  induction x as [|c x IH]; [reflexivity|].
  cbn [app str_eqb]. unfold char_eqb. rewrite N.eqb_refl. exact IH.
Qed.

Lemma batch_outputs_differ (d : str) (i : Z) (s : str) :
  path_eqb (mkpath d (batch_name i s (lit "mp3")))
           (mkpath d (batch_name i s (lit "lrc"))) = false.
Proof.
  unfold path_eqb, batch_name. cbn [dirname basename].
  rewrite !str_eqb_app_l. apply andb_false_r.
Qed.

(** ** The tagger on a fresh audio file *)



Section ThreadRuns.

Variable isspace : char -> bool.
Variable decimal : char -> option Z.





(** X4.  The single-chapter thread when the cover, if one is named, can be
    read and the job fails (every attempt raises): the failure is logged,
    shown as the status and in an error box; the progress stays at 0, the
    tagger is not run, no file other than the two outputs is touched, and
    the button is enabled again. *)
Theorem single_chapter_failure (params : single_params)
    (epub_cover : option bytes) (opening : open_outcome)
    (env : Z -> outcome) (tag : tag_outcome) (w : world) :
  cover_raises (s_cover_path params) opening w = None ->
  job_succeeds isspace (s_content params) MAX_RETRIES env = false ->
  let run :=
    _convert_single_chapter_thread isspace decimal params epub_cover opening
      env tag w in
  let title := s_chapter_title params in
  result run = inr tt /\
  queue_of (events (final run)) =
    queue_of (events w)
    ++ [QLog (LogStartChapter title); QStatus (StatusConverting title);
        QProgress 0; QLog LogGenerating; QLog LogGenFailed; QStatus StatusFailed] /\
  ui_of (events (final run)) =
    ui_of (events w)
    ++ [ConvertButton false; ShowError generation_failed; ConvertButton true] /\
  (forall p, path_eqb p (s_output_mp3 params) = false ->
             path_eqb p (s_output_lrc params) = false ->
             files (final run) p = files w p) /\
  (forall p f, files (final run) p = Some f -> id3 f <> None ->
               files w p = Some f) /\
  processing (final run) = false.
Proof.
  intros Hcov Hj. cbn zeta. unfold final, result.
  unfold _convert_single_chapter_thread.
  unfold bind, put, emit, try_finally, try_catch, set_processing, ret.
  cbn [files processing events].
  match goal with
  | |- context [single_cover ?a ?b ?o ?w0] =>
      destruct (single_cover_runs a b o w0 Hcov) as [c ->]
  end.
  cbn [files processing events].
  match goal with
  | |- context [process_text_to_mp3 ?a ?b ?c ?d ?e ?f ?g ?h ?k ?w0] =>
      destruct (process_text_to_mp3_runs a b c f d e g h k w0)
        as [w1 [tr1 [E1 [Ev1 [P1 [Q1 [U1 F1]]]]]]];
      pose proof (job_frame a b c f d e g h k w0) as Fr;
      pose proof (job_untagged a b c f d e g h k w0) as Fu
  end.
  rewrite E1 in Fr, Fu |- *. rewrite Hj. cbn [files processing events fst] in *.
  rewrite Ev1, !queue_of_app, !ui_of_app, Q1, U1.
  cbn [queue_of ui_of app]. rewrite ?app_nil_r, <- !app_assoc.
  cbn [app].
  repeat split; try reflexivity; assumption.
Qed.


End ThreadRuns.

Section BatchFiles.

Variable isspace : char -> bool.
Variable decimal : char -> option Z.






End BatchFiles.

(** ** Length of the merged lines *)

Lemma removelast_cons_cons {A} (x y : A) (l : list A) :
  removelast (x :: y :: l) = x :: removelast (y :: l).
Proof. reflexivity. Qed.

Lemma Forall_removelast_cons {A} (P : A -> Prop) (x : A) (l : list A) :
  (l <> [] -> P x) -> Forall P (removelast l) -> Forall P (removelast (x :: l)).
Proof.
  intros Hx Hl. destruct l as [|y l]; [constructor|].
  rewrite removelast_cons_cons. constructor; [apply Hx; discriminate | exact Hl].
Qed.

Lemma merge_loop_nil_inv (cpl n : Z) (items : list item) :
  forall i ct ctime,
  merge_loop cpl n i items ct ctime [] <> [] -> items <> [].
Proof. intros i ct ctime H ->. apply H. reflexivity. Qed.

Lemma merge_loop_full (cpl n : Z) (items : list item) :
  forall i ct ctime,
  i + Z.of_nat (List.length items) = n ->
  (truthy ct = true -> ctime <> None) ->
  let lines := merge_loop cpl n i items ct ctime [] in
  Forall (fun l => truthy (snd l) = true) lines /\
  Forall (fun l => len (snd l) >= cpl) (removelast lines) /\
  (List.length lines <= List.length items)%nat.
Proof.
  induction items as [|[t text] rest IH]; intros i ct ctime Hn Hct; cbn zeta.
  - cbn. repeat split; constructor.
  - cbn [merge_loop List.length] in *.
    set (ctime' := if negb (truthy ct) then Some t else ctime).
    assert (Hct' : ctime' <> None).
    { unfold ctime'. destruct (truthy ct); cbn [negb]; [auto | discriminate]. }
    destruct ((len (ct ++ text) >=? cpl) || (i =? n - 1)) eqn:Hc.
    + destruct (IH (i + 1) [] ctime' ltac:(lia) ltac:(discriminate))
        as [IH1 [IH2 IH3]].
      destruct (truthy (ct ++ text)) eqn:Ht.
      * destruct ctime' as [t'|]; [|contradiction].
        rewrite merge_loop_acc. cbn [app].
        split; [constructor; [exact Ht | exact IH1]|].
        split; [|cbn [List.length]; lia].
        apply Forall_removelast_cons; [|exact IH2].
        intros Hne. apply merge_loop_nil_inv in Hne.
        apply orb_true_iff in Hc. destruct Hc as [Hc|Hc].
        -- cbn [snd]. apply Z.geb_le in Hc. lia.
        -- apply Z.eqb_eq in Hc. destruct rest; [contradiction|].
           cbn [List.length] in Hn. lia.
      * split; [exact IH1|]. split; [exact IH2 | lia].
    + destruct (IH (i + 1) (ct ++ text) ctime' ltac:(lia) ltac:(auto))
        as [IH1 [IH2 IH3]].
      split; [exact IH1|]. split; [exact IH2 | lia].
Qed.

(** X7.  Every line of the merged output has text, every line but the last
    has at least [chars_per_line] characters, and there are no more lines
    than fragments. *)
Theorem merged_lines_are_full (fragments : list item) (chars_per_line : Z) :
  let lines := merge_items fragments chars_per_line in
  Forall (fun l => snd l <> []) lines /\
  Forall (fun l => len (snd l) >= chars_per_line) (removelast lines) /\
  (List.length lines <= List.length fragments)%nat.
Proof.
  cbn zeta. unfold merge_items.
  destruct (merge_loop_full chars_per_line
              (Z.of_nat (List.length (sort_by_time fragments)))
              (sort_by_time fragments) 0 [] None ltac:(lia) ltac:(discriminate))
    as [H1 [H2 H3]].
  split; [|split; [exact H2|]].
  - eapply Forall_impl; [|exact H1]. intros [t s] H. cbn in *.
    destruct s; discriminate.
  - rewrite (Permutation_length (sort_by_time_perm fragments)). exact H3.
Qed.

Lemma merge_loop_long (cpl n : Z) (items : list item) :
  forall i ctime,
  Forall (fun f => snd f <> [] /\ len (snd f) >= cpl) items ->
  merge_loop cpl n i items [] ctime [] = items.
Proof.
  induction items as [|[t text] rest IH]; intros i ctime Hall.
  - reflexivity.
  - inversion Hall as [|x l [Ht Hl] Hrest]; subst. cbn [snd] in *.
    cbn [merge_loop truthy negb app].
    replace (len text >=? cpl) with true by (symmetry; apply Z.geb_le; lia).
    cbn [orb]. destruct text as [|c text]; [contradiction|].
    cbn [truthy]. rewrite merge_loop_acc, IH by exact Hrest. reflexivity.
Qed.

(** X8.  Fragments that are each at least [chars_per_line] long are not merged:
    the lines are the fragments, in the order of their offsets. *)
Theorem long_fragments_are_not_merged (fragments : list item)
    (chars_per_line : Z) :
  Forall (fun f => snd f <> [] /\ len (snd f) >= chars_per_line) fragments ->
  merge_items fragments chars_per_line = sort_by_time fragments.
Proof.
  intros H. unfold merge_items. apply merge_loop_long.
  eapply Permutation_Forall; [apply sort_by_time_perm | exact H].
Qed.

Lemma long_fragments_are_not_merged_witness :
  Forall (fun f : item => snd f <> [] /\ len (snd f) >= 1)
    [(500, lit "b"); (0, lit "a")] /\
  merge_items [(500, lit "b"); (0, lit "a")] 1 = [(0, lit "a"); (500, lit "b")].
Proof.
  assert (H : Forall (fun f : item => snd f <> [] /\ len (snd f) >= 1)
                [(500, lit "b"); (0, lit "a")]).
  { repeat constructor; cbn; try discriminate; lia. }
  split; [exact H|].
  exact (long_fragments_are_not_merged [(500, lit "b"); (0, lit "a")] 1 H).
Defined.

(** ** Lines of a block and the time stamp of a cue *)

Lemma split_go_line (a : str) : forall b cur,
  ~ In LF a ->
  split_go [LF] (a ++ LF :: b) 0 cur = (List.rev cur ++ a) :: split_go [LF] b 0 [].
Proof.
  induction a as [|c a IH]; intros b cur Hn.
  - cbn [app split_go startswith]. unfold char_eqb. rewrite N.eqb_refl.
    cbn [andb List.length Nat.pred]. rewrite app_nil_r. reflexivity.
  - cbn [app split_go startswith].
    replace (char_eqb LF c) with false.
    2:{ symmetry. unfold char_eqb. apply N.eqb_neq. intros E. apply Hn. left.
        symmetry. exact E. }
    cbn [andb]. rewrite IH by (intros H; apply Hn; right; exact H).
    cbn [List.rev]. rewrite <- app_assoc. reflexivity.
Qed.

Lemma split_go_no_sep (a : str) : forall cur,
  ~ In LF a -> split_go [LF] a 0 cur = [List.rev cur ++ a].
Proof.
  induction a as [|c a IH]; intros cur Hn.
  - cbn. rewrite app_nil_r. reflexivity.
  - cbn [split_go startswith].
    replace (char_eqb LF c) with false.
    2:{ symmetry. unfold char_eqb. apply N.eqb_neq. intros E. apply Hn. left.
        symmetry. exact E. }
    cbn [andb]. rewrite IH by (intros H; apply Hn; right; exact H).
    cbn [List.rev]. rewrite <- app_assoc. reflexivity.
Qed.

(** [split] undoes [join] on lines without a line feed. *)
Lemma split_join_lines (ls : list str) :
  ls <> [] -> Forall (fun l => ~ In LF l) ls ->
  split [LF] (join [LF] ls) = ls.
Proof.
  induction ls as [|l ls IH]; [contradiction|]. intros _ Hall.
  inversion Hall as [|x y Hl Hls]; subst.
  destruct ls as [|l' ls].
  - cbn [join]. unfold split. rewrite split_go_no_sep by exact Hl. reflexivity.
  - change (join [LF] (l :: l' :: ls)) with (l ++ LF :: join [LF] (l' :: ls)).
    unfold split. rewrite split_go_line by exact Hl.
    cbn [List.rev app]. f_equal. apply IH; [discriminate | exact Hls].
Qed.

(** A text that is one trimmed block is the only block of itself. *)
Lemma convert_single_block (isspace : char -> bool)
    (decimal : char -> option Z) (b : str) (cpl : Z) :
  trimmed isspace b = true ->
  convert_srt_to_lrc isspace decimal b cpl =
  lrc_of_blocks isspace decimal [b] cpl.
Proof.
  intros H.
  exact (convert_joined isspace decimal [b] cpl (Forall_cons b H (Forall_nil _))).
Qed.

Section Cue.

Variable isspace : char -> bool.
Variable decimal : char -> option Z.

Hypothesis decimal_digit : forall d, 0 <= d < 10 -> decimal (digit_char d) = Some d.
Hypothesis digit_not_space : forall d, 0 <= d < 10 -> isspace (digit_char d) = false.

Lemma two_digits_format (v : Z) :
  0 <= v < 100 ->
  exists a b, format_0d 2 v = [a; b] /\ two_digits decimal a b = Some v /\
              a = digit_char (v / 10) /\ b <> LF /\ a <> LF.
Proof.
  intros Hv. exists (digit_char (v / 10)), (digit_char (v mod 10)).
  split; [apply format_0d_2_small; exact Hv|].
  unfold two_digits.
  rewrite !decimal_digit
    by (try apply Z.mod_pos_bound; try split;
        try apply Z.div_pos; try apply Z.div_lt_upper_bound; lia).
  split; [f_equal; rewrite (Z.div_mod v 10) at 3 by lia; reflexivity|].
  split; [reflexivity|].
  assert (Hm : 0 <= v mod 10 < 10) by (apply Z.mod_pos_bound; lia).
  assert (Hd : 0 <= v / 10 < 10)
    by (split; [apply Z.div_pos | apply Z.div_lt_upper_bound]; lia).
  unfold digit_char, LF. split; lia.
Qed.

Lemma three_digits_format (v : Z) :
  0 <= v < 1000 ->
  exists a b c, format_0d 3 v = [a; b; c] /\ three_digits decimal a b c = Some v /\
                a <> LF /\ b <> LF /\ c <> LF.
Proof.
  intros Hv.
  exists (digit_char (v / 100)), (digit_char (v / 10 mod 10)), (digit_char (v mod 10)).
  split; [apply format_0d_3_small; exact Hv|].
  assert (Hm : 0 <= v mod 10 < 10) by (apply Z.mod_pos_bound; lia).
  assert (Hm2 : 0 <= v / 10 mod 10 < 10) by (apply Z.mod_pos_bound; lia).
  assert (Hd : 0 <= v / 100 < 10)
    by (split; [apply Z.div_pos | apply Z.div_lt_upper_bound]; lia).
  unfold three_digits. rewrite !decimal_digit by assumption.
  split.
  - f_equal.
    assert (E1 : v = 10 * (v / 10) + v mod 10) by (apply Z.div_mod; lia).
    assert (E2 : v / 10 = 10 * (v / 10 / 10) + v / 10 mod 10)
      by (apply Z.div_mod; lia).
    rewrite Z.div_div in E2 by lia. change (10 * 10) with 100 in E2. lia.
  - unfold digit_char, LF. repeat split; lia.
Qed.

(** Reading back a time stamp gives its four fields. *)
Lemma re_search_stamp (h m s ms : Z) (rest : str) :
  0 <= h < 100 -> 0 <= m < 100 -> 0 <= s < 100 -> 0 <= ms < 1000 ->
  re_search decimal (srt_stamp h m s ms ++ rest) = Some (h, m, s, ms).
Proof.
  intros Hh Hm Hs Hms. unfold srt_stamp.
  destruct (two_digits_format h Hh) as [h1 [h2 [-> [Eh _]]]].
  destruct (two_digits_format m Hm) as [m1 [m2 [-> [Em _]]]].
  destruct (two_digits_format s Hs) as [s1 [s2 [-> [Es _]]]].
  destruct (three_digits_format ms Hms) as [l1 [l2 [l3 [-> [El _]]]]].
  cbn [app]. destruct rest; cbn [re_search match_here];
    unfold char_eqb; rewrite !N.eqb_refl; cbn [andb];
    rewrite Eh, Em, Es, El; reflexivity.
Qed.

Lemma stamp_no_LF (h m s ms : Z) :
  0 <= h < 100 -> 0 <= m < 100 -> 0 <= s < 100 -> 0 <= ms < 1000 ->
  ~ In LF (srt_stamp h m s ms).
Proof.
  intros Hh Hm Hs Hms. unfold srt_stamp.
  destruct (two_digits_format h Hh) as [h1 [h2 [-> [_ [_ [? ?]]]]]].
  destruct (two_digits_format m Hm) as [m1 [m2 [-> [_ [_ [? ?]]]]]].
  destruct (two_digits_format s Hs) as [s1 [s2 [-> [_ [_ [? ?]]]]]].
  destruct (three_digits_format ms Hms) as [l1 [l2 [l3 [-> [_ [? [? ?]]]]]]].
  cbn [app In]. unfold COLON, COMMA, LF in *.
  intros H'. repeat (destruct H' as [H'|H']; [try congruence; try discriminate|]).
  exact H'.
Qed.

(** X9.  A well-formed cue: a counter line, a time line that starts with the
    time stamp, the text line, and possibly further lines.  The block
    yields the offset of the stamp in milliseconds and the first text
    line; its further lines yield nothing.  Converted alone by
    [convert_srt_to_lrc], a cue without whitespace at its ends and without
    a blank line inside gives the line [[MM:SS.cc]text] with the hours
    folded into the minutes and the milliseconds cut to hundredths. *)
Theorem cue_is_parsed (h m s ms : Z) (counter tail text : str)
    (more : list str) (chars_per_line : Z) :
  0 <= h < 100 -> 0 <= m < 60 -> 0 <= s < 60 -> 0 <= ms < 1000 ->
  Forall (fun l => ~ In LF l) (counter :: tail :: text :: more) ->
  let block :=
    join [LF] (counter :: (srt_stamp h m s ms ++ tail) :: text :: more) in
  parse_block isspace decimal block =
    Some ((h * 3600 + m * 60 + s) * 1000 + ms, text) /\
  (trimmed isspace block = true -> text <> [] ->
   convert_srt_to_lrc isspace decimal block chars_per_line =
     lit "[" ++ format_0d 2 (h * 60 + m) ++ lit ":" ++ format_0d 2 s ++ lit "."
       ++ format_0d 2 (ms / 10) ++ lit "]" ++ text).
Proof.
  intros Hh Hm Hs Hms Hall. cbn zeta.
  assert (Hp : parse_block isspace decimal
                 (join [LF] (counter :: (srt_stamp h m s ms ++ tail) :: text :: more)) =
               Some ((h * 3600 + m * 60 + s) * 1000 + ms, text)).
  { unfold parse_block. rewrite split_join_lines; [|discriminate|].
    2:{ inversion Hall as [|? ? Hc H1]; subst.
        inversion H1 as [|? ? Ht H2]; subst.
        constructor; [exact Hc|]. constructor; [|exact H2].
        intros Hin. apply in_app_or in Hin. destruct Hin as [Hin|Hin];
          [|contradiction].
        apply (stamp_no_LF h m s ms); try assumption; lia. }
    cbn [List.length line nth]. 
    replace (3 <=? S (S (S (List.length more))))%nat with true
      by (symmetry; apply Nat.leb_le; lia).
    cbn [andb].
    assert (Hne : truthy (strip isspace (srt_stamp h m s ms ++ tail)) = true).
    { destruct (strip isspace (srt_stamp h m s ms ++ tail)) eqn:E; [|reflexivity].
      apply strip_nil_iff in E. unfold srt_stamp in E.
      destruct (two_digits_format h ltac:(lia)) as [h1 [h2 [Ef [_ [-> _]]]]].
      rewrite Ef in E. cbn [app forallb] in E.
      rewrite digit_not_space in E; [discriminate|].
      split; [apply Z.div_pos | apply Z.div_lt_upper_bound]; lia. }
    rewrite Hne, re_search_stamp by lia. reflexivity. }
  split; [exact Hp|].
  intros Htr Ht. rewrite (convert_single_block isspace decimal _ _ Htr).
  unfold lrc_of_blocks. cbn [items_of_blocks]. rewrite Hp.
  unfold lrc_of_items, merge_items. cbn [sort_by_time insert_by_time List.length].
  cbn [merge_loop truthy negb app Z.of_nat].
  replace (0 =? Z.pos (Pos.of_succ_nat 0) - 1) with true by reflexivity.
  rewrite orb_true_r. destruct text as [|c text]; [contradiction|].
  cbn [truthy app map join lrc_line].
  set (t := (h * 3600 + m * 60 + s) * 1000 + ms).
  assert (E1 : t / 1000 = h * 3600 + m * 60 + s).
  { unfold t. rewrite Z.div_add_l by lia. rewrite (Z.div_small ms) by lia. lia. }
  assert (E2 : t mod 1000 = ms).
  { unfold t. rewrite Z.add_comm, Z.mod_add by lia. apply Z.mod_small. lia. }
  rewrite E1, E2.
  replace ((h * 3600 + m * 60 + s) / 60) with (h * 60 + m).
  2:{ replace (h * 3600 + m * 60 + s) with ((h * 60 + m) * 60 + s) by lia.
      rewrite Z.div_add_l by lia. rewrite (Z.div_small s) by lia. lia. }
  replace ((h * 3600 + m * 60 + s) mod 60) with s.
  2:{ replace (h * 3600 + m * 60 + s) with (s + (h * 60 + m) * 60) by lia.
      rewrite Z.mod_add by lia. symmetry. apply Z.mod_small. lia. }
  reflexivity.
Qed.

End Cue.

Lemma cue_is_parsed_witness :
  convert_srt_to_lrc ascii_isspace ascii_digit_value
    (lit "7" ++ [LF] ++ lit "01:02:03,456 --> 01:02:04,000" ++ [LF]
     ++ lit "hello" ++ [LF] ++ lit "second line") 15
  = lit "[62:03.45]hello".
Proof.
  assert (Hd : forall d, 0 <= d < 10 -> ascii_digit_value (digit_char d) = Some d)
    by exact ascii_digit_value_char.
  assert (Hs : forall d, 0 <= d < 10 -> ascii_isspace (digit_char d) = false).
  { intros d Hd'.
    assert (d = 0 \/ d = 1 \/ d = 2 \/ d = 3 \/ d = 4 \/ d = 5 \/ d = 6 \/ d = 7
            \/ d = 8 \/ d = 9) as C by lia.
    repeat (destruct C as [->|C]; [reflexivity|]). subst. reflexivity. }
  assert (Hall : Forall (fun l : list N => ~ In LF l)
                   [lit "7"; lit " --> 01:02:04,000"; lit "hello";
                    lit "second line"]).
  { repeat constructor; vm_compute; intros H;
      repeat (destruct H as [H|H]; [discriminate|]); exact H. }
  pose proof (cue_is_parsed ascii_isspace ascii_digit_value Hd Hs 1 2 3 456
                (lit "7") (lit " --> 01:02:04,000") (lit "hello")
                [lit "second line"] 15
                ltac:(lia) ltac:(lia) ltac:(lia) ltac:(lia) Hall) as [_ H].
  exact (H eq_refl ltac:(discriminate)).
Defined.

Import Estimate.

(** ** Rounding keeps small numbers finite *)

Lemma shr_1_half (mrs : shr_record) :
  0 <= shr_m mrs -> shr_m (shr_1 mrs) = shr_m mrs / 2.
Proof.
  destruct mrs as [m r s]. cbn [shr_m]. intros H.
  destruct m as [|[p|p|]|p]; cbn [shr_1 shr_m]; try lia; try reflexivity.
  - apply Z.div_unique with 1; lia.
  - apply Z.div_unique with 0; lia.
Qed.

Lemma iter_shr_1_div (n : positive) : forall mrs,
  0 <= shr_m mrs -> shr_m (iter_pos shr_1 n mrs) = shr_m mrs / 2 ^ Zpos n.
Proof.
  induction n as [n IH|n IH|]; intros mrs H; cbn [iter_pos].
  - pose proof (shr_1_bounds mrs H) as H1.
    pose proof (iter_shr_1_bounds n (shr_1 mrs) ltac:(lia)) as H2.
    rewrite IH, IH, shr_1_half by lia.
    rewrite !Z.div_div by (try apply Z.pow_pos_nonneg; lia).
    f_equal.
    assert (E : 2 ^ Z.pos n~1 = 2 * (2 ^ Z.pos n * 2 ^ Z.pos n)).
    { rewrite <- Z.pow_add_r, <- Z.pow_succ_r by lia. f_equal. lia. }
    lia.
  - pose proof (iter_shr_1_bounds n mrs H) as H2.
    rewrite IH, IH by lia.
    rewrite !Z.div_div by (try apply Z.pow_pos_nonneg; lia).
    f_equal.
    assert (E : 2 ^ Z.pos n~0 = 2 ^ Z.pos n * 2 ^ Z.pos n).
    { rewrite <- Z.pow_add_r by lia. f_equal. lia. }
    lia.
  - rewrite shr_1_half by exact H. reflexivity.
Qed.

Lemma Zdigits2_bound (m : Z) : 0 <= m -> m < 2 ^ Zdigits2 m /\ 0 <= Zdigits2 m.
Proof.
  intros H. destruct m as [|p|p]; cbn [Zdigits2]; try lia.
  split; [|lia]. apply digits2_pos_le; lia.
Qed.

(** The first shift of the rounding: at most 53 bits are left, at an
    exponent that is the larger of the given one and the canonical one. *)
Lemma shr_fexp_tight (m e : Z) (l : location) :
  0 <= m ->
  0 <= shr_m (fst (shr_fexp 53 1024 m e l)) < 2 ^ Z.max 53 0 /\
  snd (shr_fexp 53 1024 m e l) = Z.max e (fexp 53 1024 (Zdigits2 m + e)) \/
  (fexp 53 1024 (Zdigits2 m + e) <= e /\
   shr_m (fst (shr_fexp 53 1024 m e l)) = m /\
   snd (shr_fexp 53 1024 m e l) = e).
Proof.
  intros Hm. unfold shr_fexp, shr.
  destruct (Zdigits2_bound m Hm) as [Hd Hd0].
  set (d := Zdigits2 m) in *.
  destruct (fexp 53 1024 (d + e) - e) as [|n|n] eqn:En.
  - right. cbn [fst snd]. rewrite shr_m_of_loc. repeat split; lia.
  - left. cbn [fst snd]. rewrite iter_shr_1_div by (rewrite shr_m_of_loc; lia).
    rewrite shr_m_of_loc. split; [|lia].
    assert (Hp : 0 < 2 ^ Z.pos n) by (apply Z.pow_pos_nonneg; lia).
    split; [apply Z.div_pos; lia|].
    apply Z.div_lt_upper_bound; [lia|].
    rewrite <- Z.pow_add_r by lia.
    eapply Z.lt_le_trans; [exact Hd|]. apply Z.pow_le_mono_r; [lia|].
    rewrite fexp_64 in En. lia.
  - right. cbn [fst snd]. rewrite shr_m_of_loc. repeat split; lia.
Qed.

Lemma shr_fexp_range (m e : Z) (l : location) (D : Z) :
  0 <= m < 2 ^ D -> 0 <= D ->
  0 <= shr_m (fst (shr_fexp 53 1024 m e l)) < 2 ^ 53 /\
  -1074 <= snd (shr_fexp 53 1024 m e l) <= Z.max e (Z.max (D + e - 53) (-1074)) /\
  e <= snd (shr_fexp 53 1024 m e l).
Proof.
  intros Hm HD.
  pose proof (Zdigits2_le m D Hm HD) as Hd.
  destruct (Zdigits2_bound m ltac:(lia)) as [Hb _].
  destruct (shr_fexp_tight m e l ltac:(lia)) as [[B E]|[F [B E]]];
    rewrite ?B, ?E, ?fexp_64 in *.
  - change (Z.max 53 0) with 53 in B. split; [exact B|]. lia.
  - split; [|lia]. split; [lia|].
    eapply Z.lt_le_trans; [exact Hb|]. apply Z.pow_le_mono_r; lia.
Qed.

(** Rounding a number below [2^D] at exponent [ex]: the result is zero
    or finite as long as the exponent it needs stays below the largest
    one, and then its mantissa has at most 54 bits. *)
Lemma binary_round_aux_tight (sx : bool) (mx ex : Z) (lx : location) (D : Z) :
  0 <= mx < 2 ^ D -> 0 <= D ->
  Z.max ex (Z.max (D + ex - 53) (-1074)) + 1 <= 971 ->
  match binary_round_aux 53 1024 sx mx ex lx with
  | S754_zero _ => True
  | S754_finite s m e =>
      s = sx /\ Zpos m < 2 ^ 54 /\
      -1074 <= e <= Z.max ex (Z.max (D + ex - 53) (-1074)) + 1
  | _ => False
  end.
Proof.
  intros Hm HD Hb. unfold binary_round_aux.
  destruct (shr_fexp_range mx ex lx D Hm HD) as [B1 [E1 L1]].
  destruct (shr_fexp 53 1024 mx ex lx) as [mrs' e']. cbn [fst snd] in B1, E1, L1.
  pose proof (round_nearest_even_bounds (shr_m mrs') (loc_of_shr_record mrs')) as R.
  set (mr := round_nearest_even (shr_m mrs') (loc_of_shr_record mrs')) in *.
  assert (Hmr : 0 <= mr < 2 ^ 54).
  { assert (2 ^ 54 = 2 * 2 ^ 53) by reflexivity. lia. }
  destruct (shr_fexp_range mr e' loc_Exact 54 Hmr ltac:(lia)) as [B2 [E2 L2]].
  destruct (shr_bounds (shr_record_of_loc mr loc_Exact) e'
              (fexp 53 1024 (Zdigits2 mr + e') - e')) as [B3 _];
    [rewrite shr_m_of_loc; lia|].
  rewrite shr_m_of_loc in B3. fold (shr_fexp 53 1024 mr e' loc_Exact) in B3.
  destruct (shr_fexp 53 1024 mr e' loc_Exact) as [mrs'' e''].
  cbn [fst snd] in B2, E2, L2, B3.
  destruct (shr_m mrs'') as [|m|m]; [exact I | | lia].
  change (1024 - 53) with 971.
  destruct (Z.leb_spec e'' 971); [|lia].
  split; [reflexivity|]. split; lia.
Qed.

Lemma shl_align_bounds (m : positive) (e e' : Z) :
  let r := shl_align m e e' in
  (e' < e /\ Zpos (fst r) = Zpos m * 2 ^ (e - e') /\ snd r = e') \/
  (e <= e' /\ fst r = m /\ snd r = e).
Proof.
  cbn zeta. unfold shl_align.
  destruct (e' - e) as [|d|d] eqn:Ed; cbn [fst snd].
  - right. repeat split; lia.
  - right. repeat split; lia.
  - left. split; [lia|]. split; [|reflexivity].
    replace (e - e') with (Zpos d) by lia.
    clear. induction d as [|d IH] using Pos.peano_ind.
    + cbn [Pos.iter]. change (2 ^ 1) with 2. lia.
    + rewrite Pos.iter_succ, Pos2Z.inj_xO, IH, Pos2Z.inj_succ, Z.pow_succ_r by lia.
      lia.
Qed.

(** Normalising a positive number below [2^D] at exponent at most [E]. *)
Lemma binary_round_tight (sx : bool) (m : positive) (e : Z) (D E : Z) :
  Zpos m < 2 ^ D -> 53 <= D -> e <= E ->
  Z.max E (Z.max (D + E - 53) (-1074)) + 1 <= 971 ->
  match binary_round 53 1024 sx m e with
  | S754_zero _ => True
  | S754_finite s m' e' =>
      s = sx /\ Zpos m' < 2 ^ 54 /\
      -1074 <= e' <= Z.max E (Z.max (D + E - 53) (-1074)) + 1
  | _ => False
  end.
Proof.
  intros Hm HD HE Hb. unfold binary_round.
  pose proof (shl_align_bounds m e (fexp 53 1024 (Z.pos (digits2_pos m) + e)))
    as Hs. cbn zeta in Hs.
  destruct (shl_align m e (fexp 53 1024 (Z.pos (digits2_pos m) + e)))
    as [mz ez]. cbn [fst snd] in Hs.
  assert (Hz : 0 <= Zpos mz < 2 ^ D /\ ez <= E).
  { destruct Hs as [[Hlt [Hv ->]]|[_ [-> ->]]]; [|lia].
    split; [|lia]. split; [lia|]. rewrite Hv.
    destruct (Zdigits2_bound (Zpos m) ltac:(lia)) as [Hd _].
    cbn [Zdigits2] in Hd. rewrite fexp_64 in *.
    set (d := Z.pos (digits2_pos m)) in *.
    assert (Hp : 2 ^ d * 2 ^ (e - Z.max (d + e - 53) (-1074)) <= 2 ^ 53).
    { rewrite <- Z.pow_add_r by lia. apply Z.pow_le_mono_r; lia. }
    assert (2 ^ 53 <= 2 ^ D) by (apply Z.pow_le_mono_r; lia).
    assert (0 < 2 ^ (e - Z.max (d + e - 53) (-1074)))
      by (apply Z.pow_pos_nonneg; lia).
    nia. }
  destruct Hz as [Hz Hez].
  pose proof (binary_round_aux_tight sx (Zpos mz) ez loc_Exact D Hz ltac:(lia)
                ltac:(lia)) as H.
  destruct (binary_round_aux 53 1024 sx (Z.pos mz) ez loc_Exact); try exact H.
  destruct H as [H0 [H1 H2]]. split; [exact H0|]. split; [exact H1 | lia].
Qed.

(** The quotient of two integers below [2^53]. *)
Lemma truediv_range (a b : Z) :
  0 <= a < 2 ^ 53 -> 0 < b < 2 ^ 53 ->
  exists q, truediv a b = Some q /\
    match q with
    | S754_zero _ => True
    | S754_finite s m e => s = false /\ Zpos m < 2 ^ 54 /\ -1074 <= e <= 159
    | _ => False
    end.
Proof.
  intros Ha Hb. unfold truediv.
  destruct (Z.eqb_spec b 0); [lia|]. eexists. split; [reflexivity|].
  destruct b as [|t|t]; try lia.
  destruct (of_int_pos t ltac:(lia)) as [m2 [e2 [-> [M2 E2]]]].
  destruct a as [|a|a]; try lia; [exact I|].
  destruct (of_int_pos a ltac:(lia)) as [m1 [e1 [-> [M1 E1]]]].
  cbn [SFdiv]. change prec with 53. change emax with 1024.
  pose proof (div_core_bounds m1 m2 e1 e2 M1 M2 E1 E2) as Hc.
  destruct (SFdiv_core_binary 53 1024 (Z.pos m1) e1 (Z.pos m2) e2)
    as [[q e] l].
  destruct Hc as [Hq He].
  pose proof (binary_round_aux_tight (xorb false false) q e l 159 Hq ltac:(lia)
                ltac:(lia)) as H.
  destruct (binary_round_aux 53 1024 (xorb false false) q e l); try exact H.
  destruct H as [H0 [H1 H2]]. split; [exact H0|]. split; [exact H1 | lia].
Qed.

Lemma to_int_nonneg (s : bool) (m : positive) (e : Z) :
  exists n, to_int (S754_finite false m e) = Some n /\ 0 <= n.
Proof.
  cbn [to_int]. eexists. split; [reflexivity|].
  destruct (Z.leb_spec 0 e).
  - assert (0 <= 2 ^ e) by (apply Z.pow_nonneg; lia). lia.
  - apply Z.div_pos; [lia|]. apply Z.pow_pos_nonneg; lia.
Qed.

(** The estimate of the duration is defined for every count of words that
    is a float exactly, and is not negative. *)
Lemma estimated_seconds_defined (total_words : Z) :
  0 <= total_words < 2 ^ 53 ->
  exists n, estimated_seconds total_words = Some n /\ 0 <= n.
Proof.
  intros Ht. unfold estimated_seconds.
  destruct (truediv_range total_words 80 Ht ltac:(lia)) as [q [-> Hq]].
  destruct q as [s|s| |s m e]; try contradiction.
  - destruct s; cbn [SFadd half]; apply (to_int_nonneg false).
  - destruct Hq as [-> [Hm He]]. unfold half. cbn [SFadd cond_Zopp].
    change prec with 53. change emax with 1024.
    pose proof (shl_align_bounds m e (Z.min e (-53))) as S1.
    pose proof (shl_align_bounds 4503599627370496 (-53) (Z.min e (-53))) as S2.
    cbn zeta in S1, S2.
    destruct (shl_align m e (Z.min e (-53))) as [m1 z1].
    destruct (shl_align 4503599627370496 (-53) (Z.min e (-53))) as [m2 z2].
    cbn [fst snd] in *.
    change (Z.pos m1 + Z.pos m2) with (Z.pos (m1 + m2)).
    cbn [binary_normalize].
    assert (H52 : Z.pos 4503599627370496 = 2 ^ 52) by reflexivity.
    destruct (Z.le_gt_cases (-53) e) as [Hge|Hlt].
    + (* the quotient is shifted to the exponent of one half *)
      replace (Z.min e (-53)) with (-53) in * by lia.
      assert (B1 : Z.pos m1 < 2 ^ 266).
      { assert (Hp : Z.pos m * 2 ^ (e - -53) < 2 ^ 266).
        { assert (2 ^ (e - -53) <= 2 ^ 212) by (apply Z.pow_le_mono_r; lia).
          assert (0 < 2 ^ (e - -53)) by (apply Z.pow_pos_nonneg; lia).
          assert (2 ^ 266 = 2 ^ 54 * 2 ^ 212) by reflexivity. nia. }
        destruct S1 as [[_ [-> _]]|[_ [-> _]]]; [exact Hp|].
        assert (2 ^ 54 <= 2 ^ 266) by (apply Z.pow_le_mono_r; lia). lia. }
      assert (B2 : Z.pos m2 = 2 ^ 52) by (destruct S2 as [[? _]|[_ [-> _]]]; lia).
      assert (Hsum : Z.pos (m1 + m2) < 2 ^ 267).
      { rewrite Pos2Z.inj_add, B2.
        assert (2 ^ 267 = 2 * 2 ^ 266) by reflexivity.
        assert (2 ^ 52 <= 2 ^ 266) by (apply Z.pow_le_mono_r; lia). lia. }
      pose proof (binary_round_tight false (m1 + m2) (-53) 267 (-53) Hsum
                    ltac:(lia) ltac:(lia) ltac:(lia)) as H.
      destruct (binary_round 53 1024 false (m1 + m2) (-53)) as [s|s| |s m' e'];
        try contradiction.
      * exists 0. split; [reflexivity | lia].
      * destruct H as [-> _]. apply (to_int_nonneg false).
    + (* one half is shifted to the exponent of the quotient *)
      replace (Z.min e (-53)) with e in * by lia.
      assert (B1 : Z.pos m1 < 2 ^ 54) by (destruct S1 as [[? _]|[_ [-> _]]]; lia).
      assert (B2 : Z.pos m2 < 2 ^ 1074).
      { destruct S2 as [[_ [-> _]]|[? _]]; [|lia]. rewrite H52.
        rewrite <- Z.pow_add_r by lia. apply Z.pow_lt_mono_r; lia. }
      assert (Hsum : Z.pos (m1 + m2) < 2 ^ 1075).
      { rewrite Pos2Z.inj_add.
        assert (2 ^ 1075 = 2 * 2 ^ 1074) by (rewrite <- Z.pow_succ_r by lia; reflexivity).
        assert (2 ^ 54 <= 2 ^ 1074) by (apply Z.pow_le_mono_r; lia). lia. }
      pose proof (binary_round_tight false (m1 + m2) e 1075 (-54) Hsum
                    ltac:(lia) ltac:(lia) ltac:(lia)) as H.
      destruct (binary_round 53 1024 false (m1 + m2) e) as [s|s| |s m' e'];
        try contradiction.
      * exists 0. split; [reflexivity | lia].
      * destruct H as [-> _]. apply (to_int_nonneg false).
Qed.

(** ** Stripping twice *)

Lemma lstrip_head (isspace : char -> bool) (s : str) (c : char) (t : str) :
  lstrip isspace s = c :: t -> isspace c = false.
Proof.
  induction s as [|x s IH]; cbn [lstrip]; [discriminate|].
  destruct (isspace x) eqn:E; [exact IH|].
  intros H. injection H as <- _. exact E.
Qed.

Lemma last_rev_cons (x : char) (l : str) (d : char) :
  List.last (List.rev (x :: l)) d = x.
Proof. cbn [List.rev]. apply last_last. Qed.

(** What [strip] returns is empty or has no whitespace at either end. *)
Lemma strip_ends (isspace : char -> bool) (s : str) :
  strip isspace s = [] \/
  exists c t, strip isspace s = c :: t /\ isspace c = false /\
              isspace (List.last (c :: t) c) = false.
Proof.
  unfold strip, rstrip.
  destruct (lstrip isspace s) as [|c t] eqn:El; [left; reflexivity|].
  pose proof (lstrip_head isspace s c t El) as Hc.
  destruct (lstrip isspace (List.rev (c :: t))) as [|c' t'] eqn:Er;
    [left; reflexivity|].
  right.
  pose proof (lstrip_head isspace _ c' t' Er) as Hc'.
  destruct (lstrip_suffix isspace (List.rev (c :: t))) as [p [Hp _]].
  rewrite Er in Hp.
  destruct (exists_last (l := c' :: t') ltac:(discriminate)) as [y0 [z Ey]].
  rewrite Ey in Hp. cbn [List.rev] in Hp. rewrite app_assoc in Hp.
  apply app_inj_tail in Hp. destruct Hp as [_ <-].
  exists c, (List.rev y0). rewrite Ey, rev_app_distr. cbn [List.rev app].
  split; [reflexivity|]. split; [exact Hc|].
  replace (c :: List.rev y0) with (List.rev (c' :: t'))
    by (rewrite Ey, rev_app_distr; reflexivity).
  rewrite last_rev_cons. exact Hc'.
Qed.

Lemma strip_idempotent (isspace : char -> bool) (s : str) :
  strip isspace (strip isspace s) = strip isspace s.
Proof.
  destruct (strip_ends isspace s) as [->|[c [t [-> [Hc Hl]]]]].
  - reflexivity.
  - apply strip_trimmed; assumption.
Qed.

Lemma str_eqb_nil (s : str) : str_eqb s [] = negb (truthy s).
Proof. destruct s; reflexivity. Qed.

Lemma forallb_false_In {A} (f : A -> bool) (l : list A) :
  forallb f l = false -> exists x, In x l /\ f x = false.
Proof.
  induction l as [|x l IH]; cbn [forallb]; [discriminate|].
  destruct (f x) eqn:E.
  - intros H. destruct (IH H) as [y [Hy Fy]]. exists y. split; [right|]; assumption.
  - intros _. exists x. split; [left; reflexivity | exact E].
Qed.

Lemma In_forallb_false {A} (f : A -> bool) (l : list A) (x : A) :
  In x l -> f x = false -> forallb f l = false.
Proof.
  intros Hi Hf. destruct (forallb f l) eqn:E; [|reflexivity].
  rewrite forallb_forall in E. rewrite (E x Hi) in Hf. discriminate.
Qed.

Lemma truthy_strip (isspace : char -> bool) (s : str) :
  truthy (strip isspace s) = true <-> forallb isspace s = false.
Proof.
  split; intros H.
  - destruct (forallb isspace s) eqn:E; [|reflexivity].
    apply strip_nil_iff in E. rewrite E in H. discriminate.
  - destruct (strip isspace s) eqn:E; [|reflexivity].
    apply strip_nil_iff in E. congruence.
Qed.

(** ** Lines of a text *)

Lemma split_go_In (c : char) (s : str) : forall cur,
  c <> LF -> In c s \/ In c cur ->
  exists l, In l (split_go [LF] s 0 cur) /\ In c l.
Proof.
  induction s as [|x s IH]; intros cur Hc Hin.
  - destruct Hin as [[]|Hin]. exists (List.rev cur).
    split; [left; reflexivity | apply in_rev; rewrite rev_involutive; exact Hin].
  - cbn [split_go startswith]. destruct (char_eqb LF x) eqn:Ex; cbn [andb].
    + cbn [List.length Nat.pred].
      destruct Hin as [[->|Hin]|Hin].
      * unfold char_eqb in Ex. apply N.eqb_eq in Ex. congruence.
      * destruct (IH [] Hc (or_introl Hin)) as [l [Hl Hcl]].
        exists l. split; [right; exact Hl | exact Hcl].
      * exists (List.rev cur). split; [left; reflexivity|].
        apply in_rev. rewrite rev_involutive. exact Hin.
    + apply IH; [exact Hc|].
      destruct Hin as [[->|Hin]|Hin]; [right; left; reflexivity | left; exact Hin
                                      | right; right; exact Hin].
Qed.

Section Chapters.

Variable isspace : char -> bool.

Hypothesis LF_is_space : isspace LF = true.

Lemma nonblank_has_line (s : str) :
  truthy (strip isspace s) = true ->
  exists l, In l (split [LF] s) /\ truthy (strip isspace l) = true.
Proof.
  intros H. apply truthy_strip in H.
  destruct (forallb_false_In _ _ H) as [c [Hc Fc]].
  assert (Hn : c <> LF) by (intros ->; congruence).
  destruct (split_go_In c s [] Hn (or_introl Hc)) as [l [Hl Hcl]].
  exists l. split; [exact Hl|]. apply truthy_strip.
  eapply In_forallb_false; eassumption.
Qed.

Lemma first_line_found (lines : list str) (t : option str) :
  (exists l, In l lines /\ truthy (strip isspace l) = true) ->
  exists l, Epub.first_line isspace lines t = Some (strip isspace l) /\
            truthy (strip isspace l) = true.
Proof.
  induction lines as [|x lines IH]; intros [l [Hl Ht]]; [contradiction|].
  cbn [Epub.first_line]. destruct (truthy (strip isspace x)) eqn:Ex.
  - exists x. split; [reflexivity | exact Ex].
  - destruct Hl as [->|Hl]; [congruence|]. apply IH. exists l. auto.
Qed.

Lemma no_title_stripped (l : str) :
  truthy (strip isspace l) = true ->
  Epub.no_title isspace (Some (strip isspace l)) = false.
Proof.
  intros H. cbn [Epub.no_title]. rewrite strip_idempotent, str_eqb_nil, H.
  reflexivity.
Qed.

(** The title taken from a document with text does not depend on the
    name of the document, is there and is not blank. *)
Lemma title_from_document_found (title : option str) (name : str)
    (sp : Epub.soup) :
  truthy (strip isspace (Epub.get_text sp)) = true ->
  exists t,
    (forall name', Epub.title_from_document isspace title name' sp = Some t) /\
    truthy (strip isspace t) = true.
Proof.
  intros Ht. unfold Epub.title_from_document.
  set (t1 := Epub.header_loop isspace sp _ title).
  destruct (Epub.no_title isspace t1) eqn:E1.
  - destruct (first_line_found (split [LF] (Epub.get_text sp)) t1
                (nonblank_has_line _ Ht)) as [l [-> Hl]].
    rewrite (no_title_stripped l Hl).
    exists (strip isspace l). split; [reflexivity|].
    rewrite strip_idempotent. exact Hl.
  - rewrite E1. destruct t1 as [t|]; [|discriminate].
    exists t. split; [reflexivity|].
    cbn [Epub.no_title] in E1. apply orb_false_iff in E1. destruct E1 as [_ E1].
    rewrite str_eqb_nil in E1. destruct (truthy (strip isspace t)); 
      [reflexivity | discriminate].
Qed.

(** X10.  Every chapter that [get_chapters] returns has text that is not blank
    and a title that is not empty; a document without a title in the table
    of contents gets a title that is not blank from its own text (a header
    or its first line with text), so that the name of the file, the last
    resort of the code, is never used. *)
Theorem chapters_have_text_and_title (b : Epub.book) :
  (forall ch, In ch (Epub.get_chapters isspace b) ->
     (exists text, chapter_content ch = Some text /\
                   truthy (strip isspace text) = true) /\
     (exists t, chapter_title ch = Some t /\ t <> [])) /\
  (forall title doc sp,
     title = None \/ title = Some [] ->
     Epub.parsed doc = inr sp ->
     truthy (strip isspace (Epub.get_text sp)) = true ->
     exists t,
       Epub.chapter_of isspace title doc =
         Some (mkchapter (Some t) (Some (Epub.get_text sp))) /\
       truthy (strip isspace t) = true /\
       forall name,
         Epub.chapter_of isspace title (Epub.mkdocument name (inr sp)) =
           Some (mkchapter (Some t) (Some (Epub.get_text sp)))).
Proof.
  split.
  - unfold Epub.get_chapters. destruct (Epub.docs b) as [e|ds]; [contradiction|].
    intros ch. induction ds as [|[title doc] ds IH]; [contradiction|].
    cbn [Epub.chapters_of_docs].
    destruct (Epub.chapter_of isspace title doc) as [c|] eqn:Ec; [|exact IH].
    intros [<-|Hin]; [|exact (IH Hin)].
    unfold Epub.chapter_of in Ec.
    destruct (Epub.parsed doc) as [e|sp]; [discriminate|].
    rewrite str_eqb_nil in Ec.
    destruct (truthy (Epub.get_text sp)) eqn:T1; [|discriminate].
    destruct (truthy (strip isspace (Epub.get_text sp))) eqn:T2; [|discriminate].
    cbn [negb orb] in Ec. injection Ec as <-. cbn [chapter_content chapter_title].
    split; [exists (Epub.get_text sp); auto|].
    destruct title as [[|x t]|].
    + destruct (title_from_document_found (Some []) (Epub.get_name doc) sp T2)
        as [t [Hn Hb]].
      exists t. split; [apply Hn|]. intros ->.
      assert (E : strip isspace [] = []) by (apply strip_nil_iff; reflexivity).
      rewrite E in Hb. discriminate.
    + exists (x :: t). split; [reflexivity | discriminate].
    + destruct (title_from_document_found None (Epub.get_name doc) sp T2)
        as [t [Hn Hb]].
      exists t. split; [apply Hn|]. intros ->.
      assert (E : strip isspace [] = []) by (apply strip_nil_iff; reflexivity).
      rewrite E in Hb. discriminate.
  - intros title doc sp Htitle Hdoc Ht.
    destruct (title_from_document_found title (Epub.get_name doc) sp Ht)
      as [t [Hn Hb]].
    exists t.
    assert (T1 : truthy (Epub.get_text sp) = true).
    { destruct (Epub.get_text sp) eqn:E; [|reflexivity].
      assert (E' : strip isspace [] = []) by (apply strip_nil_iff; reflexivity).
      rewrite E' in Ht. discriminate. }
    assert (H : forall d, Epub.parsed d = inr sp ->
              Epub.chapter_of isspace title d =
                Some (mkchapter (Some t) (Some (Epub.get_text sp)))).
    { intros d Hd. unfold Epub.chapter_of. rewrite Hd, str_eqb_nil, T1, Ht.
      cbn [negb orb]. destruct Htitle as [->| ->]; rewrite Hn; reflexivity. }
    split; [apply H; exact Hdoc|]. split; [exact Hb|].
    intros name. apply H. reflexivity.
Qed.

End Chapters.

Lemma chapters_have_text_and_title_witness :
  let sp := Epub.mksoup (lit "Intro" ++ [LF] ++ lit "Once upon a time")
              (fun _ => None) in
  exists t,
    Epub.chapter_of ascii_isspace None
      (Epub.mkdocument (lit "ch1.xhtml") (inr sp)) =
      Some (mkchapter (Some t) (Some (Epub.get_text sp))) /\
    truthy (strip ascii_isspace t) = true /\
    forall name,
      Epub.chapter_of ascii_isspace None (Epub.mkdocument name (inr sp)) =
        Some (mkchapter (Some t) (Some (Epub.get_text sp))).
Proof.
  cbn zeta.
  exact (proj2 (chapters_have_text_and_title ascii_isspace eq_refl
                  (Epub.mkbook true (inr []) (inr []) (inr []) (inr []) None
                     (inr [])))
           None
           (Epub.mkdocument (lit "ch1.xhtml")
              (inr (Epub.mksoup (lit "Intro" ++ [LF] ++ lit "Once upon a time")
                      (fun _ => None))))
           (Epub.mksoup (lit "Intro" ++ [LF] ++ lit "Once upon a time")
              (fun _ => None))
           (or_introl eq_refl) eq_refl eq_refl).
Defined.

(** ** The publication date *)

Section Date.

Variable decimal : char -> option Z.

Lemma match_date_prefix (s d : str) :
  Epub.match_date decimal s = Some d ->
  (exists tail, s = d ++ tail) /\ List.length d = 10%nat /\
  Epub.match_date decimal d = Some d.
Proof.
  unfold Epub.match_date.
  destruct s as [|y1 [|y2 [|y3 [|y4 [|a [|m1 [|m2 [|b [|d1 [|d2 tail]]]]]]]]]];
    try discriminate.
  destruct (Epub.is_digit decimal y1 && Epub.is_digit decimal y2
            && Epub.is_digit decimal y3 && Epub.is_digit decimal y4
            && char_eqb a Epub.HYPHEN && Epub.is_digit decimal m1
            && Epub.is_digit decimal m2 && char_eqb b Epub.HYPHEN
            && Epub.is_digit decimal d1 && Epub.is_digit decimal d2) eqn:E;
    [|discriminate].
  intros H. injection H as <-. rewrite E.
  split; [exists tail; reflexivity|]. split; reflexivity.
Qed.

Lemma get_publish_date_nonempty (md : Epub.metadata) :
  Epub.get_publish_date decimal md <> [].
Proof.
  unfold Epub.get_publish_date.
  destruct md as [e|[|v rest]]; try discriminate.
  set (raw := match v with
              | Some s => if truthy s then s else Epub.UNKNOWN_DATE
              | None => Epub.UNKNOWN_DATE
              end).
  assert (Hr : raw <> []).
  { unfold raw. destruct v as [[|c s]|]; discriminate. }
  destruct (Epub.match_date decimal raw) as [d|] eqn:Em; [|exact Hr].
  destruct (match_date_prefix raw d Em) as [_ [Hl _]].
  intros ->. discriminate.
Qed.

(** What [match_date] finds: the first ten characters, when they are
    four digits, a hyphen, two digits, a hyphen and two digits, and
    nothing otherwise. *)
Lemma match_date_spec (s : str) :
  match Epub.match_date decimal s with
  | Some d =>
      exists y1 y2 y3 y4 m1 m2 d1 d2 tail,
        s = [y1; y2; y3; y4; Epub.HYPHEN; m1; m2; Epub.HYPHEN; d1; d2] ++ tail /\
        d = [y1; y2; y3; y4; Epub.HYPHEN; m1; m2; Epub.HYPHEN; d1; d2] /\
        Forall (fun c => decimal c <> None) [y1; y2; y3; y4; m1; m2; d1; d2]
  | None =>
      forall y1 y2 y3 y4 m1 m2 d1 d2 tail,
        s = [y1; y2; y3; y4; Epub.HYPHEN; m1; m2; Epub.HYPHEN; d1; d2] ++ tail ->
        ~ Forall (fun c => decimal c <> None) [y1; y2; y3; y4; m1; m2; d1; d2]
  end.
Proof.
  assert (Hd : forall c, Epub.is_digit decimal c = true <-> decimal c <> None).
  { intros c. unfold Epub.is_digit. destruct (decimal c); split;
      intros H; try reflexivity; try discriminate; congruence. }
  unfold Epub.match_date.
  destruct s as [|y1 [|y2 [|y3 [|y4 [|a [|m1 [|m2 [|b [|d1 [|d2 tail]]]]]]]]]];
    try (intros; discriminate).
  destruct (Epub.is_digit decimal y1 && Epub.is_digit decimal y2
            && Epub.is_digit decimal y3 && Epub.is_digit decimal y4
            && char_eqb a Epub.HYPHEN && Epub.is_digit decimal m1
            && Epub.is_digit decimal m2 && char_eqb b Epub.HYPHEN
            && Epub.is_digit decimal d1 && Epub.is_digit decimal d2) eqn:E.
  - repeat (apply andb_true_iff in E; destruct E as [E ?]).
    unfold char_eqb in *.
    repeat match goal with
           | H : (_ =? _)%N = true |- _ => apply N.eqb_eq in H; subst
           | H : Epub.is_digit decimal _ = true |- _ => apply Hd in H
           end.
    exists y1, y2, y3, y4, m1, m2, d1, d2, tail.
    split; [reflexivity|]. split; [reflexivity|].
    repeat constructor; assumption.
  - intros z1 z2 z3 z4 n1 n2 e1 e2 tail' Es Hall.
    injection Es as -> -> -> -> -> -> -> -> -> -> _.
    repeat match goal with
           | H : Forall _ (_ :: _) |- _ => inversion H; subst; clear H
           end.
    repeat match goal with
           | H : decimal _ <> None |- _ => apply Hd in H; rewrite H in E
           end.
    unfold char_eqb in E. rewrite !N.eqb_refl in E. discriminate.
Qed.

(** X11.  The date shown is never empty.  When the date of the book starts with
    [YYYY-MM-DD] (digits and hyphens) the date shown is these ten
    characters, so that a time of day after them is cut off; when it does
    not, the date shown is the date of the book as it is.  In both cases
    it is a prefix of the date of the book, and extracting again from the
    date shown changes nothing. *)
Theorem publish_date_is_a_prefix (md : Epub.metadata) :
  let shown := Epub.get_publish_date decimal md in
  shown <> [] /\
  Epub.get_publish_date decimal (inr [Some shown]) = shown /\
  (forall raw rest, md = inr (Some raw :: rest) -> raw <> [] ->
     (forall y1 y2 y3 y4 m1 m2 d1 d2 tail,
        raw = [y1; y2; y3; y4; Epub.HYPHEN; m1; m2; Epub.HYPHEN; d1; d2]
              ++ tail ->
        Forall (fun c => decimal c <> None) [y1; y2; y3; y4; m1; m2; d1; d2] ->
        shown = [y1; y2; y3; y4; Epub.HYPHEN; m1; m2; Epub.HYPHEN; d1; d2]) /\
     ((forall y1 y2 y3 y4 m1 m2 d1 d2 tail,
         raw = [y1; y2; y3; y4; Epub.HYPHEN; m1; m2; Epub.HYPHEN; d1; d2]
               ++ tail ->
         ~ Forall (fun c => decimal c <> None)
             [y1; y2; y3; y4; m1; m2; d1; d2]) ->
      shown = raw) /\
     exists tail, raw = shown ++ tail /\
       (tail <> [] -> List.length shown = 10%nat)).
Proof.
  cbn zeta.
  assert (Hraw : forall raw, raw <> [] ->
            let shown := match Epub.match_date decimal raw with
                         | Some d => d | None => raw end in
            shown <> [] /\
            Epub.get_publish_date decimal (inr [Some shown]) = shown /\
            (forall y1 y2 y3 y4 m1 m2 d1 d2 tail,
               raw = [y1; y2; y3; y4; Epub.HYPHEN; m1; m2; Epub.HYPHEN; d1; d2]
                     ++ tail ->
               Forall (fun c => decimal c <> None)
                 [y1; y2; y3; y4; m1; m2; d1; d2] ->
               shown = [y1; y2; y3; y4; Epub.HYPHEN; m1; m2; Epub.HYPHEN; d1; d2]) /\
            ((forall y1 y2 y3 y4 m1 m2 d1 d2 tail,
                raw = [y1; y2; y3; y4; Epub.HYPHEN; m1; m2; Epub.HYPHEN; d1; d2]
                      ++ tail ->
                ~ Forall (fun c => decimal c <> None)
                    [y1; y2; y3; y4; m1; m2; d1; d2]) ->
             shown = raw) /\
            exists tail, raw = shown ++ tail /\
              (tail <> [] -> List.length shown = 10%nat)).
  { intros raw Hr. cbn zeta. pose proof (match_date_spec raw) as Hspec.
    destruct (Epub.match_date decimal raw) as [d|] eqn:Em.
    - destruct (match_date_prefix raw d Em) as [[tail Et] [Hl Hd]].
      split; [intros ->; discriminate|].
      split.
      { cbn [Epub.get_publish_date]. destruct d; [discriminate|].
        cbn [truthy]. rewrite Hd. reflexivity. }
      destruct Hspec as [y1 [y2 [y3 [y4 [m1 [m2 [d1 [d2 [tl [Es [Ed Hall]]]]]]]]]]].
      split.
      { intros z1 z2 z3 z4 n1 n2 e1 e2 tail' Es' _. rewrite Ed.
        rewrite Es in Es'. injection Es' as -> -> -> -> -> -> -> -> _.
        reflexivity. }
      split.
      { intros Hno. exfalso. exact (Hno _ _ _ _ _ _ _ _ _ Es Hall). }
      exists tail. auto.
    - split; [exact Hr|]. split.
      { cbn [Epub.get_publish_date]. destruct raw; [contradiction|].
        cbn [truthy]. rewrite Em. reflexivity. }
      split.
      { intros z1 z2 z3 z4 n1 n2 e1 e2 tail' Es' Hall. exfalso.
        exact (Hspec _ _ _ _ _ _ _ _ _ Es' Hall). }
      split; [reflexivity|].
      exists []. rewrite app_nil_r. split; [reflexivity | contradiction]. }
  assert (Hdef : Epub.get_publish_date decimal (inr [Some Epub.UNKNOWN_DATE])
                 = Epub.UNKNOWN_DATE) by reflexivity.
  unfold Epub.get_publish_date at 1 2 4 5 6.
  destruct md as [e|[|[raw|] rest]].
  - split; [discriminate|]. split; [exact Hdef|]. discriminate.
  - split; [discriminate|]. split; [exact Hdef|]. discriminate.
  - destruct raw as [|c raw].
    + cbn [truthy]. change (Epub.match_date decimal Epub.UNKNOWN_DATE) with (@None str).
      split; [discriminate|]. split; [exact Hdef|].
      intros raw' rest' H. injection H as <- _. contradiction.
    + cbn [truthy].
      destruct (Hraw (c :: raw) ltac:(discriminate)) as [H1 [H2 H3]].
      split; [exact H1|]. split; [exact H2|].
      intros raw' rest' H _. injection H as <- _. exact H3.
  - change (Epub.match_date decimal Epub.UNKNOWN_DATE) with (@None str).
    split; [discriminate|]. split; [exact Hdef|]. discriminate.
Qed.

End Date.

(** ** Counting words *)

Lemma remove_char_app (c : char) (a b : str) :
  Epub.remove_char c (a ++ b) = Epub.remove_char c a ++ Epub.remove_char c b.
Proof. apply filter_app. Qed.

Lemma count_words_app (a b : str) :
  Epub.count_words (a ++ b) = Epub.count_words a + Epub.count_words b.
Proof.
  unfold Epub.count_words, len. rewrite !remove_char_app, length_app. lia.
Qed.

Lemma count_words_bounds (s : str) : 0 <= Epub.count_words s <= len s.
Proof.
  unfold Epub.count_words, len, Epub.remove_char.
  pose proof (filter_length_le (fun x => negb (char_eqb x Epub.SPACE))
    (filter (fun x => negb (char_eqb x Epub.CR))
       (filter (fun x => negb (char_eqb x LF)) s))).
  pose proof (filter_length_le (fun x => negb (char_eqb x Epub.CR))
       (filter (fun x => negb (char_eqb x LF)) s)).
  pose proof (filter_length_le (fun x => negb (char_eqb x LF)) s).
  lia.
Qed.

Lemma add_words_acc (chapters : list chapter) : forall n,
  Epub.add_words chapters n = n + Epub.add_words chapters 0.
Proof.
  induction chapters as [|ch rest IH]; intros n; cbn [Epub.add_words]; [lia|].
  rewrite IH, (IH (0 + _)). lia.
Qed.

Lemma total_words_cons (ch : chapter) (rest : list chapter) :
  Epub.total_words_of (ch :: rest) =
  Epub.count_words (content_of ch) + Epub.total_words_of rest.
Proof.
  unfold Epub.total_words_of. cbn [Epub.add_words]. rewrite add_words_acc. lia.
Qed.

Lemma total_words_nonneg (chapters : list chapter) :
  0 <= Epub.total_words_of chapters.
Proof.
  induction chapters as [|ch rest IH]; [unfold Epub.total_words_of; cbn; lia|].
  rewrite total_words_cons. pose proof (count_words_bounds (content_of ch)). lia.
Qed.

Lemma total_words_app (a b : list chapter) :
  Epub.total_words_of (a ++ b) = Epub.total_words_of a + Epub.total_words_of b.
Proof.
  induction a as [|ch a IH]; [unfold Epub.total_words_of; cbn; lia|].
  cbn [app]. rewrite !total_words_cons, IH. lia.
Qed.

Lemma total_words_remove_at (k : nat) : forall chapters,
  (k < List.length chapters)%nat ->
  Epub.total_words_of (Window.remove_at k chapters) =
  Epub.total_words_of chapters
  - Epub.count_words (content_of (List.nth k chapters (mkchapter None None))).
Proof.
  induction k as [|k IH]; intros [|ch rest] Hk; cbn [List.length] in Hk; try lia.
  - cbn [Window.remove_at nth]. rewrite total_words_cons. lia.
  - cbn [Window.remove_at nth]. rewrite !total_words_cons, IH by lia. lia.
Qed.

(** X12.  The count of words of a book is the number of characters of its
    chapters other than the line feed, the carriage return and the space
    (every other character counts, a tab or a wide space too); it is the
    sum over the chapters, so that it adds up over two parts of a book and
    is not negative. *)
Theorem total_words_is_a_sum (a b : list chapter) (s t : str) :
  Epub.total_words_of (a ++ b) = Epub.total_words_of a + Epub.total_words_of b /\
  0 <= Epub.total_words_of a /\
  Epub.total_words_of [mkchapter None (Some s)] = Epub.count_words s /\
  Epub.count_words (s ++ t) = Epub.count_words s + Epub.count_words t /\
  Epub.count_words s =
    len (filter (fun c => negb ((c =? 10) || (c =? 13) || (c =? 32))%N) s).
Proof.
  split; [apply total_words_app|]. split; [apply total_words_nonneg|].
  split; [rewrite total_words_cons; unfold Epub.total_words_of; cbn; lia|].
  split; [apply count_words_app|].
  unfold Epub.count_words, Epub.remove_char, len. f_equal. f_equal.
  induction s as [|c s IH]; [reflexivity|].
  cbn [filter]. unfold char_eqb, LF, Epub.CR, Epub.SPACE in *.
  destruct (c =? 10)%N; cbn [negb orb filter]; [exact IH|].
  destruct (c =? 13)%N; cbn [negb orb filter]; [exact IH|].
  destruct (c =? 32)%N; cbn [negb orb filter]; [exact IH|].
  f_equal. exact IH.
Qed.

(** ** What parsing returns *)

Lemma first_value_nonempty (default : str) (md : Epub.metadata) :
  default <> [] -> Epub.first_value default md <> [].
Proof.
  intros Hd. unfold Epub.first_value.
  destruct md as [e|[|[v|] rest]]; try exact Hd.
  destruct v; [exact Hd | discriminate].
Qed.

(** X13.  [parse_epub_data] returns nothing exactly when the book cannot be
    opened.  Otherwise the title, the author, the publisher and the date
    it returns are never empty (a missing or empty entry, or a failing
    lookup, gives the placeholder), and the count of words is the one of
    the chapters it returns. *)
Theorem parse_epub_data_result (isspace : char -> bool)
    (decimal : char -> option Z) (b : Epub.book) :
  (Epub.parse_epub_data isspace decimal b = None <-> Epub.opens b = false) /\
  (forall d, Epub.parse_epub_data isspace decimal b = Some d ->
     Epub.d_title d <> [] /\ Epub.d_author d <> [] /\
     Epub.d_publisher d <> [] /\ Epub.d_publish_date d <> [] /\
     Epub.d_chapters d = Epub.get_chapters isspace b /\
     Epub.d_cover_data d = Epub.cover b /\
     Epub.d_total_words d = Epub.total_words_of (Epub.d_chapters d) /\
     0 <= Epub.d_total_words d).
Proof.
  unfold Epub.parse_epub_data. destruct (Epub.opens b).
  - split; [split; discriminate|].
    intros d H. injection H as <-.
    cbn [Epub.d_title Epub.d_author Epub.d_publisher Epub.d_publish_date
         Epub.d_chapters Epub.d_cover_data Epub.d_total_words].
    repeat split; try (apply first_value_nonempty; discriminate).
    + apply get_publish_date_nonempty.
    + apply total_words_nonneg.
  - split; [split; reflexivity | discriminate].
Qed.

(** ** Lists with one element removed or replaced *)

Lemma remove_at_length {A} (k : nat) : forall l : list A,
  (k < List.length l)%nat ->
  List.length (Window.remove_at k l) = (List.length l - 1)%nat.
Proof.
  induction k as [|k IH]; intros [|x l] Hk; cbn [List.length] in *; try lia.
  - cbn [Window.remove_at]. lia.
  - cbn [Window.remove_at List.length]. rewrite IH by lia. lia.
Qed.

Lemma remove_at_nth_before {A} (d : A) (k : nat) : forall (l : list A) j,
  (j < k)%nat -> List.nth j (Window.remove_at k l) d = List.nth j l d.
Proof.
  induction k as [|k IH]; intros [|x l] j Hj; try lia; try reflexivity.
  cbn [Window.remove_at]. destruct j as [|j]; [reflexivity|].
  cbn [nth]. apply IH. lia.
Qed.

Lemma remove_at_nth_after {A} (d : A) (k : nat) : forall (l : list A) j,
  (k <= j)%nat -> List.nth j (Window.remove_at k l) d = List.nth (S j) l d.
Proof.
  induction k as [|k IH]; intros [|x l] j Hj.
  - destruct j; reflexivity.
  - reflexivity.
  - destruct j; reflexivity.
  - destruct j as [|j]; [lia|]. cbn [Window.remove_at nth]. apply IH. lia.
Qed.

Lemma remove_at_map {A B} (f : A -> B) (k : nat) : forall l : list A,
  Window.remove_at k (map f l) = map f (Window.remove_at k l).
Proof.
  induction k as [|k IH]; intros [|x l]; cbn [map Window.remove_at];
    try reflexivity.
  rewrite IH. reflexivity.
Qed.

Lemma remove_at_Forall {A} (P : A -> Prop) (k : nat) : forall l : list A,
  Forall P l -> Forall P (Window.remove_at k l).
Proof.
  induction k as [|k IH]; intros [|x l] H; cbn [Window.remove_at];
    try constructor; inversion H; subst; auto.
Qed.

Lemma set_content_length (k : nat) (c : str) : forall l,
  List.length (Window.set_content k c l) = List.length l.
Proof.
  induction k as [|k IH]; intros [|x l]; cbn [Window.set_content List.length];
    try reflexivity.
  rewrite IH. reflexivity.
Qed.

Lemma set_content_nth_same (k : nat) (c : str) : forall l,
  (k < List.length l)%nat ->
  List.nth k (Window.set_content k c l) (mkchapter None None) =
  mkchapter (chapter_title (List.nth k l (mkchapter None None))) (Some c).
Proof.
  induction k as [|k IH]; intros [|x l] Hk; cbn [List.length] in Hk; try lia.
  - reflexivity.
  - cbn [Window.set_content nth]. apply IH. lia.
Qed.

Lemma set_content_nth_other (k : nat) (c : str) : forall l j,
  j <> k ->
  List.nth j (Window.set_content k c l) (mkchapter None None) =
  List.nth j l (mkchapter None None).
Proof.
  induction k as [|k IH]; intros [|x l] j Hj; try reflexivity.
  - destruct j; [contradiction | reflexivity].
  - destruct j as [|j]; [reflexivity|]. cbn [Window.set_content nth].
    apply IH. lia.
Qed.

Lemma set_content_titles (k : nat) (c : str) : forall l,
  map chapter_title (Window.set_content k c l) = map chapter_title l.
Proof.
  induction k as [|k IH]; intros [|x l]; cbn [Window.set_content map];
    try reflexivity.
  rewrite IH. reflexivity.
Qed.

(** The items of the list box are the titles, when every chapter has
    one. *)
Lemma listbox_items_titles (chapters : list chapter) : forall i,
  Window.listbox_items i chapters =
  map (fun t => lit " " ++ match t with
                            | Some t => t
                            | None => []
                            end) (map chapter_title chapters)
  \/ ~ Forall (fun ch => chapter_title ch <> None) chapters.
Proof.
  induction chapters as [|ch rest IH]; intros i; [left; reflexivity|].
  destruct (chapter_title ch) as [t|] eqn:Et.
  - destruct (IH (i + 1)) as [E|N].
    + left. cbn [Window.listbox_items map]. unfold Window.listed_title.
      rewrite Et, E. reflexivity.
    + right. intros H. inversion H; subst. contradiction.
  - right. intros H. inversion H; subst. congruence.
Qed.

Lemma listbox_items_of_titles (chapters : list chapter) (i : Z) :
  Forall (fun ch => chapter_title ch <> None) chapters ->
  Window.listbox_items i chapters =
  map (fun t => lit " " ++ match t with
                            | Some t => t
                            | None => []
                            end) (map chapter_title chapters).
Proof.
  intros H. destruct (listbox_items_titles chapters i) as [E|N];
    [exact E | contradiction].
Qed.

Lemma Forall_titles (a b : list chapter) :
  map chapter_title a = map chapter_title b ->
  Forall (fun ch => chapter_title ch <> None) a ->
  Forall (fun ch => chapter_title ch <> None) b.
Proof.
  revert b. induction a as [|x a IH]; intros [|y b] E H; try discriminate.
  - constructor.
  - cbn [map] in E. injection E as E1 E2. inversion H; subst.
    constructor; [congruence | apply IH; assumption].
Qed.

(** ** Stripping a text that ends with a line feed *)

Lemma lstrip_app (isspace : char -> bool) (s u : str) :
  forallb isspace s = false ->
  lstrip isspace (s ++ u) = lstrip isspace s ++ u.
Proof.
  induction s as [|c s IH]; cbn [forallb]; [discriminate|].
  cbn [app lstrip]. destruct (isspace c); cbn [andb]; [exact IH | reflexivity].
Qed.

Lemma strip_line_feed (isspace : char -> bool) (s : str) :
  isspace LF = true -> strip isspace (s ++ [LF]) = strip isspace s.
Proof.
  intros HLF. destruct (forallb isspace s) eqn:E.
  - assert (E' : forallb isspace (s ++ [LF]) = true).
    { rewrite forallb_app, E. cbn. rewrite HLF. reflexivity. }
    apply strip_nil_iff in E, E'. congruence.
  - unfold strip, rstrip. rewrite lstrip_app by exact E.
    rewrite rev_app_distr. cbn [List.rev app lstrip]. rewrite HLF. reflexivity.
Qed.

(** ** Deleting and saving *)

(** Reading a field of a view that was built by the setters. *)
Ltac view_fields :=
  cbn [Window.app Window.book Window.filepath_var Window.current_chapter_index
       Window.title_label Window.author_label Window.publisher_label
       Window.publish_date_label Window.total_words_label
       Window.estimated_time_var Window.cover_label Window.chapter_listbox
       Window.chapter_text Window.chapter_save_button
       Window.convert_chapter_button Window.generate_ebook_button_epub_tab
       Window.tag_entries Window.status_label Window.progress_var
       Window.log_text Window.boxes
       Window.set_app Window.set_book Window.set_filepath Window.set_index
       Window.set_estimated_time Window.set_cover_label Window.set_listbox
       Window.set_chapter_text Window.set_save_button Window.set_convert_button
       Window.set_generate_button Window.set_tag_entries Window.set_status
       Window.set_progress Window.set_log Window.set_boxes
       Window.set_total_words_label Window.set_book_labels
       Window.update_status Window.set_chapters Window.set_album_artist
       Window.set_cover_file Window.set_epub_data
       Window.info_title Window.info_author Window.info_publisher
       Window.info_publish_date Window.info_total_words
       App.busy App.epub_chapters App.epub_cover App.output_dir_var
       App.voice_var App.chars_per_line_var App.artist_var App.album_var
       App.cover_path_var App.cover_on_disk App.threads App.shown App.queued
       App.set_output_dir fst snd] in *.

Section Chapters.

Variable isspace : char -> bool.
Variable os_path_join : str -> str -> str.
Variable TEMP_DIR : str.
Variable now : nat -> str.

Lemma calculate_estimated_time_defined (v : Window.view) (b : Window.book_info) :
  Window.book v = Some b ->
  0 <= Window.info_total_words b < 2 ^ 53 ->
  exists t, Window.calculate_estimated_time v = Some t.
Proof.
  intros Hb Ht. unfold Window.calculate_estimated_time, Window.total_words_of_view.
  rewrite Hb. cbn [Estimate.calculate_estimated_time].
  destruct (estimated_seconds_defined _ Ht) as [n [-> _]]. eexists. reflexivity.
Qed.

(** X17.  Deleting a chapter.  A refusal leaves the window as it is.
    Otherwise the chapter and its item of the list box are removed and the
    count of words, stored and shown, is counted anew from the chapters
    that remain: it is the count of the chapters before less the words of
    the chapter, and so the count stored before less those words when
    that was the count of the chapters (after a saved edit it need not
    be, and what the edit changed enters the count now); the handler does
    not raise.  If the chapter deleted was
    the current one, no chapter is current any more and the text box is
    empty; otherwise the current index still names the chapter it named
    before, one position up when the deleted chapter was before it. *)
Theorem delete_chapter_keeps_selection (index : Z) (v : Window.view)
    (b : Window.book_info) (chapters : list chapter) (title : str) :
  Window.book v = Some b ->
  App.epub_chapters (Window.app v) = Some chapters ->
  0 <= index < Z.of_nat (List.length chapters) ->
  chapter_title (List.nth (Z.to_nat index) chapters (mkchapter None None))
    = Some title ->
  Epub.total_words_of chapters < 2 ^ 53 ->
  let deleted := List.nth (Z.to_nat index) chapters (mkchapter None None) in
  let remaining := Window.remove_at (Z.to_nat index) chapters in
  let v' := fst (Window.delete_chapter index true v) in
  let current := Window.current_chapter_index v in
  Window.delete_chapter index false v = (v, None) /\
  snd (Window.delete_chapter index true v) = None /\
  App.epub_chapters (Window.app v') = Some remaining /\
  List.length remaining = (List.length chapters - 1)%nat /\
  Window.chapter_listbox v' =
    Window.remove_at (Z.to_nat index) (Window.chapter_listbox v) /\
  (exists b', Window.book v' = Some b' /\
     Window.info_total_words b' = Epub.total_words_of remaining /\
     Window.info_total_words b' =
       Epub.total_words_of chapters - Epub.count_words (content_of deleted) /\
     (Window.info_total_words b = Epub.total_words_of chapters ->
      Window.info_total_words b' =
        Window.info_total_words b - Epub.count_words (content_of deleted)) /\
     Window.total_words_label v' = str_of_int (Window.info_total_words b')) /\
  Window.status_label v' = Some (Window.StatusDeleted title) /\
  (current = index ->
   Window.current_chapter_index v' = -1 /\ Window.chapter_text v' = [] /\
   Window.chapter_save_button v' = false /\
   Window.convert_chapter_button v' = false) /\
  (current <> index ->
   Window.chapter_text v' = Window.chapter_text v /\
   (current = -1 -> Window.current_chapter_index v' = -1) /\
   (0 <= current < Z.of_nat (List.length chapters) ->
    0 <= Window.current_chapter_index v' < Z.of_nat (List.length remaining) /\
    List.nth (Z.to_nat (Window.current_chapter_index v')) remaining
      (mkchapter None None) =
    List.nth (Z.to_nat current) chapters (mkchapter None None))).
Proof.
  intros Hb Hc Hi Ht Hsmall. cbn zeta.
  assert (Hk : (Z.to_nat index < List.length chapters)%nat) by lia.
  pose proof (total_words_remove_at (Z.to_nat index) chapters Hk) as Htot.
  pose proof (total_words_nonneg (Window.remove_at (Z.to_nat index) chapters))
    as Hnn.
  pose proof (count_words_bounds
                (content_of (nth (Z.to_nat index) chapters (mkchapter None None))))
    as Hcw.
  unfold Window.delete_chapter. rewrite Hb, Hc.
  replace (index <? 0) with false by (symmetry; apply Z.ltb_ge; lia).
  replace (index >=? Z.of_nat (List.length chapters)) with false
    by (symmetry; rewrite Z.geb_leb; apply Z.leb_gt; lia).
  cbn [orb negb]. rewrite Ht.
  split; [reflexivity|].
  match goal with
  | |- context [Window.calculate_estimated_time ?v0] =>
      destruct (calculate_estimated_time_defined v0
                  (Window.mkinfo (Window.info_title b) (Window.info_author b)
                     (Window.info_publisher b) (Window.info_publish_date b)
                     (Epub.add_words
                        (Window.remove_at (Z.to_nat index) chapters) 0))
                  eq_refl) as [t Et]
  end.
  { cbn [Window.info_total_words].
    change (Epub.add_words ?l 0) with (Epub.total_words_of l). lia. }
  rewrite Et.
  change (Epub.add_words ?l 0) with (Epub.total_words_of l).
  view_fields.
  destruct (Z.eqb_spec (Window.current_chapter_index v) index) as [Hcur|Hcur];
    [|destruct (Z.gtb_spec (Window.current_chapter_index v) index) as [Hgt|Hle]];
    view_fields;
    (split; [reflexivity|]); (split; [reflexivity|]);
    (split; [apply remove_at_length; exact Hk|]);
    (split; [reflexivity|]);
    (split; [eexists; split; [reflexivity|]; view_fields;
             split; [reflexivity|]; split; [exact Htot|];
             split; [intros E; rewrite E; exact Htot | reflexivity]|]);
    (split; [reflexivity|]).
  - split; [intros _; repeat split | contradiction].
  - split; [contradiction|]. intros _.
    split; [reflexivity|]. split; [intros E; lia|].
    intros Hrange. rewrite remove_at_length by exact Hk.
    split; [lia|].
    rewrite remove_at_nth_after by lia. f_equal. lia.
  - split; [contradiction|]. intros _.
    split; [reflexivity|]. split; [intros E; exact E|].
    intros Hrange. rewrite remove_at_length by exact Hk.
    split; [lia|].
    apply remove_at_nth_before. lia.
Qed.

End Chapters.

Section Saving.

Variable isspace : char -> bool.

(** X18.  Saving the text box.  Without a current chapter nothing changes.
    Otherwise the text of the current chapter, and nothing else of the
    book, is replaced by the text of the box with the whitespace at its
    ends removed (saving it again would store the same); the title of the
    chapter, the other chapters, their number and the list box stay, and so
    does the count of words of the book, which is not computed anew. *)
Theorem save_chapter_content_effect (v : Window.view) (b : Window.book_info)
    (chapters : list chapter) :
  Window.book v = Some b ->
  App.epub_chapters (Window.app v) = Some chapters ->
  let current := Window.current_chapter_index v in
  let v' := Window.save_chapter_content isspace v in
  let stored := strip isspace (Window.chapter_text v ++ [LF]) in
  (current < 0 -> v' = v) /\
  (0 <= current < Z.of_nat (List.length chapters) ->
   exists chapters',
     App.epub_chapters (Window.app v') = Some chapters' /\
     List.length chapters' = List.length chapters /\
     List.nth (Z.to_nat current) chapters' (mkchapter None None) =
       mkchapter
         (chapter_title (List.nth (Z.to_nat current) chapters (mkchapter None None)))
         (Some stored) /\
     (forall j, j <> Z.to_nat current ->
        List.nth j chapters' (mkchapter None None) =
        List.nth j chapters (mkchapter None None)) /\
     map chapter_title chapters' = map chapter_title chapters /\
     strip isspace stored = stored /\
     (isspace LF = true -> stored = strip isspace (Window.chapter_text v)) /\
     Window.book v' = Window.book v /\
     Window.current_chapter_index v' = current /\
     Window.chapter_listbox v' = Window.chapter_listbox v /\
     Window.chapter_text v' = Window.chapter_text v /\
     Window.status_label v' = Some Window.StatusContentUpdated).
Proof.
  intros Hb Hc. cbn zeta. unfold Window.save_chapter_content. rewrite Hb, Hc.
  split.
  - intros Hneg.
    replace (Window.current_chapter_index v <? 0) with true
      by (symmetry; apply Z.ltb_lt; exact Hneg).
    reflexivity.
  - intros Hrange.
    replace (Window.current_chapter_index v <? 0) with false
      by (symmetry; apply Z.ltb_ge; lia).
    replace (0 <=? Window.current_chapter_index v) with true
      by (symmetry; apply Z.leb_le; lia).
    replace (Window.current_chapter_index v <? Z.of_nat (List.length chapters))
      with true by (symmetry; apply Z.ltb_lt; lia).
    cbn [andb]. view_fields.
    eexists. split; [reflexivity|].
    split; [apply set_content_length|].
    split; [apply set_content_nth_same; lia|].
    split; [intros j Hj; apply set_content_nth_other; exact Hj|].
    split; [apply set_content_titles|].
    split; [apply strip_idempotent|].
    split; [intros HLF; apply strip_line_feed; exact HLF|].
    split; [exact Hb|]. repeat (split; [reflexivity|]). reflexivity.
Qed.

End Saving.

(** ** The chapter list stays in step with the book *)

Lemma convert_chapter_to_mp3_keeps_book (isspace : char -> bool) (index : Z)
    (a : App.answers) (s : App.state) :
  App.epub_chapters (App.convert_chapter_to_mp3 isspace index a s)
    = App.epub_chapters s.
Proof.
  unfold App.convert_chapter_to_mp3.
  destruct (App.epub_chapters s) as [chapters|] eqn:Ec; [|exact Ec].
  destruct (index <? 0); [exact Ec|].
  destruct (index >=? Z.of_nat (List.length chapters)); [exact Ec|].
  destruct (negb (truthy (strip isspace _))); [exact Ec|].
  unfold App.choose_output_dir.
  destruct (App.output_dir_var s) as [d|].
  - destruct (negb (App.askyesno a)); exact Ec.
  - destruct (App.askdirectory a) as [d|]; [|exact Ec].
    destruct (negb (App.askyesno a)); exact Ec.
Qed.

(** For the index of a chapter the handler shows no box, or the one that
    says that the chapter has no text. *)
Lemma convert_chapter_to_mp3_in_range (isspace : char -> bool) (index : Z)
    (a : App.answers) (s : App.state) (chapters : list chapter) :
  App.epub_chapters s = Some chapters ->
  0 <= index < Z.of_nat (List.length chapters) ->
  App.shown (App.convert_chapter_to_mp3 isspace index a s) = App.shown s \/
  exists title,
    App.shown (App.convert_chapter_to_mp3 isspace index a s) =
      App.shown s ++ [App.ErrorNoContent title].
Proof.
  intros Ec Hi. unfold App.convert_chapter_to_mp3. rewrite Ec.
  replace (index <? 0) with false by (symmetry; apply Z.ltb_ge; lia).
  replace (index >=? Z.of_nat (List.length chapters)) with false
    by (symmetry; rewrite Z.geb_leb; apply Z.leb_gt; lia).
  destruct (negb (truthy (strip isspace _))).
  - right. eexists. reflexivity.
  - left. unfold App.choose_output_dir.
    destruct (App.output_dir_var s) as [d|].
    + destruct (negb (App.askyesno a)); reflexivity.
    + destruct (App.askdirectory a) as [d|]; [|reflexivity].
      destruct (negb (App.askyesno a)); reflexivity.
Qed.

Section WellFormed.

Variable isspace : char -> bool.

(** X19.  The handlers of the chapter list keep the window well formed: after
    selecting, saving, deleting or converting, the list box still holds the
    titles of the chapters of the book, in order, and the current index is
    still [-1] or the index of a chapter.  Deleting does not raise.  The
    convert button therefore never meets an index without a chapter: with
    a current chapter it shows no box, or the one saying that the chapter
    has no text. *)
Theorem chapter_list_stays_well_formed (v : Window.view) :
  Window.well_formed v ->
  (forall selection,
     Window.well_formed (Window.on_chapter_select selection v)) /\
  Window.well_formed (Window.save_chapter_content isspace v) /\
  (forall index confirmed,
     (forall chapters, App.epub_chapters (Window.app v) = Some chapters ->
        Epub.total_words_of chapters < 2 ^ 53) ->
     snd (Window.delete_chapter index confirmed v) = None /\
     Window.well_formed (fst (Window.delete_chapter index confirmed v))) /\
  (forall a,
     Window.well_formed (Window.convert_current_chapter isspace a v) /\
     (0 <= Window.current_chapter_index v ->
      Window.boxes (Window.convert_current_chapter isspace a v) = Window.boxes v /\
      (App.shown (Window.app (Window.convert_current_chapter isspace a v))
         = App.shown (Window.app v) \/
       exists title,
         App.shown (Window.app (Window.convert_current_chapter isspace a v))
           = App.shown (Window.app v) ++ [App.ErrorNoContent title]))).
Proof.
  intros [b [chapters [Hb [Hc [Ht [Hl Hi]]]]]].
  split; [|split; [|split]].
  - (* selecting *)
    intros [index|]; [|exists b, chapters; auto].
    unfold Window.on_chapter_select. rewrite Hb, Hc.
    destruct (negb (Z.of_nat index =? Window.current_chapter_index v)
              && (Z.of_nat (List.length chapters) >? Z.of_nat index)) eqn:E;
      [|exists b, chapters; auto].
    apply andb_true_iff in E. destruct E as [_ E].
    apply Z.gtb_lt in E.
    exists b, chapters. view_fields. repeat split; try assumption.
    right. lia.
  - (* saving *)
    unfold Window.save_chapter_content. rewrite Hb, Hc.
    destruct (Window.current_chapter_index v <? 0); [exists b, chapters; auto|].
    destruct ((0 <=? Window.current_chapter_index v)
              && (Window.current_chapter_index v
                  <? Z.of_nat (List.length chapters))) eqn:E;
      [|exists b, chapters; auto].
    exists b. eexists. view_fields.
    split; [exact Hb|]. split; [reflexivity|].
    pose proof (set_content_titles
                  (Z.to_nat (Window.current_chapter_index v))
                  (strip isspace (Window.chapter_text v ++ [LF])) chapters) as Et.
    split; [eapply Forall_titles; [symmetry; exact Et | exact Ht]|].
    split.
    + rewrite Hl, !listbox_items_of_titles, Et; try reflexivity; try exact Ht.
      eapply Forall_titles; [symmetry; exact Et | exact Ht].
    + rewrite set_content_length. exact Hi.
  - (* deleting *)
    intros index confirmed Hsmall. specialize (Hsmall chapters Hc).
    unfold Window.delete_chapter. rewrite Hb, Hc.
    destruct ((index <? 0) || (index >=? Z.of_nat (List.length chapters))) eqn:E;
      [split; [reflexivity | exists b, chapters; auto]|].
    apply orb_false_iff in E. destruct E as [E0 E1].
    apply Z.ltb_ge in E0. rewrite Z.geb_leb in E1. apply Z.leb_gt in E1.
    assert (Hk : (Z.to_nat index < List.length chapters)%nat) by lia.
    destruct (chapter_title (nth (Z.to_nat index) chapters (mkchapter None None)))
      as [title|] eqn:Etitle.
    2:{ exfalso. rewrite Forall_forall in Ht.
        apply (Ht (nth (Z.to_nat index) chapters (mkchapter None None)));
          [apply nth_In; exact Hk | exact Etitle]. }
    destruct confirmed; cbn [negb];
      [|split; [reflexivity | exists b, chapters; auto]].
    pose proof (total_words_remove_at (Z.to_nat index) chapters Hk) as Htot.
    pose proof (total_words_nonneg (Window.remove_at (Z.to_nat index) chapters))
      as Hnn.
    pose proof (count_words_bounds
                  (content_of (nth (Z.to_nat index) chapters (mkchapter None None))))
      as Hcw.
    match goal with
    | |- context [Window.calculate_estimated_time ?v0] =>
        destruct (calculate_estimated_time_defined v0
                    (Window.mkinfo (Window.info_title b) (Window.info_author b)
                       (Window.info_publisher b) (Window.info_publish_date b)
                       (Epub.add_words
                          (Window.remove_at (Z.to_nat index) chapters) 0))
                    eq_refl) as [t Et]
    end.
    { cbn [Window.info_total_words].
      change (Epub.add_words ?l 0) with (Epub.total_words_of l). lia. }
    rewrite Et. view_fields. split; [reflexivity|].
    pose proof (remove_at_Forall _ (Z.to_nat index) chapters Ht) as Ht'.
    assert (Hl' : Window.remove_at (Z.to_nat index) (Window.chapter_listbox v) =
                  Window.listbox_items 0
                    (Window.remove_at (Z.to_nat index) chapters)).
    { rewrite Hl, !listbox_items_of_titles by assumption.
      rewrite !remove_at_map. reflexivity. }
    pose proof (remove_at_length (Z.to_nat index) chapters Hk) as Hlen.
    destruct (Z.eqb_spec (Window.current_chapter_index v) index) as [Hcur|Hcur];
      [|destruct (Z.gtb_spec (Window.current_chapter_index v) index) as [Hgt|Hle]];
      eexists; eexists; view_fields;
      (split; [reflexivity|]); (split; [reflexivity|]);
      (split; [exact Ht'|]); (split; [exact Hl'|]); rewrite Hlen; lia.
  - (* converting *)
    intros a. unfold Window.convert_current_chapter. rewrite Hb, Hc.
    destruct (Z.ltb_spec (Window.current_chapter_index v) 0) as [Hneg|Hpos].
    + split; [exists b, chapters; view_fields; auto | lia].
    + view_fields.
      pose proof (convert_chapter_to_mp3_keeps_book isspace
                    (Window.current_chapter_index v) a (Window.app v)) as Hk.
      split.
      * exists b, chapters. view_fields. rewrite Hk. auto.
      * intros _. split; [reflexivity|].
        apply (convert_chapter_to_mp3_in_range isspace _ a _ chapters Hc). lia.
Qed.

End WellFormed.

(** ** Loading a book *)

Lemma chapter_of_titled (isspace : char -> bool) (title : option str)
    (doc : Epub.document) (ch : chapter) :
  Epub.chapter_of isspace title doc = Some ch -> chapter_title ch <> None.
Proof.
  unfold Epub.chapter_of. destruct (Epub.parsed doc) as [e|sp]; [discriminate|].
  destruct (negb (truthy (Epub.get_text sp)) || _); [discriminate|].
  intros H. injection H as <-. cbn [chapter_title].
  destruct title as [[|c t]|]; try discriminate;
    unfold Epub.title_from_document;
    match goal with
    | |- context [if Epub.no_title isspace ?t then Some _ else _] =>
        destruct (Epub.no_title isspace t) eqn:E; [discriminate|];
        destruct t; [discriminate | cbn in E; discriminate]
    end.
Qed.

Lemma get_chapters_titled (isspace : char -> bool) (b : Epub.book) :
  Forall (fun ch => chapter_title ch <> None) (Epub.get_chapters isspace b).
Proof.
  unfold Epub.get_chapters. destruct (Epub.docs b) as [e|ds]; [constructor|].
  induction ds as [|[title doc] ds IH]; [constructor|].
  cbn [Epub.chapters_of_docs].
  destruct (Epub.chapter_of isspace title doc) as [ch|] eqn:E; [|exact IH].
  constructor; [eapply chapter_of_titled; exact E | exact IH].
Qed.

Section Loading.

Variable isspace : char -> bool.
Variable decimal : char -> option Z.
Variable os_path_join : str -> str -> str.
Variable TEMP_DIR : str.
Variable now : nat -> str.

(** Showing the cover touches the cover label, the cover path and the
    cover file, and nothing else. *)
Lemma display_cover_frame (o : Window.cover_outcome) (v : Window.view) :
  let v' := Window.display_cover TEMP_DIR o v in
  Window.book v' = Window.book v /\
  App.epub_chapters (Window.app v') = App.epub_chapters (Window.app v) /\
  Window.filepath_var v' = Window.filepath_var v /\
  Window.current_chapter_index v' = Window.current_chapter_index v /\
  Window.chapter_text v' = Window.chapter_text v /\
  Window.status_label v' = Window.status_label v /\
  Window.title_label v' = Window.title_label v /\
  Window.author_label v' = Window.author_label v /\
  Window.total_words_label v' = Window.total_words_label v /\
  App.album_var (Window.app v') = App.album_var (Window.app v) /\
  App.artist_var (Window.app v') = App.artist_var (Window.app v) /\
  App.busy (Window.app v') = App.busy (Window.app v) /\
  App.threads (Window.app v') = App.threads (Window.app v) /\
  Window.boxes v' = Window.boxes v.
Proof.
  cbn zeta. unfold Window.display_cover.
  destruct (App.epub_cover (Window.app v)) as [[|x data]|];
    [repeat split | | repeat split].
  destruct o as [|e|remains e]; [repeat split | repeat split |].
  view_fields.
  destruct (App.cover_path_var (Window.app v)) as [p|]; [|repeat split].
  destruct (path_eqb p _); repeat split.
Qed.

(** X15.  Loading a book that can be read.  When the parsing thread has stored
    the book and the interface has handled its two messages, the queue is
    empty and the window is well formed: the list box holds the titles of
    the chapters, the first chapter, if there is one, is the current one
    and its text is in the text box; the album and the artist of the tags
    are preset to the title and the author of the book, and the output
    directory to the directory named after the book beside the file. *)
Theorem load_shows_book (file_path : path) (b : Epub.book) (d : Epub.epub_data)
    (o : nat -> Window.cover_outcome) (v : Window.view) :
  Epub.parse_epub_data isspace decimal b = Some d ->
  Epub.d_total_words d < 2 ^ 53 ->
  let v1 := Window.select_epub_file (Some file_path) v in
  let r := Window._parse_epub_in_thread file_path (inr (Some d)) v1 in
  let out :=
    Window.process_messages isspace os_path_join TEMP_DIR now o 0 (snd r)
      (fst r) in
  let v' := fst out in
  snd out = [] /\
  Window.well_formed v' /\
  Window.status_label v' = Some (Window.StatusLoaded (basename file_path)) /\
  Window.chapter_listbox v' = Window.listbox_items 0 (Epub.d_chapters d) /\
  Window.current_chapter_index v' =
    match Epub.d_chapters d with [] => -1 | _ :: _ => 0 end /\
  Window.chapter_text v' =
    match Epub.d_chapters d with [] => [] | ch :: _ => content_of ch end /\
  Window.title_label v' = Epub.d_title d /\
  Window.total_words_label v' = str_of_int (Epub.d_total_words d) /\
  App.album_var (Window.app v') = Epub.d_title d /\
  App.artist_var (Window.app v') = Epub.d_author d /\
  App.output_dir_var (Window.app v') =
    Some (Window.target_dir isspace os_path_join file_path (Epub.d_title d)) /\
  App.busy (Window.app v') = App.busy (Window.app v) /\
  App.threads (Window.app v') = App.threads (Window.app v).
Proof.
  intros Hparse Hsmall. cbn zeta.
  assert (Hnn : 0 <= Epub.d_total_words d /\
                Forall (fun ch => chapter_title ch <> None) (Epub.d_chapters d)).
  { unfold Epub.parse_epub_data in Hparse.
    destruct (Epub.opens b); [|discriminate]. injection Hparse as <-.
    cbn [Epub.d_total_words Epub.d_chapters].
    split; [apply total_words_nonneg | apply get_chapters_titled]. }
  destruct Hnn as [Hnn Htitled].
  destruct (estimated_seconds_defined (Epub.d_total_words d) ltac:(lia))
    as [n [En _]].
  unfold Window._parse_epub_in_thread, Window.select_epub_file.
  cbn [fst snd Window.process_messages Window.process_message].
  unfold Window.display_epub_data, Window.clear_display.
  view_fields.
  match goal with
  | |- context [Window.display_cover TEMP_DIR ?oc ?v0] =>
      pose proof (display_cover_frame oc v0) as F; cbn zeta in F;
      remember (Window.display_cover TEMP_DIR oc v0) as vc eqn:Evc; clear Evc
  end.
  view_fields.
  destruct F as [F1 [F2 [F3 [F4 [F5 [F6 [F7 [F8 [F9 [F10 [F11 [F12 [F13 F14]]]]]]]]]]]]].
  rewrite F2.
  unfold Window.calculate_estimated_time, Window.total_words_of_view.
  destruct (Epub.d_chapters d) as [|ch rest] eqn:Ed.
  - repeat (progress (rewrite ?F1, ?F3, ?F4; view_fields)).
    cbn [Estimate.calculate_estimated_time]. rewrite En. view_fields.
    split; [reflexivity|].
    split.
    { eexists. exists []. view_fields. rewrite ?F1, ?F2, ?Ed.
      split; [reflexivity|]. split; [reflexivity|]. split; [constructor|].
      split; [reflexivity|]. left. exact F4. }
    rewrite F4, F5, F7, F9, F10, F11, F12, F13.
    repeat (split; [reflexivity|]). reflexivity.
  - view_fields. unfold Window.on_chapter_select.
    repeat (progress (rewrite ?F1, ?F2, ?F3, ?F4, ?Ed; view_fields)).
    cbn [Z.of_nat Z.eqb negb andb List.length].
    replace (Z.pos (Pos.of_succ_nat (List.length rest)) >? 0) with true
      by (symmetry; apply Z.gtb_lt; lia).
    repeat (progress (rewrite ?F1, ?F2, ?F3, ?F4, ?Ed; view_fields)).
    cbn [Estimate.calculate_estimated_time]. rewrite En. view_fields.
    split; [reflexivity|].
    split.
    { eexists. exists (ch :: rest). view_fields. rewrite ?F1, ?F2, ?Ed.
      split; [reflexivity|]. split; [reflexivity|].
      split; [exact Htitled|].
      split; [reflexivity|]. right. cbn [List.length]. lia. }
    cbn [nth]. rewrite ?F7, ?F9, ?F10, ?F11, ?F12, ?F13.
    repeat (split; [reflexivity|]). reflexivity.
Qed.

(** X16.  A file that cannot be parsed: the book, if one was loaded, is gone,
    the list box is empty, the failure is the status and an error box is
    shown; nothing is current, so the convert button asks to select a
    chapter first. *)
Theorem load_failure_clears_book (file_path : path) (b : Epub.book)
    (o : nat -> Window.cover_outcome) (v : Window.view) (a : App.answers) :
  Epub.opens b = false ->
  let v1 := Window.select_epub_file (Some file_path) v in
  let r :=
    Window._parse_epub_in_thread file_path
      (inr (Epub.parse_epub_data isspace decimal b)) v1 in
  let out :=
    Window.process_messages isspace os_path_join TEMP_DIR now o 0 (snd r)
      (fst r) in
  let v' := fst out in
  snd out = [] /\
  Window.book v' = None /\
  App.epub_chapters (Window.app v') = None /\
  Window.chapter_listbox v' = [] /\
  Window.current_chapter_index v' = -1 /\
  Window.status_label v' = Some (Window.StatusParseFailed (basename file_path)) /\
  Window.boxes v' = Window.boxes v ++ [Window.BoxError Window.CannotParse] /\
  Window.convert_current_chapter isspace a v' =
    Window.set_boxes (Window.boxes v' ++ [Window.BoxSelectChapterFirst]) v'.
Proof.
  intros Hopen. cbn zeta. unfold Epub.parse_epub_data. rewrite Hopen.
  unfold Window._parse_epub_in_thread, Window.select_epub_file.
  cbn [fst snd Window.process_messages Window.process_message].
  unfold Window.clear_display, Window.convert_current_chapter. view_fields.
  repeat (split; [reflexivity|]). reflexivity.
Qed.

End Loading.

(** ** What the window shows of a conversion *)

Section Threads.

Variable isspace : char -> bool.
Variable decimal : char -> option Z.

(** The messages of the single-chapter thread, whatever happens. *)
Lemma single_thread_queue (params : single_params)
    (epub_cover : option bytes) (opening : open_outcome)
    (env : Z -> outcome) (tag : tag_outcome) (w : world) :
  queue_of (events (fst (_convert_single_chapter_thread isspace decimal params
                           epub_cover opening env tag w))) =
  queue_of (events w)
  ++ [QLog (LogStartChapter (s_chapter_title params));
      QStatus (StatusConverting (s_chapter_title params));
      QProgress 0]
  ++ match cover_raises (s_cover_path params) opening w with
     | Some e => [QLog (LogConvertError e); QStatus (StatusError e)]
     | None =>
         [QLog LogGenerating]
         ++ (if job_succeeds isspace (s_content params) MAX_RETRIES env then
               [QProgress 80; QLog LogGeneratedTagging]
               ++ (if tag_succeeds tag then
                     [QProgress 100;
                      QLog (LogDone (basename (s_output_mp3 params)));
                      QLog LogElapsed; QStatus StatusDone]
                   else [QLog LogTagFailed; QStatus StatusPartialTagFailed])
             else [QLog LogGenFailed; QStatus StatusFailed])
     end.
Proof.
  unfold _convert_single_chapter_thread.
  unfold bind, put, print_stderr, emit, try_finally, try_catch,
    set_processing, ret.
  cbn [files processing events].
  destruct (cover_raises (s_cover_path params) opening w) as [e|] eqn:Hcov.
  { match goal with
    | |- context [single_cover ?a ?b ?o ?w0] =>
        rewrite (single_cover_raises a b o w0 e Hcov)
    end.
    cbn [files processing events fst snd].
    rewrite !queue_of_app. cbn [queue_of app].
    rewrite ?app_nil_r, <- !app_assoc. reflexivity. }
  match goal with
  | |- context [single_cover ?a ?b ?o ?w0] =>
      destruct (single_cover_runs a b o w0 Hcov) as [c ->]
  end.
  cbn [files processing events].
  match goal with
  | |- context [process_text_to_mp3 ?a ?b ?c ?d ?e ?f ?g ?h ?k ?w0] =>
      destruct (process_text_to_mp3_runs a b c f d e g h k w0)
        as [w1 [tr1 [E1 [Ev1 [P1 [Q1 [U1 F1]]]]]]]
  end.
  rewrite E1. cbn [files processing events] in Ev1, P1.
  destruct (job_succeeds isspace (s_content params) MAX_RETRIES env) eqn:Hj.
  - destruct (F1 eq_refl) as [Fa Fl].
    match goal with
    | |- context [update_mp3_tag ?a ?b ?c ?d ?e ?f ?g ?h ?w0] =>
        destruct (update_mp3_tag_runs a b c d e f g h w0)
          as [w2 [tr2 [E2 [Ev2 [P2 [Q2 [U2 _]]]]]]]
    end.
    rewrite E2. unfold file_exists. cbn [files] in *.
    destruct (files w1 (s_output_mp3 params)); [|contradiction].
    rewrite andb_true_r. cbn [events] in Ev2.
    destruct (tag_succeeds tag); cbn [fst events];
      rewrite Ev2, Ev1, !queue_of_app, Q1, Q2; cbn [queue_of app];
      rewrite ?app_nil_r, <- !app_assoc; reflexivity.
  - cbn [fst events]. rewrite Ev1, !queue_of_app, Q1. cbn [queue_of app].
    rewrite ?app_nil_r, <- !app_assoc. reflexivity.
Qed.

(** The messages of the batch thread. *)
Lemma batch_thread_queue (params : batch_params) (env : Z -> Z -> outcome)
    (tag : Z -> tag_outcome) (w : world) :
  Z.of_nat (List.length (b_chapters params)) < 2 ^ 53 ->
  queue_of (events (fst (_generate_ebook_thread isspace decimal params env tag
                           w))) =
  queue_of (events w)
  ++ ([QLog (LogBatchStart (Z.of_nat (List.length (b_chapters params))));
       QStatus (StatusBatch 0 (Z.of_nat (List.length (b_chapters params))))]
      ++ batch_messages isspace params env tag 1 (b_chapters params))
  ++ [QProgress 100;
      QStatus (StatusBatchDone (Z.of_nat (List.length (b_chapters params))));
      QLog LogAllDone; QLog LogBatchElapsed].
Proof.
  intros Hlen.
  assert (Hp : forall j,
             1 - 1 <= j < 1 - 1 + Z.of_nat (List.length (b_chapters params)) ->
             progress_pct j (Z.of_nat (List.length (b_chapters params))) <> None).
  { intros j Hj. apply progress_pct_defined; lia. }
  destruct (chapter_loop_runs isspace decimal params env tag (b_chapters params) 1
              (mkworld (files w) (processing w)
                 ((events w
                   ++ [Put (QLog (LogBatchStart
                                    (Z.of_nat (List.length (b_chapters params)))))])
                  ++ [Put (QStatus (StatusBatch 0
                                      (Z.of_nat (List.length (b_chapters params)))))]))
              Hp)
    as [w1 [tr1 [E1 [Ev1 [P1 [Q1 U1]]]]]].
  cbn [events processing files] in Ev1, P1.
  unfold _generate_ebook_thread.
  unfold bind, put, emit, try_finally, try_catch, set_processing, ret.
  cbn [files processing events].
  rewrite E1. cbn [fst events]. rewrite Ev1.
  rewrite !queue_of_app, Q1. cbn [queue_of app].
  rewrite <- !app_assoc. reflexivity.
Qed.

End Threads.

Section Drain.

Variable isspace : char -> bool.
Variable decimal : char -> option Z.
Variable os_path_join : str -> str -> str.
Variable TEMP_DIR : str.
Variable now : nat -> str.

Local Abbreviation drain :=
  (Window.process_messages isspace os_path_join TEMP_DIR now).

(** The messages of a conversion are all handled, in order, and change
    nothing but the status, the progress and the log. *)
Lemma drain_conversion (o : nat -> Window.cover_outcome)
    (q : list queue_msg) : forall k v,
  exists v',
    drain o k (map Window.of_queue_msg q) v = (v', []) /\
    Window.app v' = Window.app v /\ Window.book v' = Window.book v /\
    Window.current_chapter_index v' = Window.current_chapter_index v /\
    Window.chapter_listbox v' = Window.chapter_listbox v /\
    Window.chapter_text v' = Window.chapter_text v /\
    Window.boxes v' = Window.boxes v /\
    exists lines, Window.log_text v' = Window.log_text v ++ lines.
Proof.
  induction q as [|m q IH]; intros k v.
  - exists v. cbn. repeat split; try reflexivity. exists []. now rewrite app_nil_r.
  - cbn [map Window.process_messages].
    destruct m as [l|s|pct];
      cbn [Window.of_queue_msg Window.process_message].
    + destruct (IH (S k) (Window.append_log now l v))
        as [v' [E [H1 [H2 [H3 [H4 [H5 [H6 [lines H7]]]]]]]]].
      exists v'. split; [exact E|]. unfold Window.append_log in *. view_fields.
      repeat (split; [assumption|]). eexists. rewrite H7, <- app_assoc.
      reflexivity.
    + destruct (IH (S k) (Window.update_status (Window.StatusOf s) v))
        as [v' [E [H1 [H2 [H3 [H4 [H5 [H6 [lines H7]]]]]]]]].
      exists v'. split; [exact E|]. view_fields.
      repeat (split; [assumption|]). exists lines. exact H7.
    + destruct (IH (S k) (Window.set_progress pct v))
        as [v' [E [H1 [H2 [H3 [H4 [H5 [H6 [lines H7]]]]]]]]].
      exists v'. split; [exact E|]. view_fields.
      repeat (split; [assumption|]). exists lines. exact H7.
Qed.

Lemma drain_app (o : nat -> Window.cover_outcome) (q1 q2 : list queue_msg) :
  forall k v,
  drain o k (map Window.of_queue_msg (q1 ++ q2)) v =
  drain o (k + List.length q1) (map Window.of_queue_msg q2)
    (fst (drain o k (map Window.of_queue_msg q1) v)).
Proof.
  induction q1 as [|m q1 IH]; intros k v.
  - cbn. rewrite Nat.add_0_r. reflexivity.
  - cbn [app map Window.process_messages List.length].
    destruct m as [l|s|pct];
      cbn [Window.of_queue_msg Window.process_message];
      rewrite IH; f_equal; lia.
Qed.

(** X20.  The end of a conversion of one chapter, as the window shows it once
    the messages of the thread have been handled: the progress is at 100
    when the audio was generated and tagged, at 80 when only the tagging
    failed, and at 0 when the generation failed or the cover could not be
    read, with the matching status (for the cover, the exception); the
    book, the chapter list and the current chapter are as before. *)
Theorem conversion_display_after_drain (params : single_params)
    (epub_cover : option bytes) (opening : open_outcome)
    (env : Z -> outcome) (tag : tag_outcome)
    (w : world) (o : nat -> Window.cover_outcome) (v : Window.view) :
  queue_of (events w) = [] ->
  let run :=
    _convert_single_chapter_thread isspace decimal params epub_cover opening
      env tag w in
  let out :=
    drain o 0 (map Window.of_queue_msg (queue_of (events (final run)))) v in
  let v' := fst out in
  snd out = [] /\
  Window.progress_var v' =
    match cover_raises (s_cover_path params) opening w with
    | Some _ => 0
    | None =>
        if job_succeeds isspace (s_content params) MAX_RETRIES env then
          if tag_succeeds tag then 100 else 80
        else 0
    end /\
  Window.status_label v' =
    Some (Window.StatusOf
            match cover_raises (s_cover_path params) opening w with
            | Some e => StatusError e
            | None =>
                if job_succeeds isspace (s_content params) MAX_RETRIES env then
                  if tag_succeeds tag then StatusDone
                  else StatusPartialTagFailed
                else StatusFailed
            end) /\
  Window.app v' = Window.app v /\ Window.book v' = Window.book v /\
  Window.current_chapter_index v' = Window.current_chapter_index v /\
  Window.chapter_listbox v' = Window.chapter_listbox v /\
  Window.chapter_text v' = Window.chapter_text v /\
  Window.boxes v' = Window.boxes v.
Proof.
  intros Hq. cbn zeta. unfold final. rewrite single_thread_queue, Hq.
  cbn [app].
  destruct (cover_raises (s_cover_path params) opening w) as [e|];
    [|destruct (job_succeeds isspace (s_content params) MAX_RETRIES env);
      [destruct (tag_succeeds tag)|]];
    cbn [app map Window.of_queue_msg Window.process_messages
         Window.process_message fst snd];
    unfold Window.append_log; view_fields;
    repeat (split; [reflexivity|]); reflexivity.
Qed.

(** X21.  The end of a batch, as the window shows it once the messages of the
    thread have been handled: the progress is at 100, the status says that
    the batch is complete, and the last two lines of the log are the two
    closing lines; the book, the chapter list and the current chapter are
    as before. *)
Theorem batch_display_after_drain (params : batch_params)
    (env : Z -> Z -> outcome) (tag : Z -> tag_outcome) (w : world)
    (o : nat -> Window.cover_outcome) (v : Window.view) :
  let total := Z.of_nat (List.length (b_chapters params)) in
  total < 2 ^ 53 ->
  queue_of (events w) = [] ->
  let run := _generate_ebook_thread isspace decimal params env tag w in
  let out :=
    drain o 0 (map Window.of_queue_msg (queue_of (events (final run)))) v in
  let v' := fst out in
  snd out = [] /\
  Window.progress_var v' = 100 /\
  Window.status_label v' = Some (Window.StatusOf (StatusBatchDone total)) /\
  (exists earlier t1 t2,
     Window.log_text v' =
       Window.log_text v ++ earlier
       ++ [(t1, LogAllDone); (t2, LogBatchElapsed)]) /\
  Window.app v' = Window.app v /\ Window.book v' = Window.book v /\
  Window.current_chapter_index v' = Window.current_chapter_index v /\
  Window.chapter_listbox v' = Window.chapter_listbox v /\
  Window.chapter_text v' = Window.chapter_text v /\
  Window.boxes v' = Window.boxes v.
Proof.
  cbn zeta. intros Hlen Hq. unfold final.
  rewrite batch_thread_queue by exact Hlen. rewrite Hq. cbn [app].
  match goal with
  | |- context [drain o 0 (map Window.of_queue_msg (?a :: ?b :: ?l ++ ?r)) v] =>
      change (a :: b :: l ++ r) with ((a :: b :: l) ++ r);
      rewrite (drain_app o (a :: b :: l) r 0 v);
      destruct (drain_conversion o (a :: b :: l) 0 v)
        as [v1 [E1 [H1 [H2 [H3 [H4 [H5 [H6 [lines H7]]]]]]]]];
      rewrite E1
  end.
  cbn [map Window.of_queue_msg Window.process_messages Window.process_message
       fst snd].
  unfold Window.append_log. view_fields.
  split; [reflexivity|]. split; [reflexivity|]. split; [reflexivity|].
  split.
  { exists lines. do 2 eexists. rewrite H7, <- !app_assoc. cbn [app].
    reflexivity. }
  repeat (split; [assumption|]). assumption.
Qed.

End Drain.

(** ** Names of the outputs *)

Lemma batch_safe_title_length (title : str) (i : Z) :
  len (batch_safe_title title i) <= 200.
Proof.
  unfold batch_safe_title.
  set (t := if negb (truthy (strip_illegal title)) then ZHANGJIE ++ str_of_int i
            else strip_illegal title).
  destruct (Z.gtb_spec (len t) 200) as [H|H]; [|exact H].
  unfold len in *. rewrite length_app, length_firstn.
  change (List.length (lit "...")) with 3%nat. lia.
Qed.

(** X6.  The files of a batch never collide: the names of two chapters with
    different sequence numbers differ, whatever their titles are, and the
    audio and the subtitle file of one chapter differ; the title part of a
    name has at most 200 characters.  In the single-chapter mode the name
    is the title alone, so that chapters with the same title share their
    files. *)
Theorem batch_outputs_never_collide (i i' : Z) (title title' : str)
    (ext ext' : str) :
  0 <= i -> 0 <= i' -> i <> i' ->
  batch_name i (batch_safe_title title i) ext <>
    batch_name i' (batch_safe_title title' i') ext' /\
  batch_name i (batch_safe_title title i) (lit "mp3") <>
    batch_name i (batch_safe_title title i) (lit "lrc") /\
  len (batch_safe_title title i) <= 200 /\
  (strip_illegal title <> [] ->
   single_name (single_safe_title title i) ext =
   single_name (single_safe_title title i') ext).
Proof.
  intros Hi Hi' Hne.
  split; [intros E; apply batch_name_inj in E; [contradiction | lia | lia]|].
  split.
  { intros E.
    pose proof (batch_outputs_differ [] i (batch_safe_title title i)) as H.
    unfold path_eqb in H. cbn [dirname basename str_eqb andb] in H.
    rewrite E, str_eqb_refl in H. discriminate. }
  split; [apply batch_safe_title_length|].
  intros Ht. unfold single_safe_title.
  destruct (strip_illegal title); [contradiction | reflexivity].
Qed.

Lemma batch_outputs_never_collide_witness :
  batch_name 1 (batch_safe_title (lit "same") 1) (lit "mp3") <>
    batch_name 2 (batch_safe_title (lit "same") 2) (lit "mp3") /\
  single_name (single_safe_title (lit "same") 1) (lit "mp3") =
    single_name (single_safe_title (lit "same") 2) (lit "mp3").
Proof.
  destruct (batch_outputs_never_collide 1 2 (lit "same") (lit "same")
              (lit "mp3") (lit "mp3") ltac:(lia) ltac:(lia) ltac:(lia))
    as [H1 [_ [_ H4]]].
  split; [exact H1 | apply H4; discriminate].
Defined.

(** ** The estimate of the duration *)

(** X14.  For a count of words that is a float exactly, the estimate never
    raises: it is a number of seconds that is not negative, shown as
    hours, minutes and seconds with the minutes and the seconds below 60
    and on two digits each, and the hours on two digits or more.  Without
    a book the estimate is zero. *)
Theorem estimated_time_is_a_clock (total_words : Z) :
  0 <= total_words < 2 ^ 53 ->
  exists total_seconds,
    Estimate.estimated_seconds total_words = Some total_seconds /\
    0 <= total_seconds /\
    let hours := total_seconds / 3600 in
    let minutes := total_seconds mod 3600 / 60 in
    let seconds := total_seconds mod 3600 mod 60 in
    Estimate.calculate_estimated_time (Some total_words) =
      Some (format_0d 2 hours ++ lit ":"
            ++ [digit_char (minutes / 10); digit_char (minutes mod 10)]
            ++ lit ":"
            ++ [digit_char (seconds / 10); digit_char (seconds mod 10)]) /\
    0 <= minutes < 60 /\ 0 <= seconds < 60 /\
    hours * 3600 + minutes * 60 + seconds = total_seconds /\
    int_of_digits ascii_digit_value (format_0d 2 hours) = Some hours /\
    Estimate.calculate_estimated_time None = Some (lit "00:00:00").
Proof.
  intros Ht.
  destruct (estimated_seconds_defined total_words Ht) as [n [En Hn]].
  exists n. split; [exact En|]. split; [exact Hn|]. cbn zeta.
  assert (Hr : 0 <= n mod 3600 < 3600) by (apply Z.mod_pos_bound; lia).
  assert (Hm : 0 <= n mod 3600 / 60 < 60)
    by (split; [apply Z.div_pos | apply Z.div_lt_upper_bound]; lia).
  assert (Hs : 0 <= n mod 3600 mod 60 < 60) by (apply Z.mod_pos_bound; lia).
  split.
  { cbn [Estimate.calculate_estimated_time]. rewrite En. unfold Estimate.hms.
    rewrite (format_0d_2_small (n mod 3600 / 60)) by lia.
    rewrite (format_0d_2_small (n mod 3600 mod 60)) by lia.
    reflexivity. }
  split; [exact Hm|]. split; [exact Hs|].
  split.
  { pose proof (Z.div_mod n 3600 ltac:(lia)).
    pose proof (Z.div_mod (n mod 3600) 60 ltac:(lia)). lia. }
  split; [apply format_0d_value; apply Z.div_pos; lia | reflexivity].
Qed.

Lemma estimated_time_is_a_clock_witness :
  exists total_seconds,
    Estimate.estimated_seconds 300000 = Some total_seconds /\
    0 <= total_seconds.
Proof.
  destruct (estimated_time_is_a_clock 300000 ltac:(lia)) as [n [En [Hn _]]].
  exists n. split; [exact En | exact Hn].
Defined.

(** ** One batch at a time *)

Lemma start_generate_ebook_cases (a : App.answers) (s : App.state) :
  (App.busy (App.start_generate_ebook a s) = App.busy s /\
   App.threads (App.start_generate_ebook a s) = App.threads s) \/
  (App.busy s = false /\
   App.busy (App.start_generate_ebook a s) = true /\
   exists params,
     App.threads (App.start_generate_ebook a s) =
       App.threads s ++ [App.BatchWorker params] /\
     b_chapters params <> [] /\
     App.epub_chapters s = Some (b_chapters params)).
Proof.
  unfold App.start_generate_ebook.
  destruct (App.busy s) eqn:Eb; [left; split; [exact Eb | reflexivity]|].
  destruct (App.epub_chapters s) as [[|ch chapters]|] eqn:Ec;
    try (left; split; [exact Eb | reflexivity]).
  assert (D : App.choose_output_dir a s = None \/
              exists d s1, App.choose_output_dir a s = Some (d, s1) /\
                App.busy s1 = false /\ App.threads s1 = App.threads s).
  { unfold App.choose_output_dir.
    destruct (App.output_dir_var s) as [d|];
      [right; exists d, s; auto|].
    destruct (App.askdirectory a) as [d|]; [|left; reflexivity].
    right. eexists _, _. split; [reflexivity|]. cbn. auto. }
  destruct D as [D|[d [s1 [D [Eb1 Et1]]]]]; rewrite D;
    [left; split; [exact Eb | reflexivity]|].
  set (cs := match App.cover_path_var s1, App.cover_on_disk s1 with
             | Some _, App.CoverBytes data => (Some data, s1)
             | Some _, App.CoverUnreadable e =>
                 (None, App.enqueue (QLog (LogCoverReadFailed e)) s1)
             | _, _ =>
                 (match App.epub_cover s1 with
                  | Some (b :: data) => Some (b :: data)
                  | _ => None
                  end, s1)
             end).
  assert (C : App.busy (snd cs) = false /\
              App.threads (snd cs) = App.threads s).
  { subst cs. destruct (App.cover_path_var s1);
      [destruct (App.cover_on_disk s1)|]; cbn; rewrite ?Eb1, ?Et1; auto. }
  destruct cs as [cover_data s2]. cbn [snd] in C. destruct C as [Eb2 Et2].
  destruct (negb (App.askyesno a)).
  - left. rewrite Eb2, Et2. auto.
  - right. split; [reflexivity|]. split; [reflexivity|].
    eexists. cbn [App.start_thread App.set_busy App.threads].
    rewrite Et2. split; [reflexivity|]. cbn [b_chapters].
    split; [discriminate | reflexivity].
Qed.

(** X22.  As long as only batches are used, at most one runs: starting from a
    window without a running conversion, whatever requests are made and
    whenever the running batch ends, the flag is set exactly while a batch
    runs, no second batch is started beside it, and every batch started
    has chapters. *)
Theorem one_batch_at_a_time (evs : list Session.batch_event) (s : App.state) :
  App.busy s = false -> App.threads s = [] ->
  let s' := Session.batch_session evs s in
  (App.running s' <= 1)%nat /\
  (App.busy s' = true <-> App.running s' = 1%nat) /\
  forallb Session.is_batch (App.threads s') = true.
Proof.
  intros Hb Ht. cbn zeta.
  assert (Inv : (App.busy s = false /\ App.threads s = []) \/
                (App.busy s = true /\ exists w, App.threads s = [w] /\
                   Session.is_batch w = true)) by (left; auto).
  clear Hb Ht. unfold Session.batch_session.
  revert s Inv. induction evs as [|ev evs IH]; intros s Inv.
  - cbn [fold_left]. unfold App.running.
    destruct Inv as [[Hb Ht]|[Hb [w [Ht Hw]]]]; rewrite Ht, Hb; cbn;
      rewrite ?Hw; repeat split; try discriminate; try lia; auto.
  - cbn [fold_left]. apply IH. destruct ev as [a|]; cbn [Session.batch_step].
    + destruct (start_generate_ebook_cases a s)
        as [[Eb Et]|[Eb [Eb' [params [Et [Hne Hc]]]]]].
      * rewrite Eb, Et. exact Inv.
      * right. split; [exact Eb'|].
        destruct Inv as [[_ Ht]|[Hb _]]; [|congruence].
        exists (App.BatchWorker params). rewrite Et, Ht.
        split; [reflexivity|]. cbn [Session.is_batch].
        destruct (b_chapters params); [contradiction | reflexivity].
    + destruct Inv as [[Hb Ht]|[Hb [w [Ht Hw]]]].
      * rewrite Ht. left. auto.
      * rewrite Ht. left. unfold App.thread_ends. rewrite Ht.
        cbn [App.busy App.threads App.remove_nth]. auto.
Qed.

Lemma one_batch_at_a_time_witness :
  let s :=
    App.mkstate false
      (Some [mkchapter (Some (lit "one")) (Some (lit "text"))]) None
      (Some (lit "out")) (lit "voice") 15 (lit "artist") (lit "album") None
      App.NoCoverFile [] [] [] in
  let yes := App.mkanswers None true in
  App.running
    (Session.batch_session
       [Session.Request yes; Session.Request yes; Session.BatchEnds;
        Session.Request yes] s) = 1%nat.
Proof.
  cbn zeta.
  destruct (one_batch_at_a_time
              [Session.Request (App.mkanswers None true);
               Session.Request (App.mkanswers None true); Session.BatchEnds;
               Session.Request (App.mkanswers None true)]
              (App.mkstate false
                 (Some [mkchapter (Some (lit "one")) (Some (lit "text"))]) None
                 (Some (lit "out")) (lit "voice") 15 (lit "artist")
                 (lit "album") None App.NoCoverFile [] [] [])
              eq_refl eq_refl) as [_ [H _]].
  apply H. reflexivity.
Defined.

(** ** The directory made for a book *)

Section Directory.

Variable isspace : char -> bool.
Variable os_path_join : str -> str -> str.

Hypothesis you_is_no_space : isspace 26377%N = false.

(** X23.  The name of the directory made for a book is the prefix followed by
    the title of the book without the characters a file name may not
    contain; a title that is empty or blank without them gives the
    fallback name, so that the part after the prefix is never blank and
    never holds such a character. *)
Theorem book_directory_name (epub_path : path) (title : str) :
  let safe := Window.safe_book_title isspace title in
  Window.target_dir isspace os_path_join epub_path title =
    os_path_join (dirname epub_path) (Window.DIRECTORY_PREFIX ++ safe) /\
  (forall c, In c safe -> is_illegal c = false) /\
  truthy (strip isspace safe) = true /\
  (truthy (strip isspace (strip_illegal title)) = true ->
   safe = strip_illegal title) /\
  (truthy (strip isspace (strip_illegal title)) = false ->
   safe = Window.YOUSHENGSHU).
Proof.
  cbn zeta.
  assert (Hy : truthy (strip isspace Window.YOUSHENGSHU) = true).
  { apply truthy_strip. unfold Window.YOUSHENGSHU. cbn [forallb].
    rewrite you_is_no_space. reflexivity. }
  assert (Hl : forall c, In c Window.YOUSHENGSHU -> is_illegal c = false).
  { intros c H. cbn in H. destruct H as [<-|[<-|[<-|[]]]]; reflexivity. }
  assert (Hs : strip_illegal Window.YOUSHENGSHU = Window.YOUSHENGSHU)
    by reflexivity.
  split; [reflexivity|].
  unfold Window.safe_book_title.
  destruct title as [|c title]; cbn [truthy].
  - rewrite Hs, Hy. cbn [negb].
    split; [exact Hl|]. split; [exact Hy|].
    split; [intros H|intros _; reflexivity].
    assert (E : strip isspace (strip_illegal []) = [])
      by (apply strip_nil_iff; reflexivity).
    rewrite E in H. discriminate.
  - destruct (truthy (strip isspace (strip_illegal (c :: title)))) eqn:E;
      cbn [negb].
    + split; [intros x Hx; eapply strip_illegal_legal; exact Hx|].
      split; [exact E|]. split; [reflexivity | discriminate].
    + split; [exact Hl|]. split; [exact Hy|].
      split; [discriminate | reflexivity].
Qed.

End Directory.

Lemma book_directory_name_witness :
  Window.safe_book_title ascii_isspace (lit "A: B?") = lit "A B" /\
  Window.safe_book_title ascii_isspace (lit " ?: ") = Window.YOUSHENGSHU.
Proof.
  pose proof (book_directory_name ascii_isspace (fun d n => d ++ n) eq_refl
                (mkpath [] []) (lit "A: B?")) as [_ [_ [_ [H1 _]]]].
  pose proof (book_directory_name ascii_isspace (fun d n => d ++ n) eq_refl
                (mkpath [] []) (lit " ?: ")) as [_ [_ [_ [_ H2]]]].
  split; [rewrite H1; reflexivity | apply H2; reflexivity].
Defined.

(** ** Examples *)


Lemma single_chapter_failure_witness :
  let run :=
    _convert_single_chapter_thread ascii_isspace ascii_digit_value
      Samples.single None Opens Samples.offline Saves initial_world in
  result run = inr tt /\
  ui_of (events (final run)) =
    [ConvertButton false; ShowError generation_failed; ConvertButton true] /\
  files (final run) (mkpath (lit "out") (lit "other.mp3")) = None.
Proof.
  cbn zeta.
  destruct (single_chapter_failure ascii_isspace ascii_digit_value
              Samples.single None Opens Samples.offline Saves initial_world
              eq_refl eq_refl)
    as [R [_ [U [F _]]]].
  split; [exact R|]. split; [exact U|].
  rewrite (F (mkpath (lit "out") (lit "other.mp3")) eq_refl eq_refl).
  reflexivity.
Defined.



Lemma delete_chapter_keeps_selection_witness :
  let v' := fst (Window.delete_chapter 0 true Samples.view) in
  Window.current_chapter_index Samples.view = 1 /\
  Window.current_chapter_index v' = 0 /\
  List.nth 0 (Window.remove_at 0 Samples.chapters) (mkchapter None None) =
    List.nth 1 Samples.chapters (mkchapter None None) /\
  Window.chapter_text v' = lit "other".
Proof.
  cbn zeta.
  assert (H3 : 0 <= 0 < Z.of_nat (List.length Samples.chapters))
    by (cbn; lia).
  destruct (delete_chapter_keeps_selection 0 Samples.view
              (Window.mkinfo (lit "book") [] [] [] 18) Samples.chapters
              (lit "one") eq_refl eq_refl H3 eq_refl eq_refl)
    as [_ [_ [_ [_ [_ [_ [_ [_ H]]]]]]]].
  assert (Hne : Window.current_chapter_index Samples.view <> 0)
    by (cbn; lia).
  destruct (H Hne) as [T [_ K]].
  assert (Hin : 0 <= Window.current_chapter_index Samples.view
                < Z.of_nat (List.length Samples.chapters)) by (cbn; lia).
  destruct (K Hin) as [B E].
  split; [reflexivity|].
  assert (I : Window.current_chapter_index
                (fst (Window.delete_chapter 0 true Samples.view)) = 0)
    by reflexivity.
  split; [exact I|]. rewrite I in E.
  split; [exact E | exact T].
Defined.

Lemma sample_view_well_formed : Window.well_formed Samples.view.
Proof.
  exists (Window.mkinfo (lit "book") [] [] [] 18), Samples.chapters.
  split; [reflexivity|]. split; [reflexivity|].
  split; [repeat constructor; discriminate|].
  split; [reflexivity|]. right. cbn. lia.
Qed.

Lemma chapter_list_stays_well_formed_witness :
  Window.well_formed Samples.view /\
  Window.well_formed (fst (Window.delete_chapter 1 true Samples.view)) /\
  Window.well_formed (Window.on_chapter_select (Some 2%nat) Samples.view).
Proof.
  split; [exact sample_view_well_formed|].
  destruct (chapter_list_stays_well_formed ascii_isspace Samples.view
              sample_view_well_formed) as [S [_ [D _]]].
  split; [|exact (S (Some 2%nat))].
  apply (D 1 true). intros chapters E. injection E as <-. reflexivity.
Defined.

Lemma load_shows_book_witness :
  let v1 := Window.select_epub_file (Some Samples.file) Samples.view in
  let r :=
    Window._parse_epub_in_thread Samples.file (inr (Some Samples.epub)) v1 in
  let v' :=
    fst (Window.process_messages ascii_isspace Samples.join (lit "tmp")
           Samples.clock (fun _ => Window.CoverShown) 0 (snd r) (fst r)) in
  Epub.parse_epub_data ascii_isspace ascii_digit_value Samples.book =
    Some Samples.epub /\
  Window.chapter_listbox v' = [lit " Intro"] /\
  Window.current_chapter_index v' = 0 /\
  Window.chapter_text v' = lit "Intro" ++ [LF] ++ lit "Once upon a time" /\
  App.album_var (Window.app v') = lit "Tales".
Proof.
  cbn zeta.
  assert (H1 : Epub.parse_epub_data ascii_isspace ascii_digit_value
                 Samples.book = Some Samples.epub) by reflexivity.
  split; [exact H1|].
  destruct (load_shows_book ascii_isspace ascii_digit_value Samples.join
              (lit "tmp") Samples.clock Samples.file Samples.book Samples.epub
              (fun _ => Window.CoverShown) Samples.view H1 eq_refl)
    as [_ [_ [_ [L [I [T [_ [_ [A _]]]]]]]]].
  split; [exact L|]. split; [exact I|]. split; [exact T | exact A].
Defined.

Lemma load_failure_clears_book_witness :
  let v1 := Window.select_epub_file (Some Samples.file) Samples.view in
  let r :=
    Window._parse_epub_in_thread Samples.file
      (inr (Epub.parse_epub_data ascii_isspace ascii_digit_value
              Samples.unreadable)) v1 in
  let v' :=
    fst (Window.process_messages ascii_isspace Samples.join (lit "tmp")
           Samples.clock (fun _ => Window.CoverShown) 0 (snd r) (fst r)) in
  Window.book Samples.view <> None /\
  Window.book v' = None /\ Window.chapter_listbox v' = [] /\
  Window.boxes v' = [Window.BoxError Window.CannotParse].
Proof.
  cbn zeta.
  destruct (load_failure_clears_book ascii_isspace ascii_digit_value
              Samples.join (lit "tmp") Samples.clock Samples.file
              Samples.unreadable (fun _ => Window.CoverShown) Samples.view
              (App.mkanswers None true) eq_refl)
    as [_ [B [_ [L [_ [_ [X _]]]]]]].
  split; [discriminate|]. split; [exact B|]. split; [exact L | exact X].
Defined.

Lemma conversion_display_after_drain_witness :
  let run :=
    _convert_single_chapter_thread ascii_isspace ascii_digit_value
      Samples.single None Opens Samples.second_try
      (SaveRaises (lit "disk full")) initial_world in
  let v' :=
    fst (Window.process_messages ascii_isspace Samples.join (lit "tmp")
           Samples.clock (fun _ => Window.CoverShown) 0
           (map Window.of_queue_msg (queue_of (events (final run))))
           Samples.view) in
  Window.progress_var v' = 80 /\
  Window.status_label v' = Some (Window.StatusOf StatusPartialTagFailed) /\
  Window.current_chapter_index v' = 1.
Proof.
  cbn zeta.
  destruct (conversion_display_after_drain ascii_isspace ascii_digit_value
              Samples.join (lit "tmp") Samples.clock Samples.single None
              Opens Samples.second_try (SaveRaises (lit "disk full"))
              initial_world (fun _ => Window.CoverShown) Samples.view eq_refl)
    as [_ [P [S [_ [_ [I _]]]]]].
  split; [exact P|]. split; [exact S | exact I].
Defined.

Lemma batch_display_after_drain_witness :
  let run :=
    _generate_ebook_thread ascii_isspace ascii_digit_value Samples.batch
      Samples.batch_env (fun _ => Saves) initial_world in
  let v' :=
    fst (Window.process_messages ascii_isspace Samples.join (lit "tmp")
           Samples.clock (fun _ => Window.CoverShown) 0
           (map Window.of_queue_msg (queue_of (events (final run))))
           Samples.view) in
  Window.progress_var v' = 100 /\
  Window.status_label v' = Some (Window.StatusOf (StatusBatchDone 3)) /\
  Window.chapter_listbox v' = Window.chapter_listbox Samples.view.
Proof.
  cbn zeta.
  destruct (batch_display_after_drain ascii_isspace ascii_digit_value
              Samples.join (lit "tmp") Samples.clock Samples.batch
              Samples.batch_env (fun _ => Saves) initial_world
              (fun _ => Window.CoverShown) Samples.view eq_refl eq_refl)
    as [_ [P [S [_ [_ [_ [_ [L _]]]]]]]].
  split; [exact P|]. split; [exact S | exact L].
Defined.

Lemma save_chapter_content_effect_witness :
  let v := Window.set_chapter_text (lit "  new text ") Samples.view in
  exists chapters',
    App.epub_chapters
      (Window.app (Window.save_chapter_content ascii_isspace v)) =
      Some chapters' /\
    List.nth 1 chapters' (mkchapter None None) =
      mkchapter (Some (lit "two")) (Some (lit "new text")) /\
    List.nth 0 chapters' (mkchapter None None) =
      mkchapter (Some (lit "one")) (Some (lit "old text")).
Proof.
  cbn zeta.
  destruct (save_chapter_content_effect ascii_isspace
              (Window.set_chapter_text (lit "  new text ") Samples.view)
              (Window.mkinfo (lit "book") [] [] [] 18) Samples.chapters
              eq_refl eq_refl) as [_ H].
  destruct (H ltac:(cbn; lia)) as [cs [E [_ [N1 [Nj _]]]]].
  exists cs. split; [exact E|]. split; [exact N1|].
  exact (Nj 0%nat ltac:(discriminate)).
Defined.
